(** * Shroom: room geometry, room-object lifecycle and avatar look engine

    A shallow embedding of three source files of the shroom renderer

      - [src/objects/RoomObject.ts]   (module [RoomObject])
      - [src/objects/room/Room.ts]    (module [Room])
      - the [BaseAvatar] class        (module [BaseAvatar])

    followed by the properties of the specification that concern them.
    Mutable objects are records threaded through the methods; methods that can
    throw live in a small state-and-exception monad that keeps the partially
    mutated state at the throw, as JavaScript does. *)

From stdpp Require Import gmap strings list fin_maps.
From Stdlib Require Import ZArith QArith Lia.

Local Open Scope Z_scope.

(* ===================================================================== *)
(** * Control flow of a method call *)
(* ===================================================================== *)

(** How a call ends: normally with a value, with a thrown [Error], or (only
    for the fuel-bounded recursion of [RoomObject.destroy]) without an answer
    because the fuel ran out. *)
Inductive completion (A : Type) : Type :=
| Normal (a : A)
| Throw (msg : string)
| OutOfFuel.
Arguments Normal {A} a.
Arguments Throw {A} msg.
Arguments OutOfFuel {A}.

(** A method over the mutable state [S]: the state after the call is returned
    in every case, also when the call throws. *)
Definition M (S A : Type) : Type := S -> completion A * S.

Definition ret {S A : Type} (a : A) : M S A := fun s => (Normal a, s).

Definition bind {S A B : Type} (m : M S A) (k : A -> M S B) : M S B :=
  fun s =>
    match m s with
    | (Normal a, s') => k a s'
    | (Throw msg, s') => (Throw msg, s')
    | (OutOfFuel, s') => (OutOfFuel, s')
    end.

Definition throw {S A : Type} (msg : string) : M S A := fun s => (Throw msg, s).
Definition gets {S A : Type} (f : S -> A) : M S A := fun s => (Normal (f s), s).
Definition modify {S : Type} (f : S -> S) : M S unit := fun s => (Normal tt, f s).
Definition exhausted {S A : Type} : M S A := fun s => (OutOfFuel, s).

Notation "'let*' x ':=' c 'in' k" := (bind c (fun x => k))
  (at level 10, x name, c at level 100, k at level 200).

(** [Array.prototype.forEach]: the callback runs on each element in order; a
    throw leaves the loop. *)
Fixpoint forEach {S A : Type} (l : list A) (f : A -> M S unit) : M S unit :=
  match l with
  | [] => ret tt
  | a :: l' => let* _ := f a in forEach l' f
  end.

(** The same call repeated [n] times. *)
Fixpoint repeatM {S : Type} (n : nat) (m : M S unit) : M S unit :=
  match n with
  | O => ret tt
  | S n' => let* _ := m in repeatM n' m
  end.

Definition state_after {S A : Type} (m : M S A) (s : S) : S := snd (m s).

(* ===================================================================== *)
(** * RoomObject.ts *)
(* ===================================================================== *)

Module RoomObject.

(** Modelled from the spec: the container behind
    [IRoomContext.roomObjectContainer] is an interface whose implementation
    is not part of the sources. The spec says [destroy] "detaches from its
    owning container" and is guarded "against reentrant teardown during
    container cleanup": while it removes the object the container may call
    the object's [destroy] back, here [reentrantDestroys] times. *)
Record IRoomObjectContainer : Type := {
  containerId : nat;
  reentrantDestroys : nat
}.

(** The room context handed to [setParent]. Only the container is used by
    the base class; the other collaborators are opaque. *)
Record IRoomContext : Type := {
  roomObjectContainer : IRoomObjectContainer;
  collaborators : nat
}.

(** Calls that leave the base class: the two abstract hooks and the
    container's [removeRoomObject(this)]. *)
Inductive Call : Type :=
| CallRegistered
| CallDestroyed
| CallRemoveRoomObject (c : IRoomObjectContainer).

Global Instance IRoomObjectContainer_eq_dec : EqDecision IRoomObjectContainer.
Proof. solve_decision. Defined.

Global Instance Call_eq_dec : EqDecision Call.
Proof. solve_decision. Defined.

(** The two private fields of the class, and the calls made so far. *)
Record RoomObject : Type := {
  _context : option IRoomContext;
  _isDestroyed : bool;
  calls : list Call
}.

Definition set_context (c : option IRoomContext) (o : RoomObject) : RoomObject :=
  {| _context := c; _isDestroyed := _isDestroyed o; calls := calls o |}.
Definition set_isDestroyed (b : bool) (o : RoomObject) : RoomObject :=
  {| _context := _context o; _isDestroyed := b; calls := calls o |}.
Definition call (c : Call) (o : RoomObject) : RoomObject :=
  {| _context := _context o; _isDestroyed := _isDestroyed o; calls := calls o ++ [c] |}.

(** A freshly constructed object. *)
Definition new : RoomObject :=
  {| _context := None; _isDestroyed := false; calls := [] |}.

Definition mounted (o : RoomObject) : bool :=
  match _context o with Some _ => true | None => false end.

Definition getRoomContext : M RoomObject IRoomContext :=
  let* c := gets _context in
  match c with
  | None => throw "Invalid context"
  | Some ctx => ret ctx
  end.

(** The abstract hooks, observed through the call log. *)
Definition registered : M RoomObject unit := modify (call CallRegistered).
Definition destroyed : M RoomObject unit := modify (call CallDestroyed).

Definition setParent (room : IRoomContext) : M RoomObject unit :=
  let* c := gets _context in
  match c with
  | Some _ => throw "RoomObject already provided with a context."
  | None =>
      let* _ := modify (set_isDestroyed false) in
      let* _ := modify (set_context (Some room)) in
      registered
  end.

(** [container.removeRoomObject(this)], see [IRoomObjectContainer]:
    [destroy_this] is the object's own [destroy], which the container may
    call back. *)
Definition removeRoomObject (c : IRoomObjectContainer)
    (destroy_this : M RoomObject unit) : M RoomObject unit :=
  let* _ := modify (call (CallRemoveRoomObject c)) in
  repeatM (reentrantDestroys c) destroy_this.

(** [destroy]. The recursion through the container is bounded by [fuel]. *)
Fixpoint destroy (fuel : nat) : M RoomObject unit :=
  match fuel with
  | O => exhausted
  | S fuel' =>
      let* d := gets _isDestroyed in
      if d then ret tt
      else
        (* Important: set isDestroyed to true so this doesn't infinite loop. *)
        let* _ := modify (set_isDestroyed true) in
        let* ctx := getRoomContext in
        let* _ := removeRoomObject (roomObjectContainer ctx) (destroy fuel') in
        let* _ := modify (set_context None) in
        destroyed
  end.


End RoomObject.

(* ===================================================================== *)
(** * JavaScript numbers *)
(* ===================================================================== *)

(** The [number]s of Room.ts (coordinates, heights, offsets) are IEEE doubles.
    The room only adds, subtracts, multiplies and divides them, and no
    property below depends on an arithmetic law, so the embedding is generic
    in the carrier and its operations: every statement holds for the doubles
    themselves. [of_Z] reads an integer literal or a loop index. *)
Class JsNumber : Type := {
  num : Type;
  nadd : num -> num -> num;
  nsub : num -> num -> num;
  nmul : num -> num -> num;
  ndiv : num -> num -> num;
  nneg : num -> num;
  of_Z : Z -> num
}.

Declare Scope num_scope.
Delimit Scope num_scope with num.
Infix "⊕" := nadd (at level 50, left associativity) : num_scope.
Infix "⊖" := nsub (at level 50, left associativity) : num_scope.
Infix "⊗" := nmul (at level 40, left associativity) : num_scope.
Infix "⊘" := ndiv (at level 40, left associativity) : num_scope.

(** Exact rational arithmetic, used to run the definitions on examples; it
    agrees with the doubles wherever no rounding occurs. *)
Definition Q_JsNumber : JsNumber :=
  {| num := Q; nadd := Qplus; nsub := Qminus; nmul := Qmult; ndiv := Qdiv;
     nneg := Qopp; of_Z := inject_Z |}.

(* ===================================================================== *)
(** * Room.ts *)
(* ===================================================================== *)

Module Room.
Section WithNumbers.
Context {JN : JsNumber}.
Local Open Scope num_scope.

(** [{ x, y }] *)
Record XY : Type := { x_ : num; y_ : num }.

(** [{ minX, minY, maxX, maxY }] *)
Record Bounds : Type := { minX : num; minY : num; maxX : num; maxY : num }.

(** [{ roomX, roomY, roomZ }] *)
Record RoomPosition : Type := { roomX : num; roomY : num; roomZ : num }.

(** Modelled from the spec: [ParsedTileType] is declared in
    util/parseTileMap, which is not part of the sources. The spec gives a
    "tagged variant over {tile, wall, stairs, door}, carrying: elevation
    z/height, and for walls a kind (rowWall | colWall | outerCorner |
    innerCorner) plus hideBorder flag"; Room.ts reads [type], [z], [height],
    [kind] and [hideBorder]. [PHidden] stands for every cell that is none of
    the four: Room.ts emits nothing for it. *)
Inductive WallKind : Type := rowWall | colWall | outerCorner | innerCorner.

Inductive ParsedTileType : Type :=
| PTile (z : num)
| PDoor (z : num)
| PWall (kind : WallKind) (height : num) (hideBorder : option bool)
| PStairs (kind : Z) (z : num)
| PHidden.

(** The result of [parseTileMap]. *)
Record ParsedTileMap : Type := {
  largestDiff : num;
  tilemap : list (list ParsedTileType);
  wallOffsets : XY;
  positionOffsets : XY;
  maskOffsets : XY
}.

(** A [PIXI.Texture], known by its identity only. *)
Definition Texture : Type := nat.

(** [Promise<PIXI.Texture> | PIXI.Texture] *)
Inductive TextureSource : Type :=
| TextureValue (t : Texture)
| TexturePromise (p : nat).

Inductive WallDirection : Type := left | right | corner.

(** Modelled from the spec: the classes [Wall], [Tile], [Stair] and
    [TileCursor] are not part of the sources. Each is the record of the
    options its constructor receives in Room.ts; a property that Room.ts
    assigns ([wallHeight], [wallDepth], [tileHeight], [texture], [color]) is
    that field, set "directly" as the spec says of in-place propagation. *)
Record Wall : Type := {
  wall_roomX : num;
  wall_roomY : num;
  wall_direction : WallDirection;
  wall_tileHeight : num;
  wall_wallHeight : num;
  wall_roomZ : num;
  wall_color : option string;
  wall_texture : option Texture;
  wall_wallDepth : num;
  wall_hideBorder : option bool;
  wall_doorHeight : option num;
  wall_side : option bool
}.

Record Tile : Type := {
  tile_roomX : num;
  tile_roomY : num;
  tile_roomZ : num;
  tile_edge : bool;
  tile_tileHeight : num;
  tile_color : option string;
  tile_door : option bool;
  tile_texture : option Texture
}.

Record Stair : Type := {
  stair_roomX : num;
  stair_roomY : num;
  stair_roomZ : num;
  stair_tileHeight : num;
  stair_color : option string;
  stair_direction : Z;
  stair_texture : option Texture
}.

(** [Tile | Stair] *)
Inductive FloorObject : Type :=
| FloorTile (t : Tile)
| FloorStair (s : Stair).

Record TileCursor : Type := {
  cursor_position : RoomPosition;
  cursor_door : bool
}.

Definition wall_set_wallDepth (v : num) (w : Wall) : Wall :=
  {| wall_roomX := wall_roomX w; wall_roomY := wall_roomY w;
     wall_direction := wall_direction w; wall_tileHeight := wall_tileHeight w;
     wall_wallHeight := wall_wallHeight w; wall_roomZ := wall_roomZ w;
     wall_color := wall_color w; wall_texture := wall_texture w;
     wall_wallDepth := v; wall_hideBorder := wall_hideBorder w;
     wall_doorHeight := wall_doorHeight w; wall_side := wall_side w |}.

Definition wall_set_wallHeight (v : num) (w : Wall) : Wall :=
  {| wall_roomX := wall_roomX w; wall_roomY := wall_roomY w;
     wall_direction := wall_direction w; wall_tileHeight := wall_tileHeight w;
     wall_wallHeight := v; wall_roomZ := wall_roomZ w;
     wall_color := wall_color w; wall_texture := wall_texture w;
     wall_wallDepth := wall_wallDepth w; wall_hideBorder := wall_hideBorder w;
     wall_doorHeight := wall_doorHeight w; wall_side := wall_side w |}.

Definition wall_set_tileHeight (v : num) (w : Wall) : Wall :=
  {| wall_roomX := wall_roomX w; wall_roomY := wall_roomY w;
     wall_direction := wall_direction w; wall_tileHeight := v;
     wall_wallHeight := wall_wallHeight w; wall_roomZ := wall_roomZ w;
     wall_color := wall_color w; wall_texture := wall_texture w;
     wall_wallDepth := wall_wallDepth w; wall_hideBorder := wall_hideBorder w;
     wall_doorHeight := wall_doorHeight w; wall_side := wall_side w |}.

Definition wall_set_texture (v : option Texture) (w : Wall) : Wall :=
  {| wall_roomX := wall_roomX w; wall_roomY := wall_roomY w;
     wall_direction := wall_direction w; wall_tileHeight := wall_tileHeight w;
     wall_wallHeight := wall_wallHeight w; wall_roomZ := wall_roomZ w;
     wall_color := wall_color w; wall_texture := v;
     wall_wallDepth := wall_wallDepth w; wall_hideBorder := wall_hideBorder w;
     wall_doorHeight := wall_doorHeight w; wall_side := wall_side w |}.

Definition wall_set_color (v : option string) (w : Wall) : Wall :=
  {| wall_roomX := wall_roomX w; wall_roomY := wall_roomY w;
     wall_direction := wall_direction w; wall_tileHeight := wall_tileHeight w;
     wall_wallHeight := wall_wallHeight w; wall_roomZ := wall_roomZ w;
     wall_color := v; wall_texture := wall_texture w;
     wall_wallDepth := wall_wallDepth w; wall_hideBorder := wall_hideBorder w;
     wall_doorHeight := wall_doorHeight w; wall_side := wall_side w |}.

Definition floor_set_tileHeight (v : num) (f : FloorObject) : FloorObject :=
  match f with
  | FloorTile t =>
      FloorTile {| tile_roomX := tile_roomX t; tile_roomY := tile_roomY t;
                   tile_roomZ := tile_roomZ t; tile_edge := tile_edge t;
                   tile_tileHeight := v; tile_color := tile_color t;
                   tile_door := tile_door t; tile_texture := tile_texture t |}
  | FloorStair s =>
      FloorStair {| stair_roomX := stair_roomX s; stair_roomY := stair_roomY s;
                    stair_roomZ := stair_roomZ s; stair_tileHeight := v;
                    stair_color := stair_color s;
                    stair_direction := stair_direction s;
                    stair_texture := stair_texture s |}
  end.

Definition floor_set_texture (v : option Texture) (f : FloorObject) : FloorObject :=
  match f with
  | FloorTile t =>
      FloorTile {| tile_roomX := tile_roomX t; tile_roomY := tile_roomY t;
                   tile_roomZ := tile_roomZ t; tile_edge := tile_edge t;
                   tile_tileHeight := tile_tileHeight t; tile_color := tile_color t;
                   tile_door := tile_door t; tile_texture := v |}
  | FloorStair s =>
      FloorStair {| stair_roomX := stair_roomX s; stair_roomY := stair_roomY s;
                    stair_roomZ := stair_roomZ s;
                    stair_tileHeight := stair_tileHeight s;
                    stair_color := stair_color s;
                    stair_direction := stair_direction s;
                    stair_texture := v |}
  end.

Definition floor_set_color (v : option string) (f : FloorObject) : FloorObject :=
  match f with
  | FloorTile t =>
      FloorTile {| tile_roomX := tile_roomX t; tile_roomY := tile_roomY t;
                   tile_roomZ := tile_roomZ t; tile_edge := tile_edge t;
                   tile_tileHeight := tile_tileHeight t; tile_color := v;
                   tile_door := tile_door t; tile_texture := tile_texture t |}
  | FloorStair s =>
      FloorStair {| stair_roomX := stair_roomX s; stair_roomY := stair_roomY s;
                    stair_roomZ := stair_roomZ s;
                    stair_tileHeight := stair_tileHeight s;
                    stair_color := v;
                    stair_direction := stair_direction s;
                    stair_texture := stair_texture s |}
  end.

(** A reference to a room object: its class and its address. *)
Inductive ObjRef : Type :=
| RefWall (a : nat)
| RefFloor (a : nat)
| RefCursor (a : nat).

(** Calls that leave the class: the parser and bounds helpers, the
    visualization, and the lifecycle methods of the room objects. *)
Inductive Call : Type :=
| CallParseTileMapString
| CallParseTileMap
| CallGetTileMapBounds
| CallNewRoomVisualization
| CallAddChildVisualization
| CallUpdateRoom
| CallDisableCache
| CallEnableCache
| CallSetParent (o : ObjRef)
| CallDestroy (o : ObjRef)
| CallPromiseThen.

Global Instance ObjRef_eq_dec : EqDecision ObjRef.
Proof. solve_decision. Defined.

Global Instance Call_eq_dec : EqDecision Call.
Proof. solve_decision. Defined.

(** ** The fields of the class

    The private fields are grouped by who writes them: [Geometry] is written
    by the constructor only, [Style] by the property setters, [Scene] by the
    tile rebuild. [Scene] also holds the heap of the room objects (so that
    the lists [_walls], [_floor], [_cursors], [roomObjects] and [_doorWall]
    can share an object) and the log of outgoing calls. *)

Record Geometry : Type := {
  _wallOffsets : XY;
  _positionOffsets : XY;
  _maskOffsets : XY;
  parsedTileMap : list (list ParsedTileType);
  _tileMapBounds : Bounds;
  _largestDiff : num
}.

Record Style : Type := {
  _hideWalls : bool;
  _hideFloor : bool;
  _wallDepth : num;
  _wallHeight : num;
  _tileHeight : num;
  _wallColor : option string;
  _floorColor : option string;
  _wallTexture : option TextureSource;
  _floorTexture : option TextureSource;
  _currentWallTexture : option Texture;
  _currentFloorTexture : option Texture;
  _onTileClick : option nat
}.

Record Scene : Type := {
  roomObjects : list ObjRef;
  _walls : list nat;
  _floor : list nat;
  _cursors : list nat;
  _doorWall : option nat;
  wallHeap : gmap nat Wall;
  floorHeap : gmap nat FloorObject;
  cursorHeap : gmap nat TileCursor;
  nextAddress : nat;
  calls : list Call
}.

Record Room : Type := {
  geometry : Geometry;
  style : Style;
  scene : Scene
}.

Definition tileColor : string := "#989865".

Definition with_style (f : Style -> Style) (r : Room) : Room :=
  {| geometry := geometry r; style := f (style r); scene := scene r |}.

Definition with_scene (f : Scene -> Scene) (r : Room) : Room :=
  {| geometry := geometry r; style := style r; scene := f (scene r) |}.

Definition style_hideWalls (v : bool) (s : Style) : Style :=
  {| _hideWalls := v; _hideFloor := _hideFloor s; _wallDepth := _wallDepth s;
     _wallHeight := _wallHeight s; _tileHeight := _tileHeight s;
     _wallColor := _wallColor s; _floorColor := _floorColor s;
     _wallTexture := _wallTexture s; _floorTexture := _floorTexture s;
     _currentWallTexture := _currentWallTexture s;
     _currentFloorTexture := _currentFloorTexture s;
     _onTileClick := _onTileClick s |}.

Definition style_hideFloor (v : bool) (s : Style) : Style :=
  {| _hideWalls := _hideWalls s; _hideFloor := v; _wallDepth := _wallDepth s;
     _wallHeight := _wallHeight s; _tileHeight := _tileHeight s;
     _wallColor := _wallColor s; _floorColor := _floorColor s;
     _wallTexture := _wallTexture s; _floorTexture := _floorTexture s;
     _currentWallTexture := _currentWallTexture s;
     _currentFloorTexture := _currentFloorTexture s;
     _onTileClick := _onTileClick s |}.

Definition style_wallDepth (v : num) (s : Style) : Style :=
  {| _hideWalls := _hideWalls s; _hideFloor := _hideFloor s; _wallDepth := v;
     _wallHeight := _wallHeight s; _tileHeight := _tileHeight s;
     _wallColor := _wallColor s; _floorColor := _floorColor s;
     _wallTexture := _wallTexture s; _floorTexture := _floorTexture s;
     _currentWallTexture := _currentWallTexture s;
     _currentFloorTexture := _currentFloorTexture s;
     _onTileClick := _onTileClick s |}.

Definition style_wallHeight (v : num) (s : Style) : Style :=
  {| _hideWalls := _hideWalls s; _hideFloor := _hideFloor s;
     _wallDepth := _wallDepth s;
     _wallHeight := v; _tileHeight := _tileHeight s;
     _wallColor := _wallColor s; _floorColor := _floorColor s;
     _wallTexture := _wallTexture s; _floorTexture := _floorTexture s;
     _currentWallTexture := _currentWallTexture s;
     _currentFloorTexture := _currentFloorTexture s;
     _onTileClick := _onTileClick s |}.

Definition style_tileHeight (v : num) (s : Style) : Style :=
  {| _hideWalls := _hideWalls s; _hideFloor := _hideFloor s;
     _wallDepth := _wallDepth s;
     _wallHeight := _wallHeight s; _tileHeight := v;
     _wallColor := _wallColor s; _floorColor := _floorColor s;
     _wallTexture := _wallTexture s; _floorTexture := _floorTexture s;
     _currentWallTexture := _currentWallTexture s;
     _currentFloorTexture := _currentFloorTexture s;
     _onTileClick := _onTileClick s |}.

Definition style_wallColor (v : option string) (s : Style) : Style :=
  {| _hideWalls := _hideWalls s; _hideFloor := _hideFloor s;
     _wallDepth := _wallDepth s;
     _wallHeight := _wallHeight s; _tileHeight := _tileHeight s;
     _wallColor := v; _floorColor := _floorColor s;
     _wallTexture := _wallTexture s; _floorTexture := _floorTexture s;
     _currentWallTexture := _currentWallTexture s;
     _currentFloorTexture := _currentFloorTexture s;
     _onTileClick := _onTileClick s |}.

Definition style_floorColor (v : option string) (s : Style) : Style :=
  {| _hideWalls := _hideWalls s; _hideFloor := _hideFloor s;
     _wallDepth := _wallDepth s;
     _wallHeight := _wallHeight s; _tileHeight := _tileHeight s;
     _wallColor := _wallColor s; _floorColor := v;
     _wallTexture := _wallTexture s; _floorTexture := _floorTexture s;
     _currentWallTexture := _currentWallTexture s;
     _currentFloorTexture := _currentFloorTexture s;
     _onTileClick := _onTileClick s |}.

Definition style_wallTexture (v : option TextureSource) (s : Style) : Style :=
  {| _hideWalls := _hideWalls s; _hideFloor := _hideFloor s;
     _wallDepth := _wallDepth s;
     _wallHeight := _wallHeight s; _tileHeight := _tileHeight s;
     _wallColor := _wallColor s; _floorColor := _floorColor s;
     _wallTexture := v; _floorTexture := _floorTexture s;
     _currentWallTexture := _currentWallTexture s;
     _currentFloorTexture := _currentFloorTexture s;
     _onTileClick := _onTileClick s |}.

Definition style_floorTexture (v : option TextureSource) (s : Style) : Style :=
  {| _hideWalls := _hideWalls s; _hideFloor := _hideFloor s;
     _wallDepth := _wallDepth s;
     _wallHeight := _wallHeight s; _tileHeight := _tileHeight s;
     _wallColor := _wallColor s; _floorColor := _floorColor s;
     _wallTexture := _wallTexture s; _floorTexture := v;
     _currentWallTexture := _currentWallTexture s;
     _currentFloorTexture := _currentFloorTexture s;
     _onTileClick := _onTileClick s |}.

Definition style_currentWallTexture (v : option Texture) (s : Style) : Style :=
  {| _hideWalls := _hideWalls s; _hideFloor := _hideFloor s;
     _wallDepth := _wallDepth s;
     _wallHeight := _wallHeight s; _tileHeight := _tileHeight s;
     _wallColor := _wallColor s; _floorColor := _floorColor s;
     _wallTexture := _wallTexture s; _floorTexture := _floorTexture s;
     _currentWallTexture := v;
     _currentFloorTexture := _currentFloorTexture s;
     _onTileClick := _onTileClick s |}.

Definition style_currentFloorTexture (v : option Texture) (s : Style) : Style :=
  {| _hideWalls := _hideWalls s; _hideFloor := _hideFloor s;
     _wallDepth := _wallDepth s;
     _wallHeight := _wallHeight s; _tileHeight := _tileHeight s;
     _wallColor := _wallColor s; _floorColor := _floorColor s;
     _wallTexture := _wallTexture s; _floorTexture := _floorTexture s;
     _currentWallTexture := _currentWallTexture s;
     _currentFloorTexture := v;
     _onTileClick := _onTileClick s |}.

Definition style_onTileClick (v : option nat) (s : Style) : Style :=
  {| _hideWalls := _hideWalls s; _hideFloor := _hideFloor s;
     _wallDepth := _wallDepth s;
     _wallHeight := _wallHeight s; _tileHeight := _tileHeight s;
     _wallColor := _wallColor s; _floorColor := _floorColor s;
     _wallTexture := _wallTexture s; _floorTexture := _floorTexture s;
     _currentWallTexture := _currentWallTexture s;
     _currentFloorTexture := _currentFloorTexture s;
     _onTileClick := v |}.

Definition scene_roomObjects (v : list ObjRef) (s : Scene) : Scene :=
  {| roomObjects := v; _walls := _walls s; _floor := _floor s;
     _cursors := _cursors s; _doorWall := _doorWall s; wallHeap := wallHeap s;
     floorHeap := floorHeap s; cursorHeap := cursorHeap s;
     nextAddress := nextAddress s; calls := calls s |}.

Definition scene_walls (v : list nat) (s : Scene) : Scene :=
  {| roomObjects := roomObjects s; _walls := v; _floor := _floor s;
     _cursors := _cursors s; _doorWall := _doorWall s; wallHeap := wallHeap s;
     floorHeap := floorHeap s; cursorHeap := cursorHeap s;
     nextAddress := nextAddress s; calls := calls s |}.

Definition scene_floor (v : list nat) (s : Scene) : Scene :=
  {| roomObjects := roomObjects s; _walls := _walls s; _floor := v;
     _cursors := _cursors s; _doorWall := _doorWall s; wallHeap := wallHeap s;
     floorHeap := floorHeap s; cursorHeap := cursorHeap s;
     nextAddress := nextAddress s; calls := calls s |}.

Definition scene_cursors (v : list nat) (s : Scene) : Scene :=
  {| roomObjects := roomObjects s; _walls := _walls s; _floor := _floor s;
     _cursors := v; _doorWall := _doorWall s; wallHeap := wallHeap s;
     floorHeap := floorHeap s; cursorHeap := cursorHeap s;
     nextAddress := nextAddress s; calls := calls s |}.

Definition scene_doorWall (v : option nat) (s : Scene) : Scene :=
  {| roomObjects := roomObjects s; _walls := _walls s; _floor := _floor s;
     _cursors := _cursors s; _doorWall := v; wallHeap := wallHeap s;
     floorHeap := floorHeap s; cursorHeap := cursorHeap s;
     nextAddress := nextAddress s; calls := calls s |}.

Definition scene_wallHeap (v : gmap nat Wall) (s : Scene) : Scene :=
  {| roomObjects := roomObjects s; _walls := _walls s; _floor := _floor s;
     _cursors := _cursors s; _doorWall := _doorWall s; wallHeap := v;
     floorHeap := floorHeap s; cursorHeap := cursorHeap s;
     nextAddress := nextAddress s; calls := calls s |}.

Definition scene_floorHeap (v : gmap nat FloorObject) (s : Scene) : Scene :=
  {| roomObjects := roomObjects s; _walls := _walls s; _floor := _floor s;
     _cursors := _cursors s; _doorWall := _doorWall s; wallHeap := wallHeap s;
     floorHeap := v; cursorHeap := cursorHeap s;
     nextAddress := nextAddress s; calls := calls s |}.

Definition scene_cursorHeap (v : gmap nat TileCursor) (s : Scene) : Scene :=
  {| roomObjects := roomObjects s; _walls := _walls s; _floor := _floor s;
     _cursors := _cursors s; _doorWall := _doorWall s; wallHeap := wallHeap s;
     floorHeap := floorHeap s; cursorHeap := v;
     nextAddress := nextAddress s; calls := calls s |}.

Definition scene_nextAddress (v : nat) (s : Scene) : Scene :=
  {| roomObjects := roomObjects s; _walls := _walls s; _floor := _floor s;
     _cursors := _cursors s; _doorWall := _doorWall s; wallHeap := wallHeap s;
     floorHeap := floorHeap s; cursorHeap := cursorHeap s;
     nextAddress := v; calls := calls s |}.

Definition scene_calls (v : list Call) (s : Scene) : Scene :=
  {| roomObjects := roomObjects s; _walls := _walls s; _floor := _floor s;
     _cursors := _cursors s; _doorWall := _doorWall s; wallHeap := wallHeap s;
     floorHeap := floorHeap s; cursorHeap := cursorHeap s;
     nextAddress := nextAddress s; calls := v |}.

(** An outgoing call, appended to the log. *)
Definition call (c : Call) (r : Room) : Room :=
  with_scene (fun s => scene_calls (calls s ++ [c]) s) r.

(** ** Getters

    [getTileAtPosition] and the landscape container, which index the tile map
    and read the mask offsets but write nothing, are left out. *)

Definition hideWalls (r : Room) : bool := _hideWalls (style r).
Definition hideFloor (r : Room) : bool := _hideFloor (style r).
Definition wallHeight (r : Room) : num := _wallHeight (style r).
Definition tileHeight (r : Room) : num := _tileHeight (style r).
Definition wallDepth (r : Room) : num := _wallDepth (style r).
Definition wallColor (r : Room) : option string := _wallColor (style r).
Definition floorColor (r : Room) : option string := _floorColor (style r).
Definition wallTexture (r : Room) : option TextureSource := _wallTexture (style r).
Definition floorTexture (r : Room) : option TextureSource := _floorTexture (style r).

Definition wallHeightWithZ (r : Room) : num :=
  wallHeight r ⊕ _largestDiff (geometry r) ⊗ of_Z 32.

Definition roomBounds (r : Room) : Bounds :=
  let b := _tileMapBounds (geometry r) in
  {| minX := minX b ⊖ wallDepth r;
     maxX := maxX b ⊕ wallDepth r;
     minY := minY b ⊖ wallHeight r ⊖ wallDepth r;
     maxY := maxY b ⊕ tileHeight r |}.

Definition roomHeight (r : Room) : num := maxY (roomBounds r) ⊖ minY (roomBounds r).
Definition roomWidth (r : Room) : num := maxX (roomBounds r) ⊖ minX (roomBounds r).

(** ** In-place propagation *)

(** [this._walls.forEach((wall) => ...)]: the callback assigns properties of
    the wall object at each address of the list, in list order. *)
Definition forEachWall (f : Wall -> Wall) (r : Room) : Room :=
  with_scene
    (fun s => scene_wallHeap
                (fold_left (fun h a => alter f a h) (_walls s) (wallHeap s)) s)
    r.

Definition forEachFloor (f : FloorObject -> FloorObject) (r : Room) : Room :=
  with_scene
    (fun s => scene_floorHeap
                (fold_left (fun h a => alter f a h) (_floor s) (floorHeap s)) s)
    r.

Definition _updateWallDepth (r : Room) : Room :=
  let r := call CallDisableCache r in
  let r := forEachWall (wall_set_wallDepth (wallDepth r)) r in
  call CallEnableCache r.

Definition _updateWallHeight (r : Room) : Room :=
  let r := call CallUpdateRoom r in
  let r := call CallDisableCache r in
  let r := forEachWall (wall_set_wallHeight (wallHeightWithZ r)) r in
  call CallEnableCache r.

Definition _updateTileHeight (r : Room) : Room :=
  let r := call CallDisableCache r in
  let r := forEachFloor (floor_set_tileHeight (tileHeight r)) r in
  let r := forEachWall (wall_set_tileHeight (tileHeight r)) r in
  call CallEnableCache r.

Definition updateTextures (r : Room) : Room :=
  let r := call CallDisableCache r in
  let r := forEachWall
             (fun w => wall_set_color (_wallColor (style r))
                         (wall_set_texture (_currentWallTexture (style r)) w)) r in
  let r := forEachFloor
             (fun f => floor_set_color (_floorColor (style r))
                         (floor_set_texture (_currentFloorTexture (style r)) f)) r in
  call CallEnableCache r.

(** [Promise.resolve(this.wallTexture).then(...)]: the continuation is
    handed to the promise; it runs later, as [wallTextureLoaded]. *)
Definition loadWallTextures (r : Room) : Room := call CallPromiseThen r.
Definition loadFloorTextures (r : Room) : Room := call CallPromiseThen r.

Definition wallTextureLoaded (texture : option Texture) (r : Room) : Room :=
  updateTextures (with_style (style_currentWallTexture texture) r).

Definition floorTextureLoaded (texture : option Texture) (r : Room) : Room :=
  updateTextures (with_style (style_currentFloorTexture texture) r).

(** ** Projection *)

Definition _getObjectPositionWithOffset (r : Room) (roomX roomY : num) : XY :=
  {| x_ := roomX ⊕ x_ (_positionOffsets (geometry r));
     y_ := roomY ⊕ y_ (_positionOffsets (geometry r)) |}.

Definition _getTilePositionWithOffset (r : Room) (roomX roomY : num) : XY :=
  {| x_ := roomX ⊕ x_ (_wallOffsets (geometry r));
     y_ := roomY ⊕ y_ (_wallOffsets (geometry r)) |}.

(** ["plane" | "object" | "none"] *)
Inductive PlacementKind : Type := plane | object | none.

Definition getPosition (r : Room) (roomX roomY roomZ : num) (type : PlacementKind) : XY :=
  let getBasePosition :=
    match type with
    | plane => _getTilePositionWithOffset r roomX roomY
    | object => _getObjectPositionWithOffset r roomX roomY
    | none => {| x_ := roomX; y_ := roomY |}
    end in
  let x := x_ getBasePosition in
  let y := y_ getBasePosition in
  let base := of_Z 32 in
  let xPos := nneg (minX (_tileMapBounds (geometry r))) ⊕ x ⊗ base ⊖ y ⊗ base in
  let yPos := nneg (minY (_tileMapBounds (geometry r)))
                ⊕ x ⊗ (base ⊘ of_Z 2) ⊕ y ⊗ (base ⊘ of_Z 2) in
  {| x_ := xPos; y_ := yPos ⊖ roomZ ⊗ of_Z 32 |}.

(** ** Registration of room objects *)

(** [new Wall({...})] and the like: the object is allocated at a fresh
    address, whether or not it is registered afterwards. *)
Definition newWall (w : Wall) (r : Room) : nat * Room :=
  let a := nextAddress (scene r) in
  (a, with_scene (fun s => scene_nextAddress (S a)
                             (scene_wallHeap (<[a := w]> (wallHeap s)) s)) r).

Definition newFloor (f : FloorObject) (r : Room) : nat * Room :=
  let a := nextAddress (scene r) in
  (a, with_scene (fun s => scene_nextAddress (S a)
                             (scene_floorHeap (<[a := f]> (floorHeap s)) s)) r).

Definition newTileCursor (c : TileCursor) (r : Room) : nat * Room :=
  let a := nextAddress (scene r) in
  (a, with_scene (fun s => scene_nextAddress (S a)
                             (scene_cursorHeap (<[a := c]> (cursorHeap s)) s)) r).

Definition addRoomObject (o : ObjRef) (r : Room) : Room :=
  let r := call (CallSetParent o) r in
  with_scene (fun s => scene_roomObjects (roomObjects s ++ [o]) s) r.

Definition registerWall (wall : nat) (r : Room) : Room :=
  if hideWalls r || hideFloor r then r
  else
    let r := with_scene (fun s => scene_walls (_walls s ++ [wall]) s) r in
    addRoomObject (RefWall wall) r.

Definition registerTile (tile : nat) (r : Room) : Room :=
  if hideFloor r then r
  else
    let r := with_scene (fun s => scene_floor (_floor s ++ [tile]) s) r in
    addRoomObject (RefFloor tile) r.

Definition registerTileCursor (position : RoomPosition) (door : bool) (r : Room) : Room :=
  let '(cursor, r) := newTileCursor {| cursor_position := position; cursor_door := door |} r in
  let r := with_scene (fun s => scene_cursors (_cursors s ++ [cursor]) s) r in
  addRoomObject (RefCursor cursor) r.

Definition resetTiles (r : Room) : Room :=
  let targets := (RefFloor <$> _floor (scene r)) ++ (RefWall <$> _walls (scene r))
                   ++ (RefCursor <$> _cursors (scene r)) in
  let r := fold_left (fun r value => call (CallDestroy value) r) targets r in
  let r := with_scene (scene_floor []) r in
  let r := with_scene (scene_walls []) r in
  let r := with_scene (scene_cursors []) r in
  with_scene (scene_doorWall None) r.

Definition getWallDirection (tile : ParsedTileType) : option WallDirection :=
  match tile with
  | PWall rowWall _ _ => Some left
  | PWall colWall _ _ => Some right
  | PWall outerCorner _ _ => Some corner
  | _ => None
  end.

Definition default {A : Type} (o : option A) (d : A) : A :=
  match o with Some a => a | None => d end.

(** The body of the two nested loops of [updateTiles], for the cell
    [tiles[y][x]]. *)
Definition updateTiles_cell (x y : nat) (tile : ParsedTileType) (r : Room) : Room :=
  let rx := of_Z (Z.of_nat x) ⊖ x_ (_wallOffsets (geometry r)) in
  let ry := of_Z (Z.of_nat y) ⊖ y_ (_wallOffsets (geometry r)) in
  let r :=
    match tile with
    | PDoor z =>
        let '(t, r) :=
          newFloor (FloorTile
            {| tile_roomX := rx; tile_roomY := ry; tile_roomZ := z;
               tile_edge := true; tile_tileHeight := tileHeight r;
               tile_color := Some (default (floorColor r) tileColor);
               tile_door := Some true; tile_texture := None |}) r in
        let r := registerTile t r in
        let '(wall, r) :=
          newWall
            {| wall_roomX := rx; wall_roomY := ry; wall_direction := left;
               wall_tileHeight := tileHeight r;
               wall_wallHeight := wallHeightWithZ r;
               wall_roomZ := z;
               wall_color := Some (default (wallColor r) "#ffffff");
               wall_texture := _currentWallTexture (style r);
               wall_wallDepth := wallDepth r;
               wall_hideBorder := Some true;
               wall_doorHeight := Some (of_Z 30);
               wall_side := None |} r in
        let r := registerWall wall r in
        let r := with_scene (scene_doorWall (Some wall)) r in
        registerTileCursor {| roomX := rx; roomY := ry; roomZ := z |} true r
    | _ => r
    end in
  let r :=
    match tile with
    | PTile z =>
        let '(t, r) :=
          newFloor (FloorTile
            {| tile_roomX := rx; tile_roomY := ry; tile_roomZ := z;
               tile_edge := true; tile_tileHeight := tileHeight r;
               tile_color := Some (default (floorColor r) tileColor);
               tile_door := None; tile_texture := None |}) r in
        let r := registerTile t r in
        registerTileCursor {| roomX := rx; roomY := ry; roomZ := z |} false r
    | _ => r
    end in
  let r :=
    match getWallDirection tile, tile with
    | Some direction, PWall _ height hideBorder =>
        let '(wall, r) :=
          newWall
            {| wall_roomX := rx; wall_roomY := ry; wall_direction := direction;
               wall_tileHeight := tileHeight r;
               wall_wallHeight := wallHeightWithZ r;
               wall_roomZ := height;
               wall_color := Some (default (wallColor r) "#ffffff");
               wall_texture := _currentWallTexture (style r);
               wall_wallDepth := wallDepth r;
               wall_hideBorder := hideBorder;
               wall_doorHeight := None;
               wall_side := None |} r in
        registerWall wall r
    | _, _ => r
    end in
  let r :=
    match tile with
    | PWall innerCorner height _ =>
        let '(wall, r) :=
          newWall
            {| wall_roomX := rx; wall_roomY := ry; wall_direction := right;
               wall_tileHeight := tileHeight r;
               wall_wallHeight := wallHeightWithZ r;
               wall_roomZ := height;
               wall_color := Some "#ffffff";
               wall_texture := None;
               wall_wallDepth := wallDepth r;
               wall_hideBorder := None;
               wall_doorHeight := None;
               wall_side := Some false |} r in
        let r := registerWall wall r in
        let '(wall, r) :=
          newWall
            {| wall_roomX := rx; wall_roomY := ry; wall_direction := left;
               wall_tileHeight := tileHeight r;
               wall_wallHeight := wallHeightWithZ r;
               wall_roomZ := height;
               wall_color := Some "#ffffff";
               wall_texture := None;
               wall_wallDepth := wallDepth r;
               wall_hideBorder := None;
               wall_doorHeight := None;
               wall_side := Some false |} r in
        registerWall wall r
    | _ => r
    end in
  match tile with
  | PStairs kind z =>
      let '(t, r) :=
        newFloor (FloorStair
          {| stair_roomX := rx; stair_roomY := ry; stair_roomZ := z;
             stair_tileHeight := tileHeight r;
             stair_color := Some tileColor;
             stair_direction := kind; stair_texture := None |}) r in
      let r := registerTile t r in
      let r := registerTileCursor {| roomX := rx; roomY := ry; roomZ := z |} false r in
      registerTileCursor {| roomX := rx; roomY := ry; roomZ := z ⊕ of_Z 1 |} false r
  | _ => r
  end.

(** [for (let x = 0; x < tiles[y].length; x++)], from column [x] on. *)
Fixpoint updateTiles_row (x y : nat) (row : list ParsedTileType) (r : Room) : Room :=
  match row with
  | [] => r
  | tile :: row' => updateTiles_row (S x) y row' (updateTiles_cell x y tile r)
  end.

(** [for (let y = 0; y < tiles.length; y++)], from row [y] on. *)
Fixpoint updateTiles_rows (y : nat) (tiles : list (list ParsedTileType)) (r : Room) : Room :=
  match tiles with
  | [] => r
  | row :: tiles' => updateTiles_rows (S y) tiles' (updateTiles_row 0 y row r)
  end.

Definition updateTiles (r : Room) : Room :=
  let r := resetTiles r in
  let tiles := parsedTileMap (geometry r) in
  updateTiles_rows 0 tiles r.

(** ** Property setters *)

Definition set_hideWalls (value : bool) (r : Room) : Room :=
  updateTiles (with_style (style_hideWalls value) r).

Definition set_hideFloor (value : bool) (r : Room) : Room :=
  updateTiles (with_style (style_hideFloor value) r).

Definition set_wallHeight (value : num) (r : Room) : Room :=
  _updateWallHeight (with_style (style_wallHeight value) r).

Definition set_tileHeight (value : num) (r : Room) : Room :=
  _updateTileHeight (with_style (style_tileHeight value) r).

Definition set_wallDepth (value : num) (r : Room) : Room :=
  _updateWallDepth (with_style (style_wallDepth value) r).

Definition set_onTileClick (value : option nat) (r : Room) : Room :=
  with_style (style_onTileClick value) r.

Definition set_wallTexture (value : option TextureSource) (r : Room) : Room :=
  loadWallTextures (with_style (style_wallTexture value) r).

Definition set_floorTexture (value : option TextureSource) (r : Room) : Room :=
  loadFloorTextures (with_style (style_floorTexture value) r).

Definition set_wallColor (value : option string) (r : Room) : Room :=
  updateTextures (with_style (style_wallColor value) r).

Definition set_floorColor (value : option string) (r : Room) : Room :=
  updateTextures (with_style (style_floorColor value) r).

(** ** Construction *)

(** The helpers [parseTileMapString], [parseTileMap] and [getTileMapBounds]
    are imported by Room.ts and not part of the sources: they are parameters
    of the constructor. A parser answers [None] when it throws. *)
Context {TileType : Type}.
Context (parseTileMapString : string -> option (list (list TileType))).
Context (parseTileMap : list (list TileType) -> option ParsedTileMap).
Context (getTileMapBounds : list (list ParsedTileType) -> XY -> Bounds).

(** [TileType[][] | string] *)
Inductive TileMap : Type :=
| TileMapGrid (g : list (list TileType))
| TileMapString (s : string).

Definition initialStyle : Style :=
  {| _hideWalls := false; _hideFloor := false;
     _wallDepth := of_Z 8; _wallHeight := of_Z 115; _tileHeight := of_Z 8;
     _wallColor := None; _floorColor := None;
     _wallTexture := None; _floorTexture := None;
     _currentWallTexture := None; _currentFloorTexture := None;
     _onTileClick := None |}.

Definition emptyScene (log : list Call) : Scene :=
  {| roomObjects := []; _walls := []; _floor := []; _cursors := [];
     _doorWall := None; wallHeap := ∅; floorHeap := ∅; cursorHeap := ∅;
     nextAddress := 0%nat; calls := log |}.

(** [new Room({ tilemap, ...dependencies })]; [None] when a parser throws. *)
Definition new (input : TileMap) : option Room :=
  let normalizedTileMap :=
    match input with
    | TileMapString s => parseTileMapString s
    | TileMapGrid g => Some g
    end in
  let log :=
    match input with
    | TileMapString _ => [CallParseTileMapString]
    | TileMapGrid _ => []
    end in
  match normalizedTileMap with
  | None => None
  | Some grid =>
      match parseTileMap grid with
      | None => None
      | Some parsed =>
          let r :=
            {| geometry :=
                 {| _wallOffsets := wallOffsets parsed;
                    _positionOffsets := positionOffsets parsed;
                    _maskOffsets := maskOffsets parsed;
                    parsedTileMap := tilemap parsed;
                    _tileMapBounds :=
                      getTileMapBounds (tilemap parsed) (wallOffsets parsed);
                    _largestDiff := largestDiff parsed |};
               style := initialStyle;
               scene := emptyScene
                          (log ++ [CallParseTileMap; CallGetTileMapBounds;
                                   CallNewRoomVisualization]) |} in
          let r := updateTiles r in
          Some (call CallAddChildVisualization r)
      end
  end.

(** ** Style mutations

    What a host can do to the style of a room after construction: the nine
    property setters, and the two continuations of the texture promises. *)
Inductive Mutation : Type :=
| SetHideWalls (value : bool)
| SetHideFloor (value : bool)
| SetWallHeight (value : num)
| SetTileHeight (value : num)
| SetWallDepth (value : num)
| SetWallColor (value : option string)
| SetFloorColor (value : option string)
| SetWallTexture (value : option TextureSource)
| SetFloorTexture (value : option TextureSource)
| WallTextureLoaded (texture : option Texture)
| FloorTextureLoaded (texture : option Texture)
| SetOnTileClick (value : option nat).

Definition mutate (r : Room) (m : Mutation) : Room :=
  match m with
  | SetHideWalls v => set_hideWalls v r
  | SetHideFloor v => set_hideFloor v r
  | SetWallHeight v => set_wallHeight v r
  | SetTileHeight v => set_tileHeight v r
  | SetWallDepth v => set_wallDepth v r
  | SetWallColor v => set_wallColor v r
  | SetFloorColor v => set_floorColor v r
  | SetWallTexture v => set_wallTexture v r
  | SetFloorTexture v => set_floorTexture v r
  | WallTextureLoaded t => wallTextureLoaded t r
  | FloorTextureLoaded t => floorTextureLoaded t r
  | SetOnTileClick v => set_onTileClick v r
  end.

Definition mutations (ms : list Mutation) (r : Room) : Room := fold_left mutate ms r.

End WithNumbers.
End Room.

(* ===================================================================== *)
(** * BaseAvatar *)
(* ===================================================================== *)

Module BaseAvatar.
Section WithNumbers.
Context {JN : JsNumber}.

(** [parseInt(s, 16)], a builtin. *)
Context (parseInt16 : string -> num).

(** Modelled from the spec: [LookOptions] is declared in
    util/createLookServer, which is not part of the sources. The spec's
    LookDescription is "{look identifier, action set (unordered, comparison
    is set-equality), item, effect, direction}". The action set is a
    JavaScript [Set]: its elements in insertion order, without duplicates. *)
Record LookOptions : Type := {
  look : string;
  actions : list string;
  direction : Z;
  item : option string;
  effect : option string
}.

(** Modelled from the spec: [isSetEqual] is imported from util/isSetEqual,
    which is not part of the sources. The spec says the comparison of action
    sets "is set-equality" with "order irrelevant": two sets are equal when
    they have the same size and every element of the first is in the second. *)
Definition isSetEqual (a b : list string) : bool :=
  (length a =? length b)%nat && forallb (fun x => bool_decide (x ∈ b)) a.

(** [a != b] on two optional strings. *)
Definition option_neqb (a b : option string) : bool :=
  match a, b with
  | None, None => false
  | Some x, Some y => negb (String.eqb x y)
  | _, _ => true
  end.

(** Modelled from the spec: the draw definition types are declared in
    util/getAvatarDrawDefinition, which is not part of the sources. The spec
    gives an "ordered sequence of DrawParts; each DrawPart has a cyclic
    sequence of per-frame assets (image handle id, local offset, mirror flag,
    optional color) and a render mode (colored | plain)"; BaseAvatar reads
    [fileId], [x], [y], [mirror] of an asset, [assets], [color], [mode] of a
    part and [parts], [offsetX], [offsetY] of a definition. *)
Record AvatarAsset : Type := {
  fileId : string;
  asset_x : num;
  asset_y : num;
  mirror : bool
}.

Inductive DrawMode : Type := colored | just_image.

Record AvatarDrawPart : Type := {
  assets : list AvatarAsset;
  color : option string;
  mode : DrawMode
}.

Record AvatarDrawDefinition : Type := {
  parts : list AvatarDrawPart;
  offsetX : num;
  offsetY : num
}.

(** A texture, known by its identity only. *)
Definition HitTexture : Type := nat.

(** Modelled from the spec: [AvatarLoaderResult] is declared in
    interfaces/IAvatarLoader, which is not part of the sources. The spec's
    AvatarLoader resolves a request to an "asynchronous
    DrawDefinition+texture-lookup result", with "getTexture(assetId) ->
    drawable image resource or absent". *)
Record AvatarLoaderResult : Type := {
  getDrawDefinition : LookOptions -> AvatarDrawDefinition;
  getTexture : string -> option HitTexture
}.

(** The collaborators, known by their identity only. *)
Record BaseAvatarDependencies : Type := {
  hitDetection : nat;
  animationTicker : nat;
  avatarLoader : nat
}.

(** Modelled from the spec: the class [HitSprite] is not part of the
    sources. It is the "cached drawable node" of the spec, which the avatar
    does "position/mirror/tint", mark "visible" and "not ignorable for
    hit-testing": the record of the properties that BaseAvatar assigns. *)
Record HitSprite : Type := {
  hitTexture : HitTexture;
  sprite_x : num;
  sprite_y : num;
  visible : bool;
  mirrored : bool;
  ignore : bool;
  tint : num
}.

(** The child [PIXI.Container] that holds the sprites of the current frame. *)
Record Container : Type := {
  children : list nat;
  container_x : num;
  container_y : num;
  container_destroyed : bool
}.

(** A call of [avatarLoader.getAvatarDrawDefinition]: the id and the look
    options that its continuation captured. *)
Record Request : Type := {
  requestId : Z;
  request_lookOptions : LookOptions
}.

(** ** The fields of the class

    After the private fields come the heap of the sprites (so that [_assets],
    [_sprites] and the container can share a sprite), the requests handed to
    the avatar loader so far, oldest first, and the number of callbacks
    subscribed to the animation ticker. The display properties [x], [y] and
    [zIndex] and the click handler, which no method below reads, are left
    out. *)
Record BaseAvatar : Type := {
  _container : option Container;
  _avatarLoaderResult : option AvatarLoaderResult;
  _avatarDrawDefinition : option AvatarDrawDefinition;
  _lookOptions : option LookOptions;
  _nextLookOptions : option LookOptions;
  _currentFrame : Z;
  _assets : list nat;
  _refreshFrame : bool;
  _refreshLook : bool;
  _sprites : gmap string nat;
  _updateId : Z;
  _dependencies : option BaseAvatarDependencies;
  spriteHeap : gmap nat HitSprite;
  nextAddress : nat;
  requests : list Request;
  subscriptions : nat
}.

Definition upd_container (v : option Container) (s : BaseAvatar) : BaseAvatar :=
  {| _container := v; _avatarLoaderResult := _avatarLoaderResult s;
     _avatarDrawDefinition := _avatarDrawDefinition s;
     _lookOptions := _lookOptions s; _nextLookOptions := _nextLookOptions s;
     _currentFrame := _currentFrame s; _assets := _assets s;
     _refreshFrame := _refreshFrame s; _refreshLook := _refreshLook s;
     _sprites := _sprites s; _updateId := _updateId s;
     _dependencies := _dependencies s; spriteHeap := spriteHeap s;
     nextAddress := nextAddress s; requests := requests s;
     subscriptions := subscriptions s |}.

Definition upd_avatarLoaderResult (v : option AvatarLoaderResult) (s : BaseAvatar) : BaseAvatar :=
  {| _container := _container s; _avatarLoaderResult := v;
     _avatarDrawDefinition := _avatarDrawDefinition s;
     _lookOptions := _lookOptions s; _nextLookOptions := _nextLookOptions s;
     _currentFrame := _currentFrame s; _assets := _assets s;
     _refreshFrame := _refreshFrame s; _refreshLook := _refreshLook s;
     _sprites := _sprites s; _updateId := _updateId s;
     _dependencies := _dependencies s; spriteHeap := spriteHeap s;
     nextAddress := nextAddress s; requests := requests s;
     subscriptions := subscriptions s |}.

Definition upd_avatarDrawDefinition (v : option AvatarDrawDefinition) (s : BaseAvatar) : BaseAvatar :=
  {| _container := _container s;
     _avatarLoaderResult := _avatarLoaderResult s;
     _avatarDrawDefinition := v; _lookOptions := _lookOptions s;
     _nextLookOptions := _nextLookOptions s;
     _currentFrame := _currentFrame s; _assets := _assets s;
     _refreshFrame := _refreshFrame s; _refreshLook := _refreshLook s;
     _sprites := _sprites s; _updateId := _updateId s;
     _dependencies := _dependencies s; spriteHeap := spriteHeap s;
     nextAddress := nextAddress s; requests := requests s;
     subscriptions := subscriptions s |}.

Definition upd_lookOptions (v : option LookOptions) (s : BaseAvatar) : BaseAvatar :=
  {| _container := _container s;
     _avatarLoaderResult := _avatarLoaderResult s;
     _avatarDrawDefinition := _avatarDrawDefinition s; _lookOptions := v;
     _nextLookOptions := _nextLookOptions s;
     _currentFrame := _currentFrame s; _assets := _assets s;
     _refreshFrame := _refreshFrame s; _refreshLook := _refreshLook s;
     _sprites := _sprites s; _updateId := _updateId s;
     _dependencies := _dependencies s; spriteHeap := spriteHeap s;
     nextAddress := nextAddress s; requests := requests s;
     subscriptions := subscriptions s |}.

Definition upd_nextLookOptions (v : option LookOptions) (s : BaseAvatar) : BaseAvatar :=
  {| _container := _container s;
     _avatarLoaderResult := _avatarLoaderResult s;
     _avatarDrawDefinition := _avatarDrawDefinition s;
     _lookOptions := _lookOptions s; _nextLookOptions := v;
     _currentFrame := _currentFrame s; _assets := _assets s;
     _refreshFrame := _refreshFrame s; _refreshLook := _refreshLook s;
     _sprites := _sprites s; _updateId := _updateId s;
     _dependencies := _dependencies s; spriteHeap := spriteHeap s;
     nextAddress := nextAddress s; requests := requests s;
     subscriptions := subscriptions s |}.

Definition upd_currentFrame (v : Z) (s : BaseAvatar) : BaseAvatar :=
  {| _container := _container s;
     _avatarLoaderResult := _avatarLoaderResult s;
     _avatarDrawDefinition := _avatarDrawDefinition s;
     _lookOptions := _lookOptions s; _nextLookOptions := _nextLookOptions s;
     _currentFrame := v; _assets := _assets s;
     _refreshFrame := _refreshFrame s; _refreshLook := _refreshLook s;
     _sprites := _sprites s; _updateId := _updateId s;
     _dependencies := _dependencies s; spriteHeap := spriteHeap s;
     nextAddress := nextAddress s; requests := requests s;
     subscriptions := subscriptions s |}.

Definition upd_assets (v : list nat) (s : BaseAvatar) : BaseAvatar :=
  {| _container := _container s;
     _avatarLoaderResult := _avatarLoaderResult s;
     _avatarDrawDefinition := _avatarDrawDefinition s;
     _lookOptions := _lookOptions s; _nextLookOptions := _nextLookOptions s;
     _currentFrame := _currentFrame s; _assets := v;
     _refreshFrame := _refreshFrame s; _refreshLook := _refreshLook s;
     _sprites := _sprites s; _updateId := _updateId s;
     _dependencies := _dependencies s; spriteHeap := spriteHeap s;
     nextAddress := nextAddress s; requests := requests s;
     subscriptions := subscriptions s |}.

Definition upd_refreshFrame (v : bool) (s : BaseAvatar) : BaseAvatar :=
  {| _container := _container s;
     _avatarLoaderResult := _avatarLoaderResult s;
     _avatarDrawDefinition := _avatarDrawDefinition s;
     _lookOptions := _lookOptions s; _nextLookOptions := _nextLookOptions s;
     _currentFrame := _currentFrame s; _assets := _assets s;
     _refreshFrame := v; _refreshLook := _refreshLook s;
     _sprites := _sprites s; _updateId := _updateId s;
     _dependencies := _dependencies s; spriteHeap := spriteHeap s;
     nextAddress := nextAddress s; requests := requests s;
     subscriptions := subscriptions s |}.

Definition upd_refreshLook (v : bool) (s : BaseAvatar) : BaseAvatar :=
  {| _container := _container s;
     _avatarLoaderResult := _avatarLoaderResult s;
     _avatarDrawDefinition := _avatarDrawDefinition s;
     _lookOptions := _lookOptions s; _nextLookOptions := _nextLookOptions s;
     _currentFrame := _currentFrame s; _assets := _assets s;
     _refreshFrame := _refreshFrame s; _refreshLook := v;
     _sprites := _sprites s; _updateId := _updateId s;
     _dependencies := _dependencies s; spriteHeap := spriteHeap s;
     nextAddress := nextAddress s; requests := requests s;
     subscriptions := subscriptions s |}.

Definition upd_sprites (v : gmap string nat) (s : BaseAvatar) : BaseAvatar :=
  {| _container := _container s;
     _avatarLoaderResult := _avatarLoaderResult s;
     _avatarDrawDefinition := _avatarDrawDefinition s;
     _lookOptions := _lookOptions s; _nextLookOptions := _nextLookOptions s;
     _currentFrame := _currentFrame s; _assets := _assets s;
     _refreshFrame := _refreshFrame s; _refreshLook := _refreshLook s;
     _sprites := v; _updateId := _updateId s;
     _dependencies := _dependencies s; spriteHeap := spriteHeap s;
     nextAddress := nextAddress s; requests := requests s;
     subscriptions := subscriptions s |}.

Definition upd_updateId (v : Z) (s : BaseAvatar) : BaseAvatar :=
  {| _container := _container s;
     _avatarLoaderResult := _avatarLoaderResult s;
     _avatarDrawDefinition := _avatarDrawDefinition s;
     _lookOptions := _lookOptions s; _nextLookOptions := _nextLookOptions s;
     _currentFrame := _currentFrame s; _assets := _assets s;
     _refreshFrame := _refreshFrame s; _refreshLook := _refreshLook s;
     _sprites := _sprites s; _updateId := v;
     _dependencies := _dependencies s; spriteHeap := spriteHeap s;
     nextAddress := nextAddress s; requests := requests s;
     subscriptions := subscriptions s |}.

Definition upd_dependencies (v : option BaseAvatarDependencies) (s : BaseAvatar) : BaseAvatar :=
  {| _container := _container s;
     _avatarLoaderResult := _avatarLoaderResult s;
     _avatarDrawDefinition := _avatarDrawDefinition s;
     _lookOptions := _lookOptions s; _nextLookOptions := _nextLookOptions s;
     _currentFrame := _currentFrame s; _assets := _assets s;
     _refreshFrame := _refreshFrame s; _refreshLook := _refreshLook s;
     _sprites := _sprites s; _updateId := _updateId s; _dependencies := v;
     spriteHeap := spriteHeap s; nextAddress := nextAddress s;
     requests := requests s; subscriptions := subscriptions s |}.

Definition upd_spriteHeap (v : gmap nat HitSprite) (s : BaseAvatar) : BaseAvatar :=
  {| _container := _container s;
     _avatarLoaderResult := _avatarLoaderResult s;
     _avatarDrawDefinition := _avatarDrawDefinition s;
     _lookOptions := _lookOptions s; _nextLookOptions := _nextLookOptions s;
     _currentFrame := _currentFrame s; _assets := _assets s;
     _refreshFrame := _refreshFrame s; _refreshLook := _refreshLook s;
     _sprites := _sprites s; _updateId := _updateId s;
     _dependencies := _dependencies s; spriteHeap := v;
     nextAddress := nextAddress s; requests := requests s;
     subscriptions := subscriptions s |}.

Definition upd_nextAddress (v : nat) (s : BaseAvatar) : BaseAvatar :=
  {| _container := _container s;
     _avatarLoaderResult := _avatarLoaderResult s;
     _avatarDrawDefinition := _avatarDrawDefinition s;
     _lookOptions := _lookOptions s; _nextLookOptions := _nextLookOptions s;
     _currentFrame := _currentFrame s; _assets := _assets s;
     _refreshFrame := _refreshFrame s; _refreshLook := _refreshLook s;
     _sprites := _sprites s; _updateId := _updateId s;
     _dependencies := _dependencies s; spriteHeap := spriteHeap s;
     nextAddress := v; requests := requests s;
     subscriptions := subscriptions s |}.

Definition upd_requests (v : list Request) (s : BaseAvatar) : BaseAvatar :=
  {| _container := _container s;
     _avatarLoaderResult := _avatarLoaderResult s;
     _avatarDrawDefinition := _avatarDrawDefinition s;
     _lookOptions := _lookOptions s; _nextLookOptions := _nextLookOptions s;
     _currentFrame := _currentFrame s; _assets := _assets s;
     _refreshFrame := _refreshFrame s; _refreshLook := _refreshLook s;
     _sprites := _sprites s; _updateId := _updateId s;
     _dependencies := _dependencies s; spriteHeap := spriteHeap s;
     nextAddress := nextAddress s; requests := v;
     subscriptions := subscriptions s |}.

Definition upd_subscriptions (v : nat) (s : BaseAvatar) : BaseAvatar :=
  {| _container := _container s;
     _avatarLoaderResult := _avatarLoaderResult s;
     _avatarDrawDefinition := _avatarDrawDefinition s;
     _lookOptions := _lookOptions s; _nextLookOptions := _nextLookOptions s;
     _currentFrame := _currentFrame s; _assets := _assets s;
     _refreshFrame := _refreshFrame s; _refreshLook := _refreshLook s;
     _sprites := _sprites s; _updateId := _updateId s;
     _dependencies := _dependencies s; spriteHeap := spriteHeap s;
     nextAddress := nextAddress s; requests := requests s;
     subscriptions := v |}.

(** [new BaseAvatar(options)] *)
Definition new (options_look : LookOptions) : BaseAvatar :=
  {| _container := None; _avatarLoaderResult := None;
     _avatarDrawDefinition := None; _lookOptions := None;
     _nextLookOptions := Some options_look; _currentFrame := 0;
     _assets := []; _refreshFrame := false; _refreshLook := false;
     _sprites := ∅; _updateId := 0; _dependencies := None;
     spriteHeap := ∅; nextAddress := 0%nat; requests := [];
     subscriptions := 0%nat |}.

(** ** Getters and setters *)

Definition dependencies : M BaseAvatar BaseAvatarDependencies :=
  let* d := gets _dependencies in
  match d with
  | None => throw "Invalid dependencies in BaseAvatar"
  | Some value => ret value
  end.

Definition mounted : M BaseAvatar bool :=
  let* d := gets _dependencies in
  ret (match d with Some _ => true | None => false end).

Definition lookOptions : M BaseAvatar LookOptions :=
  let* next := gets _nextLookOptions in
  match next with
  | Some l => ret l
  | None =>
      let* current := gets _lookOptions in
      match current with
      | None => throw "Invalid look options"
      | Some l => ret l
      end
  end.

Definition currentFrame : M BaseAvatar Z := gets _currentFrame.

Definition set_currentFrame (value : Z) : M BaseAvatar unit :=
  let* current := gets _currentFrame in
  if value =? current then ret tt
  else
    let* _ := modify (upd_currentFrame value) in
    modify (upd_refreshFrame true).

Definition _updateLookOptions (oldLookOptions : option LookOptions)
    (newLookOptions : LookOptions) : M BaseAvatar unit :=
  if match oldLookOptions with
     | None => true
     | Some old =>
         negb (isSetEqual (actions old) (actions newLookOptions))
         || negb (String.eqb (look old) (look newLookOptions))
         || option_neqb (item old) (item newLookOptions)
         || option_neqb (effect old) (effect newLookOptions)
         || negb (direction old =? direction newLookOptions)
     end
  then
    let* _ := modify (upd_nextLookOptions (Some newLookOptions)) in
    modify (upd_refreshLook true)
  else ret tt.

Definition set_lookOptions (value : LookOptions) : M BaseAvatar unit :=
  let* old := gets _lookOptions in
  _updateLookOptions old value.

(** ** Sprites *)

Definition _updatePosition (definition : AvatarDrawDefinition) : M BaseAvatar unit :=
  let* c := gets _container in
  match c with
  | None => ret tt
  | Some container =>
      modify (upd_container
                (Some {| children := children container;
                         container_x := offsetX definition;
                         container_y := offsetY definition;
                         container_destroyed := container_destroyed container |}))
  end.

Definition _positionChanged : M BaseAvatar unit :=
  let* d := gets _avatarDrawDefinition in
  match d with
  | None => ret tt
  | Some definition => _updatePosition definition
  end.

(** [s.slice(1)] *)
Definition slice1 (s : string) : string :=
  match s with
  | EmptyString => EmptyString
  | String _ rest => rest
  end.

Definition createAsset (part : AvatarDrawPart) (asset : AvatarAsset)
    : M BaseAvatar (option nat) :=
  let* r := gets _avatarLoaderResult in
  match r with
  | None => throw "Cant create asset when avatar loader result not present"
  | Some result =>
      match getTexture result (fileId asset) with
      | None => ret None
      | Some texture =>
          let* _ := dependencies in
          let sprite :=
            {| hitTexture := texture;
               sprite_x := asset_x asset;
               sprite_y := asset_y asset;
               visible := true;
               mirrored := mirror asset;
               ignore := false;
               tint := match color part, mode part with
                       | Some c, colored => parseInt16 (slice1 c)
                       | _, _ => of_Z 16777215
                       end |} in
          let* a := gets nextAddress in
          let* _ := modify (fun s => upd_spriteHeap (<[a := sprite]> (spriteHeap s)) s) in
          let* _ := modify (upd_nextAddress (S a)) in
          ret (Some a)
      end
  end.

(** [currentFrame % part.assets.length] and then [part.assets[frame]], on
    integer frames: the remainder takes the sign of the dividend and is NaN
    when the part has no asset; a negative or NaN index reads [undefined]. *)
Definition frameAsset (part : AvatarDrawPart) (currentFrame : Z) : option AvatarAsset :=
  let n := Z.of_nat (length (assets part)) in
  if n =? 0 then None
  else
    let frame := Z.rem currentFrame n in
    if frame <? 0 then None else assets part !! Z.to_nat frame.

Definition hideSprite (value : HitSprite) : HitSprite :=
  {| hitTexture := hitTexture value; sprite_x := sprite_x value;
     sprite_y := sprite_y value; visible := false; mirrored := mirrored value;
     ignore := true; tint := tint value |}.

Definition showSprite (asset : AvatarAsset) (sprite : HitSprite) : HitSprite :=
  {| hitTexture := hitTexture sprite; sprite_x := asset_x asset;
     sprite_y := asset_y asset; visible := true; mirrored := mirror asset;
     ignore := false; tint := tint sprite |}.

(** [container.addChild(sprite)]: PIXI takes the child out of the parent it
    has, which can only be this container, and appends it. *)
Definition addChild (sprite : nat) (c : Container) : Container :=
  {| children := filter (fun a => a <> sprite) (children c) ++ [sprite];
     container_x := container_x c; container_y := container_y c;
     container_destroyed := container_destroyed c |}.

Definition destroyContainer (c : Container) : Container :=
  {| children := []; container_x := container_x c; container_y := container_y c;
     container_destroyed := true |}.

(** The callback of [drawDefinition.parts.forEach]. *)
Definition updatePart (currentFrame : Z) (part : AvatarDrawPart) : M BaseAvatar unit :=
  match frameAsset part currentFrame with
  | None => throw "TypeError: Cannot read properties of undefined (reading 'fileId')"
  | Some asset =>
      let* cached := gets (fun s => _sprites s !! fileId asset) in
      let* sprite :=
        match cached with
        | Some a => ret (Some a)
        | None =>
            let* created := createAsset part asset in
            let* _ :=
              match created with
              | Some a => modify (fun s => upd_assets (_assets s ++ [a]) s)
              | None => ret tt
              end in
            ret created
        end in
      match sprite with
      | None => ret tt
      | Some a =>
          let* _ := modify (fun s => upd_spriteHeap
                                       (alter (showSprite asset) a (spriteHeap s)) s) in
          let* _ := modify (fun s => upd_sprites (<[fileId asset := a]> (_sprites s)) s) in
          modify (fun s => upd_container (addChild a <$> _container s) s)
      end
  end.

Definition _updateSpritesWithAvatarDrawDefinition
    (drawDefinition : AvatarDrawDefinition) (currentFrame : Z) : M BaseAvatar unit :=
  let* m := mounted in
  if negb m then ret tt
  else
    let* _ := modify (fun s => upd_spriteHeap
                (fold_left (fun h a => alter hideSprite a h) (_assets s) (spriteHeap s)) s) in
    let* _ := modify (fun s => upd_container (destroyContainer <$> _container s) s) in
    let* _ := modify (upd_container
                (Some {| children := []; container_x := of_Z 0;
                         container_y := of_Z 0; container_destroyed := false |})) in
    (* [this.addChild(this._container)] puts the new container among the
       avatar's own children, which are not part of the state. *)
    forEach (parts drawDefinition) (updatePart currentFrame).

Definition _updateSprites : M BaseAvatar unit :=
  let* r := gets _avatarLoaderResult in
  match r with
  | None => ret tt
  | Some result =>
      let* l := gets _lookOptions in
      match l with
      | None => ret tt
      | Some options =>
          let definition := getDrawDefinition result options in
          let* _ := modify (upd_avatarDrawDefinition (Some definition)) in
          let* frame := currentFrame in
          let* _ := _updateSpritesWithAvatarDrawDefinition definition frame in
          _updatePosition definition
      end
  end.

Definition _updateFrame : M BaseAvatar unit :=
  let* d := gets _avatarDrawDefinition in
  match d with
  | None => ret tt
  | Some definition =>
      let* frame := currentFrame in
      let* _ := _updateSpritesWithAvatarDrawDefinition definition frame in
      _updatePosition definition
  end.

(** ** The look-reload cycle *)

(** [++n] on a counter that starts at 0: exact below 2^53, where the doubles
    stop telling [n] and [n + 1] apart. *)
Definition js_increment (n : Z) : Z := if n <? 2 ^ 53 then n + 1 else n.

Definition _reloadLook : M BaseAvatar unit :=
  let* m := mounted in
  if negb m then ret tt
  else
    let* lookOptions := gets _nextLookOptions in
    match lookOptions with
    | None => ret tt
    | Some options =>
        let* _ := modify (fun s => upd_updateId (js_increment (_updateId s)) s) in
        let* requestId := gets _updateId in
        modify (fun s => upd_requests
                  (requests s ++ [{| requestId := requestId;
                                     request_lookOptions := options |}]) s)
    end.

(** The continuation passed to [then]: it runs when the avatar loader
    resolves the request [request] with [result]. *)
Definition _reloadLook_then (request : Request) (result : AvatarLoaderResult)
    : M BaseAvatar unit :=
  let* current := gets _updateId in
  if negb (requestId request =? current) then ret tt
  else
    let* _ := modify (upd_avatarLoaderResult (Some result)) in
    let* _ := modify (upd_lookOptions (Some (request_lookOptions request))) in
    let* _ := modify (upd_nextLookOptions None) in
    _updateSprites.

(** The callback subscribed to the animation ticker. *)
Definition tickerCallback : M BaseAvatar unit :=
  let* refreshLook := gets _refreshLook in
  let* _ :=
    if refreshLook
    then let* _ := modify (upd_refreshLook false) in _reloadLook
    else ret tt in
  let* refreshFrame := gets _refreshFrame in
  if refreshFrame
  then let* _ := modify (upd_refreshFrame false) in _updateFrame
  else ret tt.

Definition _handleDependenciesSet : M BaseAvatar unit :=
  let* _ := _reloadLook in
  let* _ := dependencies in
  modify (fun s => upd_subscriptions (S (subscriptions s)) s).

Definition set_dependencies (value : BaseAvatarDependencies) : M BaseAvatar unit :=
  let* _ := modify (upd_dependencies (Some value)) in
  _handleDependenciesSet.

Definition fromShroom (shroom_dependencies : BaseAvatarDependencies)
    (options_look : LookOptions) : completion unit * BaseAvatar :=
  set_dependencies shroom_dependencies (new options_look).

Definition destroy : M BaseAvatar unit :=
  modify (fun s => upd_container (destroyContainer <$> _container s) s).

(** One tick of the animation ticker: every subscribed callback runs. *)
Definition tick : M BaseAvatar unit :=
  let* n := gets subscriptions in
  repeatM n tickerCallback.

(** ** What can happen to an avatar *)

Inductive Event : Type :=
| SetDependencies (value : BaseAvatarDependencies)
| SetLookOptions (value : LookOptions)
| SetCurrentFrame (value : Z)
| Tick
| Resolved (request : Request) (result : AvatarLoaderResult)
| Destroy.

Definition handle (e : Event) : M BaseAvatar unit :=
  match e with
  | SetDependencies value => set_dependencies value
  | SetLookOptions value => set_lookOptions value
  | SetCurrentFrame value => set_currentFrame value
  | Tick => tick
  | Resolved request result => _reloadLook_then request result
  | Destroy => destroy
  end.

(** The avatar after a sequence of events; a throw ends the event in which
    it occurs, not the sequence. *)
Definition run (es : list Event) (s : BaseAvatar) : BaseAvatar :=
  fold_left (fun s e => state_after (handle e) s) es s.

End WithNumbers.
End BaseAvatar.

(* ===================================================================== *)
(** * Properties of RoomObject.ts *)
(* ===================================================================== *)

Section RoomObjectFacts.
Import RoomObject.

Lemma destroy_unfold (fuel : nat) :
  destroy (S fuel) =
    (let* d := gets _isDestroyed in
     if d then ret tt
     else
       let* _ := modify (set_isDestroyed true) in
       let* ctx := getRoomContext in
       let* _ := removeRoomObject (roomObjectContainer ctx) (destroy fuel) in
       let* _ := modify (set_context None) in
       destroyed).
Proof. reflexivity. Qed.

Lemma destroy_flagged (fuel : nat) (o : RoomObject) :
  _isDestroyed o = true -> destroy (S fuel) o = (Normal tt, o).
Proof.
  intros Hd. rewrite destroy_unfold. unfold bind, gets. rewrite Hd. reflexivity.
Qed.

Lemma repeat_destroy_flagged (k fuel : nat) (o : RoomObject) :
  _isDestroyed o = true -> repeatM k (destroy (S fuel)) o = (Normal tt, o).
Proof.
  intros Hd. induction k as [|k IH]; [reflexivity|].
  cbn [repeatM]. unfold bind at 1. rewrite destroy_flagged by exact Hd.
  exact IH.
Qed.

Lemma destroy_attached (fuel : nat) (o : RoomObject) (ctx : IRoomContext) :
  _context o = Some ctx -> _isDestroyed o = false ->
  destroy (S (S fuel)) o =
    (Normal tt,
     {| _context := None; _isDestroyed := true;
        calls := calls o ++ [CallRemoveRoomObject (roomObjectContainer ctx); CallDestroyed] |}).
Proof.
  intros Hc Hd. destruct o as [c d cs]. simpl in Hc, Hd. subst c d.
  rewrite destroy_unfold.
  unfold bind, gets, modify, getRoomContext, removeRoomObject, destroyed, ret, bind, gets, modify.
  cbn [_isDestroyed _context calls set_isDestroyed set_context call].
  rewrite repeat_destroy_flagged by reflexivity.
  cbn [_isDestroyed _context calls set_isDestroyed set_context call].
  unfold call, set_context, set_isDestroyed. cbn [_isDestroyed _context calls].
  rewrite <- app_assoc. reflexivity.
Qed.

Lemma setParent_unattached (o : RoomObject) (room : IRoomContext) :
  _context o = None ->
  setParent room o =
    (Normal tt,
     {| _context := Some room; _isDestroyed := false;
        calls := calls o ++ [CallRegistered] |}).
Proof.
  intros Hc. unfold setParent, bind, gets. rewrite Hc. reflexivity.
Qed.



(** C8. [setParent] on an object that already holds a context throws at once
    and changes nothing; on an object without a context it returns normally,
    stores the context, clears the destroyed flag and runs the [registered]
    hook exactly once. *)
Theorem setParent_rejects_double_attach (o : RoomObject) (room : IRoomContext) :
  (is_Some (_context o) ->
     setParent room o = (Throw "RoomObject already provided with a context.", o)) /\
  (_context o = None ->
     setParent room o =
       (Normal tt,
        {| _context := Some room; _isDestroyed := false;
           calls := calls o ++ [CallRegistered] |})).
Proof.
  split.
  - intros [c0 Hc]. unfold setParent, bind, gets. rewrite Hc. reflexivity.
  - apply setParent_unattached.
Qed.


Definition room_ctx (n : nat) : IRoomContext :=
  {| roomObjectContainer := {| containerId := n; reentrantDestroys := 1 |};
     collaborators := 0 |}.

Definition attached_object : RoomObject :=
  {| _context := Some (room_ctx 1); _isDestroyed := false; calls := [CallRegistered] |}.


Lemma setParent_rejects_double_attach_witness :
  setParent (room_ctx 2) attached_object =
    (Throw "RoomObject already provided with a context.", attached_object) /\
  fst (setParent (room_ctx 2) new) = Normal tt.
Proof.
  split.
  - apply (proj1 (setParent_rejects_double_attach attached_object (room_ctx 2))).
    exists (room_ctx 1). reflexivity.
  - rewrite (proj2 (setParent_rejects_double_attach new (room_ctx 2)) eq_refl).
    reflexivity.
Defined.


(** A fresh object that was never attached: the first [destroy] throws after
    setting the flag, the second returns silently. *)
Example destroy_unattached_throws :
  destroy 2 new = (Throw "Invalid context", set_isDestroyed true new) /\
  destroy 2 (set_isDestroyed true new) = (Normal tt, set_isDestroyed true new).
Proof. split; reflexivity. Qed.

End RoomObjectFacts.

(* ===================================================================== *)
(** * Properties of Room.ts *)
(* ===================================================================== *)

Section RoomFacts.
Import Room.
Context {JN : JsNumber}.
Local Open Scope num_scope.

(** Calls to the tile-map parser and to the bounds helper. *)
Definition is_parse_call (c : Call) : bool :=
  match c with
  | CallParseTileMapString | CallParseTileMap | CallGetTileMapBounds => true
  | _ => false
  end.

Definition parse_calls (r : Room) : list Call :=
  List.filter is_parse_call (calls (scene r)).

(** [r'] differs from [r] in the scene only, and no parser was called on the
    way. *)
Definition scene_step (r r' : Room) : Prop :=
  geometry r' = geometry r /\ style r' = style r /\ parse_calls r' = parse_calls r.

Lemma scene_step_refl (r : Room) : scene_step r r.
Proof. repeat split. Qed.

Lemma scene_step_trans (r1 r2 r3 : Room) :
  scene_step r1 r2 -> scene_step r2 r3 -> scene_step r1 r3.
Proof.
  intros (G1 & S1 & P1) (G2 & S2 & P2). repeat split; congruence.
Qed.

Lemma parse_calls_call (c : Call) (r : Room) :
  is_parse_call c = false -> parse_calls (call c r) = parse_calls r.
Proof.
  intros Hc. unfold parse_calls, call. cbn.
  rewrite List.filter_app. cbn. rewrite Hc. apply app_nil_r.
Qed.

Lemma scene_step_call (c : Call) (r : Room) :
  is_parse_call c = false -> scene_step r (call c r).
Proof.
  intros Hc. repeat split. apply parse_calls_call, Hc.
Qed.

Lemma scene_step_with_scene (f : Scene -> Scene) (r : Room) :
  (forall s, calls (f s) = calls s) -> scene_step r (with_scene f r).
Proof.
  intros Hf. repeat split. unfold parse_calls. cbn. rewrite Hf. reflexivity.
Qed.

Lemma scene_step_addRoomObject (o : ObjRef) (r : Room) :
  scene_step r (addRoomObject o r).
Proof.
  unfold addRoomObject.
  apply (scene_step_trans _ (call (CallSetParent o) r)).
  - apply scene_step_call. reflexivity.
  - apply scene_step_with_scene. reflexivity.
Qed.

Lemma scene_step_registerWall (wall : nat) (r : Room) :
  scene_step r (registerWall wall r).
Proof.
  unfold registerWall. destruct (hideWalls r || hideFloor r).
  - apply scene_step_refl.
  - eapply scene_step_trans; [|apply scene_step_addRoomObject].
    apply scene_step_with_scene. reflexivity.
Qed.

Lemma scene_step_registerTile (tile : nat) (r : Room) :
  scene_step r (registerTile tile r).
Proof.
  unfold registerTile. destruct (hideFloor r).
  - apply scene_step_refl.
  - eapply scene_step_trans; [|apply scene_step_addRoomObject].
    apply scene_step_with_scene. reflexivity.
Qed.

Lemma scene_step_registerTileCursor (p : RoomPosition) (door : bool) (r : Room) :
  scene_step r (registerTileCursor p door r).
Proof.
  unfold registerTileCursor, newTileCursor.
  eapply scene_step_trans; [|apply scene_step_addRoomObject].
  eapply scene_step_trans; [|apply scene_step_with_scene; reflexivity].
  apply scene_step_with_scene. reflexivity.
Qed.

Lemma scene_step_newWall (w : Wall) (r : Room) : scene_step r (snd (newWall w r)).
Proof. apply scene_step_with_scene. reflexivity. Qed.

Lemma scene_step_newFloor (f : FloorObject) (r : Room) : scene_step r (snd (newFloor f r)).
Proof. apply scene_step_with_scene. reflexivity. Qed.

Lemma scene_step_resetTiles (r : Room) : scene_step r (resetTiles r).
Proof.
  unfold resetTiles.
  set (targets := _ ++ _ ++ _). clearbody targets.
  assert (H : scene_step r (fold_left (fun r value => call (CallDestroy value) r) targets r)).
  { generalize (scene_step_refl r). generalize r at 2 4 as r1.
    induction targets as [|t ts IH]; intros r1 H1; [exact H1|].
    cbn [fold_left]. apply IH.
    apply (scene_step_trans _ r1); [exact H1|]. apply scene_step_call. reflexivity. }
  revert H. generalize (fold_left (fun r value => call (CallDestroy value) r) targets r) as r1.
  intros r1 H1. apply (scene_step_trans _ r1); [exact H1|].
  repeat split.
Qed.

(** ** Invariants of the tile rebuild

    A property of rooms that every registration step keeps is kept by the
    whole double loop of [updateTiles]. *)
Section RebuildInvariant.
Variable I : Room -> Prop.
Hypothesis I_registerWall : forall a r, I r -> I (registerWall a r).
Hypothesis I_registerTile : forall a r, I r -> I (registerTile a r).
Hypothesis I_registerTileCursor : forall p d r, I r -> I (registerTileCursor p d r).
Hypothesis I_newWall : forall w r, I r -> I (snd (newWall w r)).
Hypothesis I_newFloor : forall f r, I r -> I (snd (newFloor f r)).
Hypothesis I_doorWall : forall v r, I r -> I (with_scene (scene_doorWall v) r).

Ltac rebuild_step :=
  match goal with
  | |- context [newFloor ?f ?r] =>
      let H := fresh "H" in
      assert (H : I (snd (newFloor f r)))
        by (apply I_newFloor; auto using I_registerWall, I_registerTile,
                                       I_registerTileCursor, I_doorWall);
      destruct (newFloor f r) as [? ?]; cbn [snd] in H
  | |- context [newWall ?w ?r] =>
      let H := fresh "H" in
      assert (H : I (snd (newWall w r)))
        by (apply I_newWall; auto using I_registerWall, I_registerTile,
                                      I_registerTileCursor, I_doorWall);
      destruct (newWall w r) as [? ?]; cbn [snd] in H
  end.

Lemma invariant_cell (x y : nat) (tile : ParsedTileType) (r : Room) :
  I r -> I (updateTiles_cell x y tile r).
Proof.
  intros H0.
  destruct tile as [z|z|[] h hb|k z|];
    cbv beta iota zeta delta [updateTiles_cell getWallDirection];
    repeat rebuild_step;
    auto 10 using I_registerWall, I_registerTile, I_registerTileCursor, I_doorWall.
Qed.

Lemma invariant_row (y : nat) (row : list ParsedTileType) (x : nat) (r : Room) :
  I r -> I (updateTiles_row x y row r).
Proof.
  revert x r. induction row as [|tile row IH]; intros x r H0; [exact H0|].
  cbn [updateTiles_row]. apply IH, invariant_cell, H0.
Qed.

Lemma invariant_rows (tiles : list (list ParsedTileType)) (y : nat) (r : Room) :
  I r -> I (updateTiles_rows y tiles r).
Proof.
  revert y r. induction tiles as [|row tiles IH]; intros y r H0; [exact H0|].
  cbn [updateTiles_rows]. apply IH, invariant_row, H0.
Qed.

End RebuildInvariant.

Lemma scene_step_updateTiles (r : Room) : scene_step r (updateTiles r).
Proof.
  unfold updateTiles.
  apply invariant_rows with (I := scene_step r).
  - intros a r1 H. apply (scene_step_trans _ r1); [exact H|apply scene_step_registerWall].
  - intros a r1 H. apply (scene_step_trans _ r1); [exact H|apply scene_step_registerTile].
  - intros p d r1 H. apply (scene_step_trans _ r1); [exact H|apply scene_step_registerTileCursor].
  - intros w r1 H. apply (scene_step_trans _ r1); [exact H|apply scene_step_newWall].
  - intros f r1 H. apply (scene_step_trans _ r1); [exact H|apply scene_step_newFloor].
  - intros v r1 H. apply (scene_step_trans _ r1); [exact H|].
    apply scene_step_with_scene. reflexivity.
  - apply scene_step_resetTiles.
Qed.

Lemma scene_step_forEachWall (f : Wall -> Wall) (r : Room) :
  scene_step r (forEachWall f r).
Proof. apply scene_step_with_scene. reflexivity. Qed.

Lemma scene_step_forEachFloor (f : FloorObject -> FloorObject) (r : Room) :
  scene_step r (forEachFloor f r).
Proof. apply scene_step_with_scene. reflexivity. Qed.

Ltac scene_steps :=
  repeat first
    [ match goal with
      | |- scene_step ?r ?r => apply scene_step_refl
      | |- scene_step ?r (call ?c ?r') =>
          apply (scene_step_trans r r'); [|apply scene_step_call; reflexivity]
      | |- scene_step ?r (forEachWall ?f ?r') =>
          apply (scene_step_trans r r'); [|apply scene_step_forEachWall]
      | |- scene_step ?r (forEachFloor ?f ?r') =>
          apply (scene_step_trans r r'); [|apply scene_step_forEachFloor]
      | |- scene_step ?r (updateTiles ?r') =>
          apply (scene_step_trans r r'); [|apply scene_step_updateTiles]
      end ].

Lemma scene_step_updateWallDepth (r : Room) : scene_step r (_updateWallDepth r).
Proof. unfold _updateWallDepth. cbv zeta. scene_steps. Qed.

Lemma scene_step_updateWallHeight (r : Room) : scene_step r (_updateWallHeight r).
Proof. unfold _updateWallHeight. cbv zeta. scene_steps. Qed.

Lemma scene_step_updateTileHeight (r : Room) : scene_step r (_updateTileHeight r).
Proof. unfold _updateTileHeight. cbv zeta. scene_steps. Qed.

Lemma scene_step_updateTextures (r : Room) : scene_step r (updateTextures r).
Proof. unfold updateTextures. cbv zeta. scene_steps. Qed.

(** No style mutation writes the geometry or calls a parser. *)
Lemma mutate_geometry (r : Room) (m : Mutation) :
  geometry (mutate r m) = geometry r /\ parse_calls (mutate r m) = parse_calls r.
Proof.
  assert (K : forall f r', scene_step (with_style f r) r' ->
                geometry r' = geometry r /\ parse_calls r' = parse_calls r).
  { intros f r' (G & _ & P). split; [exact G|exact P]. }
  destruct m; cbn [mutate].
  - apply (K (style_hideWalls value)), scene_step_updateTiles.
  - apply (K (style_hideFloor value)), scene_step_updateTiles.
  - apply (K (style_wallHeight value)), scene_step_updateWallHeight.
  - apply (K (style_tileHeight value)), scene_step_updateTileHeight.
  - apply (K (style_wallDepth value)), scene_step_updateWallDepth.
  - apply (K (style_wallColor value)), scene_step_updateTextures.
  - apply (K (style_floorColor value)), scene_step_updateTextures.
  - apply (K (style_wallTexture value)), scene_step_call. reflexivity.
  - apply (K (style_floorTexture value)), scene_step_call. reflexivity.
  - apply (K (style_currentWallTexture texture)), scene_step_updateTextures.
  - apply (K (style_currentFloorTexture texture)), scene_step_updateTextures.
  - apply (K (style_onTileClick value)), scene_step_refl.
Qed.

Lemma mutations_geometry (ms : list Mutation) (r : Room) :
  geometry (mutations ms r) = geometry r /\
  parse_calls (mutations ms r) = parse_calls r.
Proof.
  unfold mutations. revert r.
  induction ms as [|m ms IH]; intros r; [split; reflexivity|].
  cbn [fold_left]. destruct (IH (mutate r m)) as [G P].
  destruct (mutate_geometry r m) as [G1 P1]. split; congruence.
Qed.

(** [getPosition] reads the geometry only. *)
Lemma getPosition_geometry (r r' : Room) (roomX roomY roomZ : num) (type : PlacementKind) :
  geometry r' = geometry r ->
  getPosition r' roomX roomY roomZ type = getPosition r roomX roomY roomZ type.
Proof.
  intros G. unfold getPosition, _getTilePositionWithOffset,
    _getObjectPositionWithOffset. rewrite G. reflexivity.
Qed.

Section Constructed.
Context {TileType : Type}.
Variable parseTileMapString : string -> option (list (list TileType)).
Variable parseTileMap : list (list TileType) -> option ParsedTileMap.
Variable getTileMapBounds : list (list ParsedTileType) -> XY -> Bounds.

(** The grid that the constructor hands to [parseTileMap]. *)
Definition normalizedTileMap (input : TileMap) : option (list (list TileType)) :=
  match input with
  | TileMapString s => parseTileMapString s
  | TileMapGrid g => Some g
  end.

(** The geometry the constructor derives from the parser's result. *)
Definition geometry_of (parsed : ParsedTileMap) : Geometry :=
  {| _wallOffsets := wallOffsets parsed;
     _positionOffsets := positionOffsets parsed;
     _maskOffsets := maskOffsets parsed;
     parsedTileMap := tilemap parsed;
     _tileMapBounds := getTileMapBounds (tilemap parsed) (wallOffsets parsed);
     _largestDiff := largestDiff parsed |}.

Lemma new_geometry (input : TileMap) (r : Room) :
  new parseTileMapString parseTileMap getTileMapBounds input = Some r ->
  exists grid parsed,
    normalizedTileMap input = Some grid /\
    parseTileMap grid = Some parsed /\
    geometry r = geometry_of parsed /\
    style r = initialStyle /\
    parse_calls r =
      match input with
      | TileMapString _ => [CallParseTileMapString]
      | TileMapGrid _ => []
      end ++ [CallParseTileMap; CallGetTileMapBounds].
Proof.
  unfold new. fold (normalizedTileMap input).
  destruct (normalizedTileMap input) as [grid|]; [|discriminate].
  destruct (parseTileMap grid) as [parsed|] eqn:Ep; [|discriminate].
  intros [= <-]. exists grid, parsed.
  split; [reflexivity|]. split; [exact Ep|].
  match goal with
  | |- context [updateTiles ?r0] =>
      destruct (scene_step_updateTiles r0) as (G & S & P)
  end.
  split; [exact G|]. split; [exact S|].
  rewrite parse_calls_call by reflexivity. rewrite P.
  unfold parse_calls. cbn [scene emptyScene calls].
  destruct input; reflexivity.
Qed.

(** [forEach] over a list of addresses with an idempotent assignment: the
    objects at the listed addresses are assigned, the others are untouched. *)
Lemma forEach_alter_lookup {A : Type} (f : A -> A) (l : list nat)
    (h : gmap nat A) (a : nat) :
  (forall w, f (f w) = f w) ->
  fold_left (fun h a => alter f a h) l h !! a =
    if decide (a ∈ l) then f <$> h !! a else h !! a.
Proof.
  intros Hf. revert h. induction l as [|b l IH]; intros h.
  - cbn. rewrite decide_False by apply not_elem_of_nil. reflexivity.
  - cbn [fold_left]. rewrite IH.
    destruct (decide (b = a)) as [->|Hne].
    + rewrite lookup_alter_eq.
      rewrite (decide_True (P := a ∈ a :: l)) by (apply elem_of_cons; left; reflexivity).
      destruct (decide (a ∈ l)); [|reflexivity].
      destruct (h !! a); cbn; [rewrite Hf|]; reflexivity.
    + rewrite lookup_alter_ne by exact Hne.
      destruct (decide (a ∈ l)) as [Hin|Hin].
      * rewrite decide_True by (apply elem_of_cons; right; exact Hin). reflexivity.
      * rewrite decide_False; [reflexivity|].
        intros [E|H']%elem_of_cons; [congruence|contradiction].
Qed.










(** C2. In a room built by the constructor, whatever style mutations
    followed, [getPosition] adds to [(roomX, roomY)] the wall offsets for
    [plane], the position offsets for [object] and nothing for [none], as the
    parser returned them, and projects with [base = 32] against the bounds
    that [getTileMapBounds] computed from the parsed tile map:
    [x = -minX + x*base - y*base] and
    [y = -minY + x*(base/2) + y*(base/2) - roomZ*32]. *)
Theorem getPosition_projection
    (input : TileMap) (r0 : Room) (ms : list Mutation)
    (roomX roomY roomZ : num) (type : PlacementKind) :
  new parseTileMapString parseTileMap getTileMapBounds input = Some r0 ->
  exists grid parsed,
    normalizedTileMap input = Some grid /\
    parseTileMap grid = Some parsed /\
    let bounds := getTileMapBounds (tilemap parsed) (wallOffsets parsed) in
    let x :=
      match type with
      | plane => roomX ⊕ x_ (wallOffsets parsed)
      | object => roomX ⊕ x_ (positionOffsets parsed)
      | none => roomX
      end in
    let y :=
      match type with
      | plane => roomY ⊕ y_ (wallOffsets parsed)
      | object => roomY ⊕ y_ (positionOffsets parsed)
      | none => roomY
      end in
    let base := of_Z 32 in
    getPosition (mutations ms r0) roomX roomY roomZ type =
      {| x_ := nneg (minX bounds) ⊕ x ⊗ base ⊖ y ⊗ base;
         y_ := nneg (minY bounds) ⊕ x ⊗ (base ⊘ of_Z 2) ⊕ y ⊗ (base ⊘ of_Z 2)
                 ⊖ roomZ ⊗ of_Z 32 |}.
Proof.
  intros Hnew.
  destruct (new_geometry input r0 Hnew) as (grid & parsed & Hg & Hp & G & _ & _).
  exists grid, parsed. split; [exact Hg|]. split; [exact Hp|].
  cbv zeta.
  rewrite (getPosition_geometry r0) by apply mutations_geometry.
  unfold getPosition, _getTilePositionWithOffset, _getObjectPositionWithOffset.
  rewrite G. destruct type; reflexivity.
Qed.

(** C3. Two calls of [getPosition] with the same arguments return the same
    result whatever style mutations happen between them, because no mutation
    writes the tile-map bounds or the offsets; in a constructed room the
    bounds are the ones [getTileMapBounds] returned in the constructor, and
    the only calls to the parser and to [getTileMapBounds] in the whole
    history are the constructor's. *)
Theorem getPosition_stable_under_style
    (r : Room) (ms : list Mutation)
    (roomX roomY roomZ : num) (kind : PlacementKind) :
  getPosition (mutations ms r) roomX roomY roomZ kind =
    getPosition r roomX roomY roomZ kind /\
  _tileMapBounds (geometry (mutations ms r)) = _tileMapBounds (geometry r) /\
  (forall m, _tileMapBounds (geometry (mutate r m)) = _tileMapBounds (geometry r)) /\
  (forall input,
     new parseTileMapString parseTileMap getTileMapBounds input = Some r ->
     exists parsed,
       _tileMapBounds (geometry (mutations ms r)) =
         getTileMapBounds (tilemap parsed) (wallOffsets parsed) /\
       parse_calls (mutations ms r) =
         match input with
         | TileMapString _ => [CallParseTileMapString]
         | TileMapGrid _ => []
         end ++ [CallParseTileMap; CallGetTileMapBounds]).
Proof.
  destruct (mutations_geometry ms r) as [G P].
  split; [apply getPosition_geometry, G|].
  split; [rewrite G; reflexivity|].
  split; [intros m; destruct (mutate_geometry r m) as [-> _]; reflexivity|].
  intros input Hnew.
  destruct (new_geometry input r Hnew) as (grid & parsed & _ & _ & G0 & _ & P0).
  exists parsed. rewrite G, P, G0, P0. split; reflexivity.
Qed.

End Constructed.

(** C7. The [wallHeight] setter stores the value and assigns
    [wallHeight + largestDiff * 32] to the [wallHeight] property of the wall
    object at every address of [_walls], in place. The wall list (so the
    number and the identities of the active walls), the floor and cursor
    lists, every other object, the parsed tile map and the rest of the
    geometry are as before; the only outgoing calls are [updateRoom],
    [disableCache] and [enableCache], so the parser is not called. *)
Theorem set_wallHeight_in_place (value : num) (r : Room) :
  let r' := set_wallHeight value r in
  (forall a, a ∈ _walls (scene r) ->
     wallHeap (scene r') !! a =
       wall_set_wallHeight (value ⊕ _largestDiff (geometry r) ⊗ of_Z 32)
         <$> wallHeap (scene r) !! a) /\
  (forall a, a ∉ _walls (scene r) ->
     wallHeap (scene r') !! a = wallHeap (scene r) !! a) /\
  _walls (scene r') = _walls (scene r) /\
  length (_walls (scene r')) = length (_walls (scene r)) /\
  _floor (scene r') = _floor (scene r) /\
  _cursors (scene r') = _cursors (scene r) /\
  _doorWall (scene r') = _doorWall (scene r) /\
  roomObjects (scene r') = roomObjects (scene r) /\
  floorHeap (scene r') = floorHeap (scene r) /\
  cursorHeap (scene r') = cursorHeap (scene r) /\
  nextAddress (scene r') = nextAddress (scene r) /\
  parsedTileMap (geometry r') = parsedTileMap (geometry r) /\
  geometry r' = geometry r /\
  style r' = style_wallHeight value (style r) /\
  calls (scene r') =
    calls (scene r) ++ [CallUpdateRoom; CallDisableCache; CallEnableCache] /\
  parse_calls r' = parse_calls r.
Proof.
  cbv zeta.
  assert (Hlook : forall a,
    wallHeap (scene (set_wallHeight value r)) !! a =
      if decide (a ∈ _walls (scene r))
      then wall_set_wallHeight (value ⊕ _largestDiff (geometry r) ⊗ of_Z 32)
             <$> wallHeap (scene r) !! a
      else wallHeap (scene r) !! a).
  { intros a. unfold set_wallHeight, _updateWallHeight, forEachWall, call.
    cbn. apply forEach_alter_lookup. reflexivity. }
  split; [intros a Ha; rewrite Hlook, decide_True by exact Ha; reflexivity|].
  split; [intros a Ha; rewrite Hlook, decide_False by exact Ha; reflexivity|].
  repeat split.
  - unfold set_wallHeight, _updateWallHeight, forEachWall, call. cbn.
    rewrite <- !app_assoc. reflexivity.
  - destruct (mutate_geometry r (SetWallHeight value)) as [_ P]. exact P.
Qed.


End RoomFacts.

(* ===================================================================== *)
(** * A small room, run on exact rationals *)
(* ===================================================================== *)

Section RoomExamples.
Import Room.
Local Existing Instance Q_JsNumber.
Local Open Scope num_scope.

Definition example_tiles : list (list ParsedTileType) :=
  [ [PWall outerCorner 0%Q None; PWall rowWall 0%Q None; PWall rowWall 0%Q (Some true)];
    [PDoor 0%Q; PTile 0%Q; PStairs 2 0%Q];
    [PWall colWall 0%Q None; PTile 1%Q; PWall innerCorner 0%Q None] ].

(** Stand-ins for the three helpers that are not part of the sources: they
    answer a fixed parse of a 3x3 map, whatever the input. *)
Definition example_parseTileMapString (s : string) : option (list (list nat)) :=
  Some [].

Definition example_parseTileMap (g : list (list nat)) : option ParsedTileMap :=
  Some {| largestDiff := 1%Q; tilemap := example_tiles;
          wallOffsets := {| x_ := 1%Q; y_ := 1%Q |};
          positionOffsets := {| x_ := 2%Q; y_ := 3%Q |};
          maskOffsets := {| x_ := 0%Q; y_ := 0%Q |} |}.

Definition example_getTileMapBounds
    (tiles : list (list ParsedTileType)) (offsets : XY) : Bounds :=
  {| minX := (-64)%Q; minY := (-32)%Q; maxX := 96%Q; maxY := 80%Q |}.

Definition example_new (input : TileMap) : option Room :=
  new example_parseTileMapString example_parseTileMap example_getTileMapBounds input.

Definition example_room : Room :=
  match example_new (TileMapGrid []) with
  | Some r => r
  | None =>
      {| geometry :=
           {| _wallOffsets := {| x_ := 0%Q; y_ := 0%Q |};
              _positionOffsets := {| x_ := 0%Q; y_ := 0%Q |};
              _maskOffsets := {| x_ := 0%Q; y_ := 0%Q |};
              parsedTileMap := [];
              _tileMapBounds := example_getTileMapBounds [] {| x_ := 0%Q; y_ := 0%Q |};
              _largestDiff := 0%Q |};
         style := initialStyle;
         scene := emptyScene [] |}
  end.

Example example_room_built : example_new (TileMapGrid []) = Some example_room.
Proof. reflexivity. Qed.

Example example_room_lists :
  _walls (scene example_room) = [0; 1; 2; 4; 11; 14; 15]%nat /\
  _floor (scene example_room) = [3; 6; 8; 12]%nat /\
  _cursors (scene example_room) = [5; 7; 9; 10; 13]%nat /\
  _doorWall (scene example_room) = Some 4%nat.
Proof. repeat split. Qed.

Example example_getPosition :
  let p := getPosition example_room 2%Q 3%Q 1%Q object in
  Qred (x_ p) = 0%Q /\ Qred (y_ p) = 160%Q.
Proof. split; reflexivity. Qed.

Example example_hideWalls_keeps_floor :
  _walls (scene (set_hideWalls true example_room)) = [] /\
  length (_floor (scene (set_hideWalls true example_room))) = 4%nat.
Proof. split; reflexivity. Qed.

Definition example_mutations : list Mutation :=
  [SetWallHeight 150%Q; SetHideFloor true; SetWallColor (Some "#ff0000");
   SetWallTexture (Some (TextureValue 7%nat)); WallTextureLoaded (Some 7%nat);
   SetTileHeight 4%Q; SetHideFloor false].

Lemma getPosition_projection_witness :
  exists grid parsed,
    normalizedTileMap example_parseTileMapString (TileMapGrid []) = Some grid /\
    example_parseTileMap grid = Some parsed /\
    getPosition (mutations example_mutations example_room) 2%Q 3%Q 1%Q object =
      {| x_ := nneg (minX (example_getTileMapBounds (tilemap parsed) (wallOffsets parsed)))
                 ⊕ (2%Q ⊕ x_ (positionOffsets parsed)) ⊗ of_Z 32
                 ⊖ (3%Q ⊕ y_ (positionOffsets parsed)) ⊗ of_Z 32;
         y_ := nneg (minY (example_getTileMapBounds (tilemap parsed) (wallOffsets parsed)))
                 ⊕ (2%Q ⊕ x_ (positionOffsets parsed)) ⊗ (of_Z 32 ⊘ of_Z 2)
                 ⊕ (3%Q ⊕ y_ (positionOffsets parsed)) ⊗ (of_Z 32 ⊘ of_Z 2)
                 ⊖ 1%Q ⊗ of_Z 32 |}.
Proof.
  exact (getPosition_projection example_parseTileMapString example_parseTileMap
           example_getTileMapBounds (TileMapGrid []) example_room
           example_mutations 2%Q 3%Q 1%Q object eq_refl).
Defined.

Lemma getPosition_stable_under_style_witness :
  getPosition (mutations example_mutations example_room) 2%Q 3%Q 1%Q plane =
    getPosition example_room 2%Q 3%Q 1%Q plane /\
  exists parsed,
    _tileMapBounds (geometry (mutations example_mutations example_room)) =
      example_getTileMapBounds (tilemap parsed) (wallOffsets parsed) /\
    parse_calls (mutations example_mutations example_room) =
      [CallParseTileMap; CallGetTileMapBounds].
Proof.
  destruct (getPosition_stable_under_style example_parseTileMapString
              example_parseTileMap example_getTileMapBounds example_room
              example_mutations 2%Q 3%Q 1%Q plane) as (H1 & _ & _ & H4).
  split; [exact H1|].
  exact (H4 (TileMapGrid []) eq_refl).
Defined.

Definition example_height : @num Q_JsNumber := 150%Q.

Lemma set_wallHeight_in_place_witness :
  wall_wallHeight <$> wallHeap (scene (set_wallHeight example_height example_room)) !! 4%nat =
    Some (example_height ⊕ 1%Q ⊗ of_Z 32) /\
  wallHeap (scene (set_wallHeight example_height example_room)) !! 3%nat =
    wallHeap (scene example_room) !! 3%nat.
Proof.
  destruct (set_wallHeight_in_place example_height example_room) as (Hin & Hout & _).
  split.
  - rewrite Hin.
    + reflexivity.
    + change (4%nat ∈ [0; 1; 2; 4; 11; 14; 15]%nat).
      do 3 (apply elem_of_cons; right). apply elem_of_cons. left. reflexivity.
  - apply Hout.
    change (3%nat ∉ [0; 1; 2; 4; 11; 14; 15]%nat).
    intros H. repeat (apply elem_of_cons in H; destruct H as [H|H]; [discriminate H|]).
    apply elem_of_nil in H. exact H.
Defined.


End RoomExamples.

(* ===================================================================== *)
(** * Properties of BaseAvatar *)
(* ===================================================================== *)

Section Preservation.
Context {S : Type}.
Variable P : S -> Prop.

(** [m] keeps [P], also when it throws. *)
Definition preserves {A : Type} (m : M S A) : Prop :=
  forall s, P s -> P (snd (m s)).

Lemma preserves_ret {A : Type} (a : A) : preserves (ret a).
Proof. intros s H. exact H. Qed.

Lemma preserves_throw {A : Type} (msg : string) : preserves (@throw S A msg).
Proof. intros s H. exact H. Qed.

Lemma preserves_gets {A : Type} (f : S -> A) : preserves (gets f).
Proof. intros s H. exact H. Qed.

Lemma preserves_modify (f : S -> S) :
  (forall s, P s -> P (f s)) -> preserves (modify f).
Proof. intros Hf s H. apply Hf, H. Qed.

Lemma preserves_bind {A B : Type} (m : M S A) (k : A -> M S B) :
  preserves m -> (forall a, preserves (k a)) -> preserves (bind m k).
Proof.
  intros Hm Hk s H. unfold bind. specialize (Hm s H).
  destruct (m s) as [[a|msg|] s']; cbn [snd] in *.
  - apply Hk, Hm.
  - exact Hm.
  - exact Hm.
Qed.

Lemma preserves_forEach {A : Type} (l : list A) (f : A -> M S unit) :
  (forall a, preserves (f a)) -> preserves (forEach l f).
Proof.
  intros Hf. induction l as [|a l IH]; cbn [forEach].
  - apply preserves_ret.
  - apply preserves_bind; [apply Hf|intros _; exact IH].
Qed.

Lemma preserves_repeatM (n : nat) (m : M S unit) :
  preserves m -> preserves (repeatM n m).
Proof.
  intros Hm. induction n as [|n IH]; cbn [repeatM].
  - apply preserves_ret.
  - apply preserves_bind; [exact Hm|intros _; exact IH].
Qed.

End Preservation.

Ltac preserves_step :=
  first
    [ apply preserves_ret
    | apply preserves_throw
    | apply preserves_gets
    | apply preserves_bind; [|intros ?]
    | apply preserves_forEach; intros ?
    | apply preserves_repeatM
    | match goal with
      | |- preserves _ (match ?x with _ => _ end) => destruct x
      end ].

Section AvatarFacts.
Import BaseAvatar.
Context {JN : JsNumber}.
Variable parseInt16 : string -> num.

(** The part of the state that the sprite methods never write. *)
Definition control (s : BaseAvatar) :=
  (_updateId s, requests s, _refreshLook s, _refreshFrame s,
   _nextLookOptions s, _lookOptions s, _avatarLoaderResult s,
   _currentFrame s, _dependencies s, subscriptions s).

(** A method that writes neither [control] nor the draw definition. *)
Definition keeps_look {A : Type} (m : M BaseAvatar A) : Prop :=
  forall c, preserves (fun s => (control s, _avatarDrawDefinition s) = c) m.

(** A method that does not write [control]. *)
Definition keeps_control {A : Type} (m : M BaseAvatar A) : Prop :=
  forall c, preserves (fun s => control s = c) m.

Lemma keeps_look_control {A : Type} (m : M BaseAvatar A) :
  keeps_look m -> keeps_control m.
Proof.
  intros K c s H.
  specialize (K (control s, _avatarDrawDefinition s) s eq_refl).
  cbn beta in K. apply (f_equal fst) in K. cbn [fst] in K. congruence.
Qed.

Ltac keeps_modify := apply preserves_modify; intros ? H; exact H.

Lemma keeps_look_updatePosition (definition : AvatarDrawDefinition) :
  keeps_look (_updatePosition definition).
Proof.
  intros c. unfold _updatePosition. repeat preserves_step. keeps_modify.
Qed.

Lemma keeps_look_createAsset (part : AvatarDrawPart) (asset : AvatarAsset) :
  keeps_look (createAsset parseInt16 part asset).
Proof.
  intros c. unfold createAsset, dependencies.
  repeat first [preserves_step | keeps_modify].
Qed.

Lemma keeps_look_updatePart (frame : Z) (part : AvatarDrawPart) :
  keeps_look (updatePart parseInt16 frame part).
Proof.
  intros c. unfold updatePart.
  repeat first [apply keeps_look_createAsset | preserves_step | keeps_modify].
Qed.

Lemma keeps_look_updateSpritesWith (definition : AvatarDrawDefinition) (frame : Z) :
  keeps_look (_updateSpritesWithAvatarDrawDefinition parseInt16 definition frame).
Proof.
  intros c. unfold _updateSpritesWithAvatarDrawDefinition, mounted.
  repeat first [apply keeps_look_updatePart | preserves_step | keeps_modify].
Qed.

Lemma keeps_look_updateFrame : keeps_look (_updateFrame parseInt16).
Proof.
  intros c. unfold _updateFrame, currentFrame.
  repeat first [apply keeps_look_updateSpritesWith
               | apply keeps_look_updatePosition
               | preserves_step | keeps_modify].
Qed.

Lemma keeps_control_updateFrame : keeps_control (_updateFrame parseInt16).
Proof. apply keeps_look_control, keeps_look_updateFrame. Qed.

Lemma keeps_control_updateSprites : keeps_control (_updateSprites parseInt16).
Proof.
  intros c. unfold _updateSprites, currentFrame.
  repeat first [apply (keeps_look_control _ (keeps_look_updateSpritesWith _ _))
               | apply (keeps_look_control _ (keeps_look_updatePosition _))
               | preserves_step | keeps_modify].
Qed.

(** ** Request ids *)

(** The id counter and the issued requests agree: no request carries an id
    above the counter, the latest request carries the counter itself, and
    while the counter is exact every earlier request carries a smaller id. *)
Definition counters_ok (s : BaseAvatar) : Prop :=
  0 <= _updateId s /\
  (forall r, r ∈ requests s -> requestId r <= _updateId s) /\
  (forall r, last (requests s) = Some r -> requestId r = _updateId s) /\
  (_updateId s < 2 ^ 53 ->
   forall older latest r,
     requests s = older ++ [latest] -> r ∈ older -> requestId r < _updateId s).

Lemma preserves_counters_of_control {A : Type} (m : M BaseAvatar A) :
  keeps_control m -> preserves counters_ok m.
Proof.
  intros K s H. specialize (K (control s) s eq_refl). cbn beta in K.
  unfold control in K. injection K as Hu Hr _ _ _ _ _ _ _ _.
  unfold counters_ok in *. rewrite Hu, Hr. exact H.
Qed.

Lemma reloadLook_eq (s : BaseAvatar) :
  _reloadLook s =
    (Normal tt,
     match _dependencies s, _nextLookOptions s with
     | Some _, Some options =>
         upd_requests
           (requests s ++ [{| requestId := js_increment (_updateId s);
                              request_lookOptions := options |}])
           (upd_updateId (js_increment (_updateId s)) s)
     | _, _ => s
     end).
Proof.
  unfold _reloadLook, mounted, bind, gets, ret, modify.
  destruct (_dependencies s); [|reflexivity].
  cbn [negb]. destruct (_nextLookOptions s); reflexivity.
Qed.

Lemma preserves_counters_reloadLook : preserves counters_ok _reloadLook.
Proof.
  intros s (H0 & Hle & Hlast & Hold). rewrite reloadLook_eq. cbn [snd].
  destruct (_dependencies s); [|repeat split; assumption].
  destruct (_nextLookOptions s) as [options|]; [|repeat split; assumption].
  unfold counters_ok. cbn [_updateId requests upd_requests upd_updateId].
  assert (Hinc : _updateId s <= js_increment (_updateId s)).
  { unfold js_increment. destruct (_updateId s <? 2 ^ 53); lia. }
  split; [lia|]. split; [|split].
  - intros r [Hr|Hr]%elem_of_app.
    + specialize (Hle r Hr). lia.
    + apply list_elem_of_singleton in Hr. subst r. cbn. lia.
  - intros r. rewrite last_snoc. intros [= <-]. reflexivity.
  - intros Hlt older latest r Heq Hr.
    apply app_inj_tail in Heq as [<- _].
    specialize (Hle r Hr).
    unfold js_increment in *. destruct (_updateId s <? 2 ^ 53) eqn:E; [lia|].
    apply Z.ltb_ge in E. lia.
Qed.

Ltac counters_modify := apply preserves_modify; intros ? H; exact H.

Lemma preserves_counters_tickerCallback :
  preserves counters_ok (tickerCallback parseInt16).
Proof.
  unfold tickerCallback.
  repeat first [ apply preserves_counters_reloadLook
               | apply preserves_counters_of_control, keeps_control_updateFrame
               | preserves_step | counters_modify ].
Qed.

Lemma preserves_counters_handle (e : Event) :
  preserves counters_ok (handle parseInt16 e).
Proof.
  destruct e; cbn [handle];
    unfold set_dependencies, _handleDependenciesSet, dependencies,
      set_lookOptions, _updateLookOptions, set_currentFrame, tick,
      _reloadLook_then, destroy;
    repeat first [ apply preserves_counters_reloadLook
                 | apply preserves_counters_tickerCallback
                 | apply preserves_counters_of_control, keeps_control_updateSprites
                 | preserves_step | counters_modify ].
Qed.

Lemma counters_ok_new (options : LookOptions) : counters_ok (new options).
Proof.
  unfold counters_ok. cbn. split; [lia|]. split; [|split].
  - intros r Hr. apply elem_of_nil in Hr. contradiction.
  - discriminate.
  - intros _ older latest r Heq. destruct older; discriminate Heq.
Qed.

Lemma counters_ok_run (es : list Event) (s : BaseAvatar) :
  counters_ok s -> counters_ok (run parseInt16 es s).
Proof.
  unfold run. revert s. induction es as [|e es IH]; intros s H; [exact H|].
  cbn [fold_left]. apply IH. apply preserves_counters_handle, H.
Qed.

(** A response whose id is not the current one changes nothing. *)
Lemma reloadLook_then_stale (request : Request) (result : AvatarLoaderResult)
    (s : BaseAvatar) :
  requestId request <> _updateId s ->
  _reloadLook_then parseInt16 request result s = (Normal tt, s).
Proof.
  intros Hne. unfold _reloadLook_then, bind, gets.
  apply Z.eqb_neq in Hne. rewrite Hne. reflexivity.
Qed.

Lemma preserves_updateId_of_control {A : Type} (m : M BaseAvatar A) (u : Z) :
  keeps_control m -> preserves (fun s => _updateId s = u) m.
Proof.
  intros K s H. specialize (K (control s) s eq_refl). cbn beta in K.
  unfold control in K. injection K as Hu _ _ _ _ _ _ _ _ _. congruence.
Qed.

(** No response, applied or not, moves the id counter. *)
Lemma reloadLook_then_updateId (request : Request) (result : AvatarLoaderResult)
    (s : BaseAvatar) :
  _updateId (state_after (_reloadLook_then parseInt16 request result) s) = _updateId s.
Proof.
  unfold state_after.
  assert (K : preserves (fun s' => _updateId s' = _updateId s)
                (_reloadLook_then parseInt16 request result));
    [|exact (K s eq_refl)].
  unfold _reloadLook_then.
  repeat first [ apply preserves_updateId_of_control, keeps_control_updateSprites
               | preserves_step | counters_modify ].
Qed.

(** A response whose id is the current one is applied: the loader result
    and the look are stored and the pending look is cleared. *)
Lemma reloadLook_then_current (request : Request) (result : AvatarLoaderResult)
    (s : BaseAvatar) :
  requestId request = _updateId s ->
  let s' := state_after (_reloadLook_then parseInt16 request result) s in
  _avatarLoaderResult s' = Some result /\
  _lookOptions s' = Some (request_lookOptions request) /\
  _nextLookOptions s' = None.
Proof.
  intros He. cbv zeta. unfold state_after, _reloadLook_then.
  cbv beta iota delta [bind gets modify].
  apply Z.eqb_eq in He. rewrite He.
  cbv beta iota delta [negb bind gets modify].
  match goal with
  | |- context [_updateSprites _ ?s0] =>
      pose proof (keeps_control_updateSprites (control s0) s0 eq_refl) as K
  end.
  cbn beta in K. unfold control in K.
  injection K as _ _ _ _ Hn Hl Hr _ _ _.
  rewrite Hn, Hl, Hr. repeat split.
Qed.

(** C1. In every state that an avatar reaches, the latest request handed to
    the loader carries the current id [_updateId]. A response with any other
    id leaves the whole state as it is (render state included) and returns
    normally; a response with the current id is applied. While the id
    counter is exact, every request issued before the latest one is such a
    stale request. A stale response has no effect whether it arrives before
    or after another response. *)
Theorem stale_responses_are_discarded (options : LookOptions) (es : list Event) :
  let s := run parseInt16 es (new options) in
  (forall latest, last (requests s) = Some latest -> requestId latest = _updateId s) /\
  (forall request result,
     requestId request <> _updateId s ->
     _reloadLook_then parseInt16 request result s = (Normal tt, s)) /\
  (forall request result,
     requestId request = _updateId s ->
     let s' := state_after (_reloadLook_then parseInt16 request result) s in
     _avatarLoaderResult s' = Some result /\
     _lookOptions s' = Some (request_lookOptions request) /\
     _nextLookOptions s' = None) /\
  (_updateId s < 2 ^ 53 ->
   forall older latest request result,
     requests s = older ++ [latest] -> request ∈ older ->
     _reloadLook_then parseInt16 request result s = (Normal tt, s)) /\
  (forall stale result other result',
     requestId stale <> _updateId s ->
     run parseInt16 [Resolved stale result; Resolved other result'] s =
       run parseInt16 [Resolved other result'] s /\
     run parseInt16 [Resolved other result'; Resolved stale result] s =
       run parseInt16 [Resolved other result'] s).
Proof.
  cbv zeta.
  pose proof (counters_ok_run es (new options) (counters_ok_new options))
    as (H0 & Hle & Hlast & Hold).
  set (s := run parseInt16 es (new options)) in *.
  split; [exact Hlast|].
  split; [intros request result; apply reloadLook_then_stale|].
  split; [intros request result; apply reloadLook_then_current|].
  split.
  - intros Hlt older latest request result Heq Hin.
    apply reloadLook_then_stale.
    specialize (Hold Hlt older latest request Heq Hin). lia.
  - intros stale result other result' Hne. unfold run. cbn [fold_left handle].
    split.
    + unfold state_after at 2. rewrite reloadLook_then_stale by exact Hne.
      reflexivity.
    + unfold state_after at 1. rewrite reloadLook_then_stale; [reflexivity|].
      rewrite reloadLook_then_updateId. exact Hne.
Qed.

(** ** Frame cycling *)




(** ** Look assignment *)




Lemma tickerCallback_idle (s : BaseAvatar) :
  _refreshLook s = false ->
  let s' := snd (tickerCallback parseInt16 s) in
  requests s' = requests s /\ _updateId s' = _updateId s /\ _refreshLook s' = false.
Proof.
  intros Hl. cbv zeta. unfold tickerCallback.
  cbv beta iota delta [bind gets ret]. rewrite Hl.
  destruct (_refreshFrame s); [|repeat split; assumption].
  cbv beta iota delta [bind gets ret modify].
  match goal with
  | |- context [_updateFrame _ ?s0] => set (st := s0)
  end.
  pose proof (keeps_control_updateFrame (control st) st eq_refl) as K.
  cbn beta in K. unfold control in K. injection K as Hu Hr Hf _ _ _ _ _ _ _.
  rewrite Hu, Hr, Hf. subst st. repeat split. exact Hl.
Qed.

Lemma tickerCallback_dirty (s : BaseAvatar) (options : LookOptions) :
  _refreshLook s = true -> is_Some (_dependencies s) ->
  _nextLookOptions s = Some options ->
  let s' := snd (tickerCallback parseInt16 s) in
  requests s' =
    requests s ++ [{| requestId := js_increment (_updateId s);
                      request_lookOptions := options |}] /\
  _updateId s' = js_increment (_updateId s) /\
  _refreshLook s' = false.
Proof.
  intros Hl [d Hd] Hn. cbv zeta. unfold tickerCallback.
  cbv beta iota delta [bind gets ret]. rewrite Hl.
  cbv beta iota delta [bind gets ret modify]. rewrite reloadLook_eq.
  cbn [_dependencies _nextLookOptions upd_refreshLook]. rewrite Hd, Hn.
  cbn [_refreshFrame upd_requests upd_updateId upd_refreshLook].
  destruct (_refreshFrame s); [|repeat split].
  cbv beta iota delta [bind gets ret modify].
  match goal with
  | |- context [_updateFrame _ ?s0] => set (st := s0)
  end.
  pose proof (keeps_control_updateFrame (control st) st eq_refl) as K.
  cbn beta in K. unfold control in K. injection K as Hu Hr Hf _ _ _ _ _ _ _.
  rewrite Hu, Hr, Hf. subst st. repeat split.
Qed.

(** A tick on an avatar whose look is not dirty issues no request. *)
Lemma tick_idle (s : BaseAvatar) :
  _refreshLook s = false ->
  requests (state_after (tick parseInt16) s) = requests s /\
  _refreshLook (state_after (tick parseInt16) s) = false.
Proof.
  intros Hl. unfold state_after, tick. cbv beta iota delta [bind gets].
  assert (K : preserves (fun s' => requests s' = requests s /\ _refreshLook s' = false)
                (repeatM (subscriptions s) (tickerCallback parseInt16))).
  { apply preserves_repeatM. intros s0 [Hr Hf].
    destruct (tickerCallback_idle s0 Hf) as (H1 & _ & H3).
    split; congruence. }
  apply K. split; [reflexivity|exact Hl].
Qed.

(** A tick on a mounted avatar whose look is dirty issues exactly one
    request, for the pending look. *)
Lemma tick_dirty (s : BaseAvatar) (options : LookOptions) :
  _refreshLook s = true -> is_Some (_dependencies s) ->
  _nextLookOptions s = Some options -> (0 < subscriptions s)%nat ->
  requests (state_after (tick parseInt16) s) =
    requests s ++ [{| requestId := js_increment (_updateId s);
                      request_lookOptions := options |}] /\
  _refreshLook (state_after (tick parseInt16) s) = false.
Proof.
  intros Hl Hd Hn Hs. unfold state_after, tick. cbv beta iota delta [bind gets].
  destruct (subscriptions s) as [|k]; [lia|]. cbn [repeatM].
  destruct (tickerCallback_dirty s options Hl Hd Hn) as (H1 & _ & H3).
  unfold bind.
  destruct (tickerCallback parseInt16 s) as [[[]|msg|] s1]; cbn [snd] in *;
    try (split; assumption).
  assert (K : preserves (fun s' => requests s' = requests s1 /\ _refreshLook s' = false)
                (repeatM k (tickerCallback parseInt16))).
  { apply preserves_repeatM. intros s0 [Hr Hf].
    destruct (tickerCallback_idle s0 Hf) as (H1' & _ & H3').
    split; congruence. }
  destruct (K s1 (conj eq_refl H3)) as [K1 K2]. split; congruence.
Qed.




End AvatarFacts.

(* ===================================================================== *)
(** * An avatar, run on exact rationals *)
(* ===================================================================== *)

Section AvatarExamples.
Import BaseAvatar.
Local Existing Instance Q_JsNumber.

(** A stand-in for [parseInt(s, 16)]; no example below looks at a tint. *)
Definition example_parseInt16 (s : string) : @num Q_JsNumber := 0%Q.

Definition example_dependencies : BaseAvatarDependencies :=
  {| hitDetection := 0; animationTicker := 1; avatarLoader := 2 |}.

(** [{ look: "hd-180-1", actions: new Set(), direction: 2 }] *)
Definition example_look : LookOptions :=
  {| look := "hd-180-1"; actions := []; direction := 2;
     item := None; effect := None |}.

Definition example_look_wave : LookOptions :=
  {| look := "hd-180-1"; actions := ["wav"; "sit"]; direction := 2;
     item := None; effect := None |}.


Definition example_asset (id : string) : AvatarAsset :=
  {| fileId := id; asset_x := 0%Q; asset_y := 0%Q; mirror := false |}.

Definition example_part : AvatarDrawPart :=
  {| assets := [example_asset "a"; example_asset "b"; example_asset "c"];
     color := None; mode := just_image |}.

Definition example_result : AvatarLoaderResult :=
  {| getDrawDefinition := fun _ =>
       {| parts := [example_part]; offsetX := 0%Q; offsetY := 0%Q |};
     getTexture := fun _ => Some 0%nat |}.

(** The avatar of [fromShroom]: constructed with a look and mounted. *)
Definition example_avatar : BaseAvatar :=
  run example_parseInt16 [SetDependencies example_dependencies] (new example_look).

Example example_avatar_requested :
  requests example_avatar =
    [{| requestId := 1; request_lookOptions := example_look |}] /\
  lookOptions example_avatar = (Normal example_look, example_avatar).
Proof. split; reflexivity. Qed.


(** An avatar whose look has been applied. *)
Definition example_applied : BaseAvatar :=
  run example_parseInt16
    [SetDependencies example_dependencies;
     Resolved {| requestId := 1; request_lookOptions := example_look_wave |}
       example_result]
    (new example_look_wave).

Example example_applied_look :
  _lookOptions example_applied = Some example_look_wave /\
  _nextLookOptions example_applied = None /\
  (children <$> _container example_applied) = Some [0%nat].
Proof. repeat split. Qed.



(** The setter does not consult the pending look: with look "wave" applied
    and the plain look pending, assigning "wave" again changes nothing, and
    the pending plain look stays pending. *)
Example pending_look_not_consulted :
  let s := state_after (set_lookOptions example_look) example_applied in
  _nextLookOptions s = Some example_look /\
  set_lookOptions example_look_wave s = (Normal tt, s).
Proof. split; reflexivity. Qed.

(** Two requests in flight: the first from mounting, the second from the
    tick after a new look was assigned. *)
Definition example_two_requests : list Event :=
  [SetDependencies example_dependencies; SetLookOptions example_look_wave; Tick].

Definition example_first : Request :=
  {| requestId := 1; request_lookOptions := example_look |}.

Definition example_second : Request :=
  {| requestId := 2; request_lookOptions := example_look_wave |}.

Example example_two_requests_issued :
  requests (run example_parseInt16 example_two_requests (new example_look)) =
    [example_first; example_second] /\
  _updateId (run example_parseInt16 example_two_requests (new example_look)) = 2.
Proof. split; reflexivity. Qed.

Lemma stale_responses_are_discarded_witness :
  let s := run example_parseInt16 example_two_requests (new example_look) in
  _reloadLook_then example_parseInt16 example_first example_result s = (Normal tt, s) /\
  run example_parseInt16
      [Resolved example_first example_result; Resolved example_second example_result] s =
    run example_parseInt16 [Resolved example_second example_result] s /\
  run example_parseInt16
      [Resolved example_second example_result; Resolved example_first example_result] s =
    run example_parseInt16 [Resolved example_second example_result] s /\
  _lookOptions (run example_parseInt16 [Resolved example_second example_result] s) =
    Some example_look_wave.
Proof.
  cbv zeta.
  pose proof (stale_responses_are_discarded example_parseInt16 example_look
                example_two_requests) as T.
  cbv zeta in T.
  set (s := run example_parseInt16 example_two_requests (new example_look)) in *.
  assert (Hu : _updateId s = 2) by (vm_compute; reflexivity).
  assert (Hr : requests s = [example_first] ++ [example_second])
    by (vm_compute; reflexivity).
  destruct T as (_ & _ & Hcur & Hold & Horder).
  assert (Hne : requestId example_first <> _updateId s)
    by (rewrite Hu; discriminate).
  assert (Hlt : _updateId s < 2 ^ 53) by (rewrite Hu; reflexivity).
  split; [|split; [|split]].
  - apply (Hold Hlt [example_first] example_second); [exact Hr|].
    apply elem_of_cons. left. reflexivity.
  - exact (proj1 (Horder example_first example_result example_second
                    example_result Hne)).
  - exact (proj2 (Horder example_first example_result example_second
                    example_result Hne)).
  - change (_lookOptions
              (state_after
                 (_reloadLook_then example_parseInt16 example_second example_result) s) =
            Some (request_lookOptions example_second)).
    apply (Hcur example_second example_result). rewrite Hu. reflexivity.
Defined.


(** Outside the domain of frame cycling: a negative frame index or a part
    without assets selects no asset, and the sprite rebuild throws. *)
Example frameAsset_outside_domain :
  frameAsset example_part (-1) = None /\
  frameAsset {| assets := []; color := None; mode := just_image |} 0 = None /\
  fst (updatePart example_parseInt16 (-1) example_part example_applied) =
    Throw "TypeError: Cannot read properties of undefined (reading 'fileId')".
Proof. repeat split. Qed.

End AvatarExamples.

(* ===================================================================== *)
(** * The lifecycle of a room object *)
(* ===================================================================== *)

Section RoomObjectLifecycle.
Import RoomObject.






(** [destroy] in every state, with two units of fuel or more. *)
Lemma destroy_cases (fuel : nat) (o : RoomObject) :
  destroy (S (S fuel)) o =
    if _isDestroyed o then (Normal tt, o)
    else
      match _context o with
      | None => (Throw "Invalid context", set_isDestroyed true o)
      | Some ctx =>
          (Normal tt,
           {| _context := None; _isDestroyed := true;
              calls := calls o ++ [CallRemoveRoomObject (roomObjectContainer ctx);
                                   CallDestroyed] |})
      end.
Proof.
  destruct (_isDestroyed o) eqn:Hd.
  - apply destroy_flagged, Hd.
  - destruct (_context o) as [ctx|] eqn:Hc.
    + apply destroy_attached; assumption.
    + rewrite destroy_unfold. unfold bind, gets, modify, getRoomContext, bind, gets, throw.
      rewrite Hd. cbn [_context set_isDestroyed]. rewrite Hc. reflexivity.
Qed.





(** X3. [destroy] on an object that was never attached throws "Invalid
    context" after it has set the flag, and calls neither the container nor
    the hook; from then on [destroy] returns silently, and [setParent] still
    attaches the object and clears the flag. *)
Theorem destroy_before_attach (fuel : nat) (o : RoomObject) (room : IRoomContext) :
  _context o = None -> _isDestroyed o = false ->
  let o1 := set_isDestroyed true o in
  destroy (S (S fuel)) o = (Throw "Invalid context", o1) /\
  calls o1 = calls o /\
  destroy (S (S fuel)) o1 = (Normal tt, o1) /\
  setParent room o1 =
    (Normal tt,
     {| _context := Some room; _isDestroyed := false;
        calls := calls o ++ [CallRegistered] |}).
Proof.
  intros Hc Hd. cbv zeta.
  split; [rewrite destroy_cases, Hd, Hc; reflexivity|].
  split; [reflexivity|].
  split; [apply destroy_flagged; reflexivity|].
  rewrite setParent_unattached by exact Hc. reflexivity.
Qed.


Lemma destroy_before_attach_witness :
  destroy 2 new = (Throw "Invalid context", set_isDestroyed true new) /\
  fst (setParent (room_ctx 1) (set_isDestroyed true new)) = Normal tt.
Proof.
  destruct (destroy_before_attach 0 new (room_ctx 1) eq_refl eq_refl)
    as (H1 & _ & _ & H4).
  split; [exact H1|]. rewrite H4. reflexivity.
Defined.

End RoomObjectLifecycle.

(* ===================================================================== *)
(** * The tile rebuild as a sequence of emissions *)
(* ===================================================================== *)

Section RoomRebuild.
Import Room.
Context {JN : JsNumber}.
Local Open Scope num_scope.

(** [registerWall(new Wall(...))], [registerTile(new Tile(...))]: an object
    is allocated and handed to its register method. For the door the wall is
    also stored in [_doorWall]. *)
Definition emitWall (w : Wall) (r : Room) : Room :=
  let '(a, r1) := newWall w r in registerWall a r1.

Definition emitDoorWall (w : Wall) (r : Room) : Room :=
  let '(a, r1) := newWall w r in
  with_scene (scene_doorWall (Some a)) (registerWall a r1).

Definition emitFloor (f : FloorObject) (r : Room) : Room :=
  let '(a, r1) := newFloor f r in registerTile a r1.

Definition floor_tileHeight (f : FloorObject) : num :=
  match f with FloorTile t => tile_tileHeight t | FloorStair s => stair_tileHeight s end.

Definition floor_texture (f : FloorObject) : option Texture :=
  match f with FloorTile t => tile_texture t | FloorStair s => stair_texture s end.

Definition floor_color (f : FloorObject) : option string :=
  match f with FloorTile t => tile_color t | FloorStair s => stair_color s end.

(** What the rebuild passes to every wall and floor constructor: the room's
    current dimensions; the current wall texture for a wall, except for the
    two halves of an inner corner (the walls with [side: false]); and no
    texture for a floor object. *)
Definition built_wall (r : Room) (w : Wall) : Prop :=
  wall_tileHeight w = tileHeight r /\
  wall_wallHeight w = wallHeightWithZ r /\
  wall_wallDepth w = wallDepth r /\
  (wall_side w = None -> wall_texture w = _currentWallTexture (style r)).

Definition built_floor (r : Room) (f : FloorObject) : Prop :=
  floor_tileHeight f = tileHeight r /\ floor_texture f = None.

Inductive emission (r : Room) : Room -> Prop :=
| emit_wall (w : Wall) : built_wall r w -> emission r (emitWall w r)
| emit_doorWall (w : Wall) : built_wall r w -> emission r (emitDoorWall w r)
| emit_floor (f : FloorObject) : built_floor r f -> emission r (emitFloor f r)
| emit_cursor (p : RoomPosition) (d : bool) : emission r (registerTileCursor p d r).

Ltac built :=
  repeat split; try (intros H; first [discriminate H | reflexivity]).

Ltac emit_last :=
  first
    [ eapply rtc_r; [|apply emit_cursor]
    | eapply rtc_r; [|apply emit_doorWall; built]
    | eapply rtc_r; [|apply emit_wall; built]
    | eapply rtc_r; [|apply emit_floor; built] ].

Lemma updateTiles_cell_emissions (x y : nat) (tile : ParsedTileType) (r : Room) :
  rtc emission r (updateTiles_cell x y tile r).
Proof.
  destruct tile as [z|z|[] h hb|k z|];
    cbv beta iota zeta delta [updateTiles_cell getWallDirection];
    repeat emit_last; apply rtc_refl.
Qed.

(** ** What one emission does *)

Inductive Kind : Type := KWall | KFloor | KCursor.

Definition same_kind (k k' : Kind) : bool :=
  match k, k' with
  | KWall, KWall | KFloor, KFloor | KCursor, KCursor => true
  | _, _ => false
  end.

Definition listOf (k : Kind) (r : Room) : list nat :=
  match k with
  | KWall => _walls (scene r)
  | KFloor => _floor (scene r)
  | KCursor => _cursors (scene r)
  end.

Definition refOf (k : Kind) (a : nat) : ObjRef :=
  match k with KWall => RefWall a | KFloor => RefFloor a | KCursor => RefCursor a end.

(** Whether the register method of the kind returns early. *)
Definition skipped (k : Kind) (r : Room) : bool :=
  match k with
  | KWall => hideWalls r || hideFloor r
  | KFloor => hideFloor r
  | KCursor => false
  end.

(** The object of kind [k] at address [a], if allocated, satisfies what the
    rebuild passes to its constructor in room [r0]. *)
Definition holds (k : Kind) (r0 r : Room) (a : nat) : Prop :=
  match k with
  | KWall => exists w, wallHeap (scene r) !! a = Some w /\ built_wall r0 w
  | KFloor => exists f, floorHeap (scene r) !! a = Some f /\ built_floor r0 f
  | KCursor => is_Some (cursorHeap (scene r) !! a)
  end.

(** [r'] is [r] after an object of kind [k] was allocated at the next
    address and, unless its register method returned early, appended to its
    list and to [roomObjects] and given its parent. *)
Definition emitted (k : Kind) (r r' : Room) : Prop :=
  let a := nextAddress (scene r) in
  let new := if skipped k r then [] else [a] in
  geometry r' = geometry r /\ style r' = style r /\
  nextAddress (scene r') = S a /\
  (forall k', listOf k' r' = listOf k' r ++ if same_kind k k' then new else []) /\
  roomObjects (scene r') = roomObjects (scene r) ++ (refOf k <$> new) /\
  calls (scene r') = calls (scene r) ++ (CallSetParent <$> (refOf k <$> new)) /\
  holds k r r' a /\
  (forall b, b <> a ->
     wallHeap (scene r') !! b = wallHeap (scene r) !! b /\
     floorHeap (scene r') !! b = floorHeap (scene r) !! b /\
     cursorHeap (scene r') !! b = cursorHeap (scene r) !! b).

Ltac emission_unfold :=
  unfold emitted, emitWall, emitDoorWall, emitFloor, registerTileCursor,
    newWall, newFloor, newTileCursor, registerWall, registerTile, addRoomObject,
    call, skipped, holds, hideWalls, hideFloor, listOf, refOf;
  cbn [with_scene scene style geometry snd fst scene_doorWall scene_cursors
       scene_walls scene_floor scene_roomObjects scene_calls scene_wallHeap
       scene_floorHeap scene_cursorHeap scene_nextAddress calls _walls _floor
       _cursors roomObjects nextAddress wallHeap floorHeap cursorHeap _doorWall].

Ltac emission_finish :=
  repeat split;
    first
      [ rewrite app_nil_r; reflexivity
      | reflexivity
      | match goal with
        | |- forall k' : Kind, _ => intros []; cbn; rewrite ?app_nil_r; reflexivity
        | |- _ = _ => apply lookup_insert_ne; congruence
        | |- exists _, _ => eexists; split; [apply lookup_insert_eq|assumption]
        | |- is_Some _ => rewrite lookup_insert_eq; eauto
        end ].

Lemma emission_emitted (r r' : Room) :
  emission r r' -> exists k, emitted k r r'.
Proof.
  intros [w Hw|w Hw|f Hf|p d].
  - exists KWall. emission_unfold.
    destruct (_hideWalls (style r) || _hideFloor (style r)); emission_unfold;
      emission_finish.
  - exists KWall. emission_unfold.
    destruct (_hideWalls (style r) || _hideFloor (style r)); emission_unfold;
      emission_finish.
  - exists KFloor. emission_unfold.
    destruct (_hideFloor (style r)); emission_unfold; emission_finish.
  - exists KCursor. emission_unfold. emission_finish.
Qed.

(** ** Invariants of the active lists *)

Definition active (r : Room) : list nat :=
  _walls (scene r) ++ _floor (scene r) ++ _cursors (scene r).

Definition allocated (k : Kind) (r : Room) (a : nat) : Prop :=
  match k with
  | KWall => is_Some (wallHeap (scene r) !! a)
  | KFloor => is_Some (floorHeap (scene r) !! a)
  | KCursor => is_Some (cursorHeap (scene r) !! a)
  end.

(** Every active address was allocated, for an object of the class of its
    list, and is listed once. *)
Definition wellFormed (r : Room) : Prop :=
  NoDup (active r) /\
  (forall a, a ∈ active r -> (a < nextAddress (scene r))%nat) /\
  (forall k a, a ∈ listOf k r -> allocated k r a).

(** Every active wall and floor object carries the room's dimensions. *)
Definition synced (r : Room) : Prop :=
  (forall a w, a ∈ _walls (scene r) -> wallHeap (scene r) !! a = Some w ->
     built_wall r w) /\
  (forall a f, a ∈ _floor (scene r) -> floorHeap (scene r) !! a = Some f ->
     floor_tileHeight f = tileHeight r).

(** No active floor object has a texture. *)
Definition untextured (r : Room) : Prop :=
  forall a f, a ∈ _floor (scene r) -> floorHeap (scene r) !! a = Some f ->
    floor_texture f = None.

Definition activeRefs (r : Room) : list ObjRef :=
  (RefWall <$> _walls (scene r)) ++ (RefFloor <$> _floor (scene r))
    ++ (RefCursor <$> _cursors (scene r)).

(** Since [r0], exactly the active objects were given their parent and
    pushed on [roomObjects], each once, and nothing else was called. *)
Definition attachedSince (r0 r : Room) : Prop :=
  exists reg,
    roomObjects (scene r) = roomObjects (scene r0) ++ reg /\
    calls (scene r) = calls (scene r0) ++ (CallSetParent <$> reg) /\
    reg ≡ₚ activeRefs r.

Lemma active_elem (r : Room) (a : nat) :
  a ∈ active r <-> exists k, a ∈ listOf k r.
Proof.
  unfold active. rewrite !elem_of_app. split.
  - intros [H|[H|H]]; [exists KWall|exists KFloor|exists KCursor]; exact H.
  - intros [[] H]; cbn in H; auto.
Qed.

Lemma built_wall_ext (r r' : Room) (w : Wall) :
  geometry r' = geometry r -> style r' = style r ->
  built_wall r w -> built_wall r' w.
Proof.
  unfold built_wall, tileHeight, wallHeightWithZ, wallHeight, wallDepth.
  intros -> ->. auto.
Qed.

Lemma listOf_emitted (k k' : Kind) (r r' : Room) (a : nat) :
  emitted k r r' ->
  a ∈ listOf k' r' <->
    a ∈ listOf k' r \/
    (same_kind k k' = true /\ skipped k r = false /\ a = nextAddress (scene r)).
Proof.
  intros (_ & _ & _ & L & _). rewrite (L k'), elem_of_app.
  destruct (same_kind k k'); [destruct (skipped k r)|].
  - rewrite elem_of_nil. intuition discriminate.
  - rewrite list_elem_of_singleton. intuition.
  - rewrite elem_of_nil. intuition discriminate.
Qed.

Lemma active_emitted (k : Kind) (r r' : Room) :
  emitted k r r' ->
  active r' ≡ₚ (if skipped k r then [] else [nextAddress (scene r)]) ++ active r.
Proof.
  intros (_ & _ & _ & L & _). unfold active.
  change (_walls (scene r')) with (listOf KWall r').
  change (_floor (scene r')) with (listOf KFloor r').
  change (_cursors (scene r')) with (listOf KCursor r').
  rewrite (L KWall), (L KFloor), (L KCursor).
  destruct (skipped k r).
  - destruct k; cbn; rewrite ?app_nil_r; reflexivity.
  - destruct k; cbn [same_kind listOf app]; rewrite ?app_nil_r.
    + rewrite <- app_assoc. cbn [app]. symmetry. apply Permutation_middle.
    + rewrite <- (app_assoc (_floor (scene r))). cbn [app].
      rewrite (app_assoc (_walls (scene r))). symmetry.
      rewrite <- (app_assoc (_walls (scene r))). 
      change (_walls (scene r) ++ _floor (scene r)
                ++ nextAddress (scene r) :: _cursors (scene r))
        with (_walls (scene r) ++ (_floor (scene r)
                ++ nextAddress (scene r) :: _cursors (scene r))).
      rewrite <- Permutation_middle. rewrite <- Permutation_middle. reflexivity.
    + rewrite !app_assoc. symmetry. apply Permutation_cons_append.
Qed.

Lemma wellFormed_emitted (k : Kind) (r r' : Room) :
  emitted k r r' -> wellFormed r -> wellFormed r'.
Proof.
  intros E (Hnd & Hb & Ha).
  pose proof (active_emitted k r r' E) as Hp.
  destruct E as (G & S & N & L & O & C & H & U).
  assert (Hfresh : nextAddress (scene r) ∉ active r).
  { intros Hin. specialize (Hb _ Hin). lia. }
  split; [|split].
  - rewrite Hp. destruct (skipped k r); [exact Hnd|].
    cbn [app]. apply NoDup_cons. split; assumption.
  - intros a. rewrite Hp, N. destruct (skipped k r); cbn [app].
    + intros Hin. specialize (Hb _ Hin). lia.
    + intros [->|Hin]%elem_of_cons; [lia|]. specialize (Hb _ Hin). lia.
  - intros k' a. rewrite (L k'), elem_of_app. intros [Hin|Hin].
    + assert (Hne : a <> nextAddress (scene r)).
      { intros ->. apply Hfresh, active_elem. exists k'. exact Hin. }
      specialize (Ha k' a Hin). destruct (U a Hne) as (Uw & Uf & Uc).
      destruct k'; unfold allocated in *; congruence.
    + destruct (same_kind k k') eqn:Ek; [|apply elem_of_nil in Hin; contradiction].
      destruct (skipped k r); [apply elem_of_nil in Hin; contradiction|].
      apply list_elem_of_singleton in Hin. subst a.
      destruct k, k'; try discriminate Ek; unfold holds, allocated in *.
      * destruct H as (w & -> & _). eauto.
      * destruct H as (f & -> & _). eauto.
      * exact H.
Qed.

Lemma fresh_address (r : Room) (k : Kind) (a : nat) :
  wellFormed r -> a ∈ listOf k r -> a <> nextAddress (scene r).
Proof.
  intros (_ & Hb & _) Hin ->.
  assert (H : nextAddress (scene r) ∈ active r) by (apply active_elem; eauto).
  specialize (Hb _ H). lia.
Qed.

Lemma synced_emitted (k : Kind) (r r' : Room) :
  emitted k r r' -> wellFormed r -> synced r -> synced r'.
Proof.
  intros E Hwf [Hw Hf].
  pose proof (listOf_emitted k KWall r r') as LW.
  pose proof (listOf_emitted k KFloor r r') as LF.
  specialize (fun a => LW a E). specialize (fun a => LF a E).
  destruct E as (G & S & N & L & O & C & H & U). split.
  - intros a w Hin Hl. apply (built_wall_ext r r' w G S).
    apply (LW a) in Hin. destruct Hin as [Hin|(Ek & _ & ->)].
    + pose proof (fresh_address r KWall a Hwf Hin) as Hne.
      destruct (U a Hne) as (Uw & _). rewrite Uw in Hl. eapply Hw; eassumption.
    + destruct k; try discriminate Ek. destruct H as (w0 & Hw0 & Hb).
      cbn [listOf] in *. congruence.
  - intros a f Hin Hl. unfold tileHeight. rewrite S. fold (tileHeight r).
    apply (LF a) in Hin. destruct Hin as [Hin|(Ek & _ & ->)].
    + pose proof (fresh_address r KFloor a Hwf Hin) as Hne.
      destruct (U a Hne) as (_ & Uf & _). rewrite Uf in Hl. eapply Hf; eassumption.
    + destruct k; try discriminate Ek. destruct H as (f0 & Hf0 & Hb & _).
      congruence.
Qed.

Lemma untextured_emitted (k : Kind) (r r' : Room) :
  emitted k r r' -> wellFormed r -> untextured r -> untextured r'.
Proof.
  intros E Hwf Hu.
  pose proof (listOf_emitted k KFloor r r') as LF. specialize (fun a => LF a E).
  destruct E as (G & S & N & L & O & C & H & U).
  intros a f Hin Hl. apply (LF a) in Hin. destruct Hin as [Hin|(Ek & _ & ->)].
  - pose proof (fresh_address r KFloor a Hwf Hin) as Hne.
    destruct (U a Hne) as (_ & Uf & _). rewrite Uf in Hl. eapply Hu; eassumption.
  - destruct k; try discriminate Ek. destruct H as (f0 & Hf0 & _ & Ht).
    congruence.
Qed.

Lemma three_lists_permutation {A : Type} (w f c nw nf nc : list A) :
  (w ++ nw) ++ (f ++ nf) ++ (c ++ nc) ≡ₚ (nw ++ nf ++ nc) ++ w ++ f ++ c.
Proof.
  rewrite (Permutation_app_comm w nw), (Permutation_app_comm f nf),
    (Permutation_app_comm c nc).
  rewrite <- !app_assoc. apply Permutation_app_head.
  rewrite (Permutation_app_swap_app w nf). apply Permutation_app_head.
  rewrite (app_assoc w f), (Permutation_app_swap_app (w ++ f) nc), <- app_assoc.
  reflexivity.
Qed.

Lemma activeRefs_emitted (k : Kind) (r r' : Room) :
  emitted k r r' ->
  activeRefs r' ≡ₚ
    (refOf k <$> if skipped k r then [] else [nextAddress (scene r)]) ++ activeRefs r.
Proof.
  intros (_ & _ & _ & L & _). unfold activeRefs.
  change (_walls (scene r')) with (listOf KWall r').
  change (_floor (scene r')) with (listOf KFloor r').
  change (_cursors (scene r')) with (listOf KCursor r').
  rewrite (L KWall), (L KFloor), (L KCursor), !fmap_app.
  rewrite three_lists_permutation. apply Permutation_app_tail.
  destruct k; cbn [same_kind refOf fmap list_fmap app]; rewrite ?app_nil_r; reflexivity.
Qed.

Lemma attachedSince_emitted (k : Kind) (r0 r r' : Room) :
  emitted k r r' -> attachedSince r0 r -> attachedSince r0 r'.
Proof.
  intros E (reg & Ho & Hc & Hp).
  pose proof (activeRefs_emitted k r r' E) as Ha.
  destruct E as (G & S & N & L & O & C & H & U).
  exists (reg ++ (refOf k <$> if skipped k r then [] else [nextAddress (scene r)])).
  split; [rewrite O, Ho, app_assoc; reflexivity|].
  split; [rewrite C, Hc, fmap_app, app_assoc; reflexivity|].
  rewrite Ha, Hp. apply Permutation_app_comm.
Qed.

(** Everything the rebuild keeps, together. *)
Definition rebuilt (r0 r : Room) : Prop :=
  geometry r = geometry r0 /\ style r = style r0 /\
  wellFormed r /\ synced r /\ untextured r /\ attachedSince r0 r.

Lemma rebuilt_emission (r0 r r' : Room) :
  rebuilt r0 r -> emission r r' -> rebuilt r0 r'.
Proof.
  intros (G & S & Hwf & Hs & Hu & Ha) E.
  destruct (emission_emitted r r' E) as [k Ek].
  pose proof Ek as (G' & S' & _).
  split; [congruence|]. split; [congruence|].
  split; [eapply wellFormed_emitted; eassumption|].
  split; [eapply synced_emitted; eassumption|].
  split; [eapply untextured_emitted; eassumption|].
  eapply attachedSince_emitted; eassumption.
Qed.

Lemma rebuilt_emissions (r0 r r' : Room) :
  rtc emission r r' -> rebuilt r0 r -> rebuilt r0 r'.
Proof.
  induction 1 as [|r r1 r' E _ IH]; intros H; [exact H|].
  apply IH. eapply rebuilt_emission; eassumption.
Qed.

Lemma updateTiles_row_emissions (y : nat) (row : list ParsedTileType) (x : nat) (r : Room) :
  rtc emission r (updateTiles_row x y row r).
Proof.
  revert x r. induction row as [|tile row IH]; intros x r; [apply rtc_refl|].
  cbn [updateTiles_row]. etransitivity; [apply updateTiles_cell_emissions|apply IH].
Qed.

Lemma updateTiles_rows_emissions (tiles : list (list ParsedTileType)) (y : nat) (r : Room) :
  rtc emission r (updateTiles_rows y tiles r).
Proof.
  revert y r. induction tiles as [|row tiles IH]; intros y r; [apply rtc_refl|].
  cbn [updateTiles_rows]. etransitivity; [apply updateTiles_row_emissions|apply IH].
Qed.

(** [resetTiles]: one [destroy] per active object, floor objects first, then
    walls, then cursors; the lists are emptied and nothing else changes. *)
Lemma resetTiles_spec (r : Room) :
  let r' := resetTiles r in
  geometry r' = geometry r /\ style r' = style r /\
  _walls (scene r') = [] /\ _floor (scene r') = [] /\ _cursors (scene r') = [] /\
  _doorWall (scene r') = None /\
  roomObjects (scene r') = roomObjects (scene r) /\
  nextAddress (scene r') = nextAddress (scene r) /\
  wallHeap (scene r') = wallHeap (scene r) /\
  floorHeap (scene r') = floorHeap (scene r) /\
  cursorHeap (scene r') = cursorHeap (scene r) /\
  calls (scene r') =
    calls (scene r) ++
      (CallDestroy <$> ((RefFloor <$> _floor (scene r)) ++ (RefWall <$> _walls (scene r))
                          ++ (RefCursor <$> _cursors (scene r)))).
Proof.
  cbv zeta. unfold resetTiles.
  set (targets := _ ++ _ ++ _). clearbody targets.
  cbn [with_scene scene style geometry scene_doorWall scene_cursors scene_walls
       scene_floor calls _walls _floor _cursors roomObjects nextAddress wallHeap
       floorHeap cursorHeap _doorWall].
  revert r. induction targets as [|t ts IH]; intros r.
  - cbn. rewrite app_nil_r. repeat split.
  - cbn [fold_left fmap list_fmap].
    destruct (IH (call (CallDestroy t) r))
      as (G & S & W & F & C & D & O & N & HW & HF & HC & L).
    rewrite G, S, O, N, HW, HF, HC, L. unfold call. cbn.
    rewrite <- app_assoc. repeat split.
Qed.

Lemma rebuilt_updateTiles (r : Room) : rebuilt (resetTiles r) (updateTiles r).
Proof.
  unfold updateTiles.
  apply rebuilt_emissions with (r := resetTiles r).
  { destruct (resetTiles_spec r) as (G & _). cbv zeta in G. rewrite G.
    apply updateTiles_rows_emissions. }
  destruct (resetTiles_spec r) as (_ & _ & W & F & C & _). cbv zeta in *.
  split; [reflexivity|]. split; [reflexivity|].
  split.
  { unfold wellFormed, active. rewrite W, F, C. cbn. split; [apply NoDup_nil_2|].
    split; [intros a Ha; apply elem_of_nil in Ha; contradiction|].
    intros [] a; cbn; rewrite ?W, ?F, ?C; intros Ha;
      apply elem_of_nil in Ha; contradiction. }
  split.
  { split; intros a x; rewrite ?W, ?F; intros Ha;
      apply elem_of_nil in Ha; contradiction. }
  split.
  { intros a x; rewrite F; intros Ha; apply elem_of_nil in Ha; contradiction. }
  exists []. rewrite !app_nil_r. unfold activeRefs. rewrite W, F, C.
  repeat split. reflexivity.
Qed.

(** ** In-place propagation *)

(** The mutations that rebuild the tiles; the others propagate in place. *)
Definition rebuilds (m : Mutation) : bool :=
  match m with SetHideWalls _ | SetHideFloor _ => true | _ => false end.

(** What an in-place mutation assigns to every active wall. *)
Definition wallEffect (m : Mutation) (r : Room) : Wall -> Wall :=
  match m with
  | SetWallHeight v =>
      wall_set_wallHeight (v ⊕ _largestDiff (geometry r) ⊗ of_Z 32)
  | SetTileHeight v => wall_set_tileHeight v
  | SetWallDepth v => wall_set_wallDepth v
  | SetWallColor c =>
      fun w => wall_set_color c (wall_set_texture (_currentWallTexture (style r)) w)
  | SetFloorColor _ =>
      fun w => wall_set_color (_wallColor (style r))
                 (wall_set_texture (_currentWallTexture (style r)) w)
  | WallTextureLoaded t =>
      fun w => wall_set_color (_wallColor (style r)) (wall_set_texture t w)
  | FloorTextureLoaded _ =>
      fun w => wall_set_color (_wallColor (style r))
                 (wall_set_texture (_currentWallTexture (style r)) w)
  | _ => fun w => w
  end.

(** What an in-place mutation assigns to every active floor object. *)
Definition floorEffect (m : Mutation) (r : Room) : FloorObject -> FloorObject :=
  match m with
  | SetTileHeight v => floor_set_tileHeight v
  | SetWallColor _ =>
      fun f => floor_set_color (_floorColor (style r))
                 (floor_set_texture (_currentFloorTexture (style r)) f)
  | SetFloorColor c =>
      fun f => floor_set_color c (floor_set_texture (_currentFloorTexture (style r)) f)
  | WallTextureLoaded _ =>
      fun f => floor_set_color (_floorColor (style r))
                 (floor_set_texture (_currentFloorTexture (style r)) f)
  | FloorTextureLoaded t =>
      fun f => floor_set_color (_floorColor (style r)) (floor_set_texture t f)
  | _ => fun f => f
  end.

(** The calls an in-place mutation makes. *)
Definition inPlaceCalls (m : Mutation) : list Call :=
  match m with
  | SetWallHeight _ => [CallUpdateRoom; CallDisableCache; CallEnableCache]
  | SetTileHeight _ | SetWallDepth _ | SetWallColor _ | SetFloorColor _
  | WallTextureLoaded _ | FloorTextureLoaded _ =>
      [CallDisableCache; CallEnableCache]
  | SetWallTexture _ | SetFloorTexture _ => [CallPromiseThen]
  | _ => []
  end.

Lemma alter_fold_lookup_id {A : Type} (l : list nat) (h : gmap nat A) (a : nat) :
  h !! a = if decide (a ∈ l) then (fun x => x) <$> h !! a else h !! a.
Proof. destruct (decide (a ∈ l)); [|reflexivity]. destruct (h !! a); reflexivity. Qed.

Ltac in_place_heap :=
  first
    [ apply forEach_alter_lookup; intros []; reflexivity
    | apply forEach_alter_lookup; intros [[]|[]]; reflexivity
    | apply alter_fold_lookup_id ].

Lemma mutate_in_place (m : Mutation) (r : Room) :
  rebuilds m = false ->
  let r' := mutate r m in
  geometry r' = geometry r /\
  _walls (scene r') = _walls (scene r) /\
  _floor (scene r') = _floor (scene r) /\
  _cursors (scene r') = _cursors (scene r) /\
  _doorWall (scene r') = _doorWall (scene r) /\
  roomObjects (scene r') = roomObjects (scene r) /\
  nextAddress (scene r') = nextAddress (scene r) /\
  cursorHeap (scene r') = cursorHeap (scene r) /\
  calls (scene r') = calls (scene r) ++ inPlaceCalls m /\
  (forall a, wallHeap (scene r') !! a =
     if decide (a ∈ _walls (scene r))
     then wallEffect m r <$> wallHeap (scene r) !! a
     else wallHeap (scene r) !! a) /\
  (forall a, floorHeap (scene r') !! a =
     if decide (a ∈ _floor (scene r))
     then floorEffect m r <$> floorHeap (scene r) !! a
     else floorHeap (scene r) !! a).
Proof.
  intros Hm. cbv zeta.
  destruct m; try discriminate Hm; cbn [mutate wallEffect floorEffect inPlaceCalls];
    unfold set_wallHeight, set_tileHeight, set_wallDepth, set_wallColor,
      set_floorColor, set_wallTexture, set_floorTexture, wallTextureLoaded,
      floorTextureLoaded, set_onTileClick, _updateWallHeight, _updateTileHeight,
      _updateWallDepth, updateTextures, loadWallTextures, loadFloorTextures,
      forEachWall, forEachFloor, call, wallHeightWithZ, wallHeight, tileHeight,
      wallDepth;
    cbn [with_scene with_style scene style geometry scene_calls scene_wallHeap
         scene_floorHeap calls _walls _floor _cursors roomObjects nextAddress
         wallHeap floorHeap cursorHeap _doorWall style_wallHeight style_tileHeight
         style_wallDepth style_wallColor style_floorColor style_wallTexture
         style_floorTexture style_currentWallTexture style_currentFloorTexture
         style_onTileClick _wallHeight _tileHeight _wallDepth _wallColor
         _floorColor _currentWallTexture _currentFloorTexture];
    rewrite <- ?app_assoc, ?app_nil_r;
    (repeat split; [intros a; in_place_heap | intros a; in_place_heap]).
Qed.

(** The dimensions after a mutation. *)
Lemma mutate_dimensions (m : Mutation) (r : Room) :
  tileHeight (mutate r m) =
    match m with SetTileHeight v => v | _ => tileHeight r end /\
  wallDepth (mutate r m) =
    match m with SetWallDepth v => v | _ => wallDepth r end /\
  wallHeight (mutate r m) =
    match m with SetWallHeight v => v | _ => wallHeight r end /\
  _currentWallTexture (style (mutate r m)) =
    match m with WallTextureLoaded t => t | _ => _currentWallTexture (style r) end.
Proof.
  assert (K : forall f r', scene_step (with_style f r) r' -> style r' = f (style r)).
  { intros f r' (_ & S & _). exact S. }
  unfold tileHeight, wallDepth, wallHeight.
  destruct m; cbn [mutate];
    unfold set_hideWalls, set_hideFloor, set_wallHeight, set_tileHeight,
      set_wallDepth, set_wallColor, set_floorColor, wallTextureLoaded,
      floorTextureLoaded.
  - rewrite (K (style_hideWalls value) _ (scene_step_updateTiles _)). repeat split.
  - rewrite (K (style_hideFloor value) _ (scene_step_updateTiles _)). repeat split.
  - rewrite (K (style_wallHeight value) _ (scene_step_updateWallHeight _)). repeat split.
  - rewrite (K (style_tileHeight value) _ (scene_step_updateTileHeight _)). repeat split.
  - rewrite (K (style_wallDepth value) _ (scene_step_updateWallDepth _)). repeat split.
  - rewrite (K (style_wallColor value) _ (scene_step_updateTextures _)). repeat split.
  - rewrite (K (style_floorColor value) _ (scene_step_updateTextures _)). repeat split.
  - repeat split.
  - repeat split.
  - rewrite (K (style_currentWallTexture texture) _ (scene_step_updateTextures _)).
    repeat split.
  - rewrite (K (style_currentFloorTexture texture) _ (scene_step_updateTextures _)).
    repeat split.
  - repeat split.
Qed.

(** The active objects exist, are listed once, and carry the dimensions of
    the room. *)
Definition consistent (r : Room) : Prop := wellFormed r /\ synced r.

Lemma consistent_in_place (m : Mutation) (r : Room) :
  rebuilds m = false -> consistent r -> consistent (mutate r m).
Proof.
  intros Hm [(Hnd & Hb & Ha) [Hw Hf]].
  destruct (mutate_in_place m r Hm) as (G & W & F & C & _ & _ & N & HC & _ & LW & LF).
  cbv zeta in *.
  destruct (mutate_dimensions m r) as (Dt & Dd & Dh & Dx).
  split; [split; [|split]|split].
  - unfold active. rewrite W, F, C. exact Hnd.
  - unfold active. rewrite W, F, C, N. exact Hb.
  - intros k a Hin. unfold listOf in Hin.
    destruct k; unfold allocated; [rewrite W in Hin|rewrite F in Hin|rewrite C in Hin].
    + rewrite LW, decide_True by exact Hin. apply fmap_is_Some, (Ha KWall a Hin).
    + rewrite LF, decide_True by exact Hin. apply fmap_is_Some, (Ha KFloor a Hin).
    + rewrite HC. apply (Ha KCursor a Hin).
  - intros a w Hin Hl. rewrite W in Hin. rewrite LW, decide_True in Hl by exact Hin.
    apply fmap_Some in Hl as (w0 & Hl0 & ->).
    specialize (Hw a w0 Hin Hl0). destruct Hw as (H1 & H2 & H3 & H4).
    unfold built_wall, wallHeightWithZ in *. rewrite Dt, Dd, Dh, Dx, G.
    destruct m; try discriminate Hm; cbn; auto.
  - intros a f Hin Hl. rewrite F in Hin. rewrite LF, decide_True in Hl by exact Hin.
    apply fmap_Some in Hl as (f0 & Hl0 & ->).
    specialize (Hf a f0 Hin Hl0). rewrite Dt.
    destruct m; try discriminate Hm; destruct f0; cbn in *; auto.
Qed.

Lemma consistent_updateTiles (r : Room) : consistent (updateTiles r).
Proof.
  destruct (rebuilt_updateTiles r) as (_ & _ & Hwf & Hs & _). split; assumption.
Qed.

Lemma consistent_mutate (m : Mutation) (r : Room) :
  consistent r -> consistent (mutate r m).
Proof.
  intros H. destruct (rebuilds m) eqn:Hm.
  - destruct m; try discriminate Hm; apply consistent_updateTiles.
  - apply consistent_in_place; assumption.
Qed.

Lemma consistent_calls (c : Call) (r : Room) : consistent r -> consistent (call c r).
Proof. intros H. exact H. Qed.

(** X4. A mutation that does not rebuild leaves the three active lists, the
    door wall, [roomObjects], the allocation counter, the cursors and the
    geometry as they are; it assigns [wallEffect] to the wall at every
    address of [_walls] and [floorEffect] to the floor object at every
    address of [_floor], and to no other object; its only outgoing calls are
    [inPlaceCalls]: one [disableCache]/[enableCache] pair around the
    assignments (after [updateRoom] for the wall height), or the promise
    continuation for a texture setter; and it keeps the active objects
    allocated, listed once and in step with the room's dimensions. *)
Theorem in_place_mutation (m : Mutation) (r : Room) :
  rebuilds m = false ->
  let r' := mutate r m in
  geometry r' = geometry r /\
  _walls (scene r') = _walls (scene r) /\
  _floor (scene r') = _floor (scene r) /\
  _cursors (scene r') = _cursors (scene r) /\
  _doorWall (scene r') = _doorWall (scene r) /\
  roomObjects (scene r') = roomObjects (scene r) /\
  nextAddress (scene r') = nextAddress (scene r) /\
  cursorHeap (scene r') = cursorHeap (scene r) /\
  calls (scene r') = calls (scene r) ++ inPlaceCalls m /\
  (forall a, a ∈ _walls (scene r) ->
     wallHeap (scene r') !! a = wallEffect m r <$> wallHeap (scene r) !! a) /\
  (forall a, a ∉ _walls (scene r) ->
     wallHeap (scene r') !! a = wallHeap (scene r) !! a) /\
  (forall a, a ∈ _floor (scene r) ->
     floorHeap (scene r') !! a = floorEffect m r <$> floorHeap (scene r) !! a) /\
  (forall a, a ∉ _floor (scene r) ->
     floorHeap (scene r') !! a = floorHeap (scene r) !! a) /\
  (consistent r -> consistent r').
Proof.
  intros Hm. cbv zeta.
  destruct (mutate_in_place m r Hm)
    as (G & W & F & C & D & O & N & HC & L & LW & LF).
  cbv zeta in *.
  repeat (split; [assumption|]).
  split; [intros a Ha; rewrite LW, decide_True by exact Ha; reflexivity|].
  split; [intros a Ha; rewrite LW, decide_False by exact Ha; reflexivity|].
  split; [intros a Ha; rewrite LF, decide_True by exact Ha; reflexivity|].
  split; [intros a Ha; rewrite LF, decide_False by exact Ha; reflexivity|].
  apply consistent_in_place, Hm.
Qed.

Section ConstructedRoom.
Context {TileType : Type}.
Variable parseTileMapString : string -> option (list (list TileType)).
Variable parseTileMap : list (list TileType) -> option ParsedTileMap.
Variable getTileMapBounds : list (list ParsedTileType) -> XY -> Bounds.

(** X5. In a room built by the constructor, after any style mutations:
    no address is listed twice among the active walls, floor objects and
    cursors; every active address holds an object of the class of its list;
    every active wall carries the room's current tile height, wall depth and
    [wallHeight + largestDiff * 32] and, unless it is a half of an inner
    corner, the current wall texture; and every active floor object carries
    the room's current tile height. The rebuild and the in-place setters
    agree on these. *)
Theorem active_objects_follow_dimensions
    (input : TileMap) (r0 : Room) (ms : list Mutation) :
  new parseTileMapString parseTileMap getTileMapBounds input = Some r0 ->
  let r := mutations ms r0 in
  NoDup (_walls (scene r) ++ _floor (scene r) ++ _cursors (scene r)) /\
  (forall a, a ∈ _walls (scene r) ->
     exists w, wallHeap (scene r) !! a = Some w /\
       wall_tileHeight w = tileHeight r /\
       wall_wallDepth w = wallDepth r /\
       wall_wallHeight w = wallHeight r ⊕ _largestDiff (geometry r) ⊗ of_Z 32 /\
       (wall_side w = None -> wall_texture w = _currentWallTexture (style r))) /\
  (forall a, a ∈ _floor (scene r) ->
     exists f, floorHeap (scene r) !! a = Some f /\
       floor_tileHeight f = tileHeight r) /\
  (forall a, a ∈ _cursors (scene r) -> is_Some (cursorHeap (scene r) !! a)).
Proof.
  intros Hnew. cbv zeta.
  assert (H0 : consistent r0).
  { unfold new in Hnew.
    destruct (match input with TileMapGrid g => Some g | TileMapString s => _ end);
      [|discriminate].
    destruct (parseTileMap l); [|discriminate].
    injection Hnew as <-. apply consistent_calls, consistent_updateTiles. }
  assert (H : consistent (mutations ms r0)).
  { unfold mutations. revert H0. generalize r0 as r.
    induction ms as [|m ms IH]; intros r H; [exact H|].
    cbn [fold_left]. apply IH, consistent_mutate, H. }
  destruct H as [(Hnd & _ & Ha) [Hw Hf]].
  split; [exact Hnd|]. split; [|split].
  - intros a Hin. destruct (Ha KWall a Hin) as [w Hl]. exists w.
    destruct (Hw a w Hin Hl) as (H1 & H2 & H3 & H4). auto.
  - intros a Hin. destruct (Ha KFloor a Hin) as [f Hl]. exists f.
    split; [exact Hl|]. eapply Hf; eassumption.
  - intros a Hin. apply (Ha KCursor a Hin).
Qed.

End ConstructedRoom.

(** ** Teardown and attachment *)


Lemma rebuild_destroys_then_attaches_aux (r : Room) :
  exists reg, roomObjects (scene (updateTiles r)) = roomObjects (scene r) ++ reg.
Proof.
  destruct (rebuilt_updateTiles r) as (_ & _ & _ & _ & _ & reg & Ho & _).
  destruct (resetTiles_spec r) as (_ & _ & _ & _ & _ & _ & O & _).
  cbv zeta in *. exists reg. rewrite Ho, O. reflexivity.
Qed.


(** X7. No mutation takes an entry out of [roomObjects]: after any
    sequence of style mutations the earlier list is a prefix of the later
    one. *)
Theorem roomObjects_only_grows (ms : list Mutation) (r : Room) :
  roomObjects (scene r) `prefix_of` roomObjects (scene (mutations ms r)).
Proof.
  unfold mutations. revert r. induction ms as [|m ms IH]; intros r; [reflexivity|].
  cbn [fold_left]. etransitivity; [|apply IH].
  destruct (rebuilds m) eqn:Hm.
  - destruct m; try discriminate Hm; cbn [mutate];
      unfold set_hideWalls, set_hideFloor;
      match goal with
      | |- context [updateTiles ?r0] =>
          destruct (rebuild_destroys_then_attaches_aux r0) as (reg & Ho); rewrite Ho
      end; apply prefix_app_r; reflexivity.
  - destruct (mutate_in_place m r Hm) as (_ & _ & _ & _ & _ & O & _).
    cbv zeta in O. rewrite O. reflexivity.
Qed.

(** ** Floor textures *)



(** ** How many objects a rebuild registers *)

(** The objects of each kind that [updateTiles] constructs for a cell. *)
Definition cellCount (k : Kind) (tile : ParsedTileType) : nat :=
  match k, tile with
  | KCursor, (PDoor _ | PTile _) => 1
  | KCursor, PStairs _ _ => 2
  | KFloor, (PDoor _ | PTile _ | PStairs _ _) => 1
  | KWall, PDoor _ => 1
  | KWall, PWall innerCorner _ _ => 2
  | KWall, PWall _ _ _ => 1
  | _, _ => 0
  end%nat.

Definition gridCount (k : Kind) (tiles : list (list ParsedTileType)) : nat :=
  sum_list_with (cellCount k) (concat tiles).







End RoomRebuild.

Section RoomRebuildExamples.
Import Room.
Local Existing Instance Q_JsNumber.
Local Open Scope num_scope.

Definition example_tileHeight : @num Q_JsNumber := 4%Q.

Lemma in_place_mutation_witness :
  _walls (scene (mutate example_room (SetTileHeight example_tileHeight))) =
    _walls (scene example_room) /\
  wall_tileHeight <$>
    wallHeap (scene (mutate example_room (SetTileHeight example_tileHeight))) !! 4%nat =
    Some example_tileHeight /\
  floor_tileHeight <$>
    floorHeap (scene (mutate example_room (SetTileHeight example_tileHeight))) !! 3%nat =
    Some example_tileHeight.
Proof.
  destruct (in_place_mutation (SetTileHeight example_tileHeight) example_room eq_refl)
    as (_ & W & _ & _ & _ & _ & _ & _ & _ & LW & _ & LF & _).
  cbv zeta in *. split; [exact W|]. split.
  - rewrite LW.
    + reflexivity.
    + change (4%nat ∈ [0; 1; 2; 4; 11; 14; 15]%nat).
      do 3 (apply elem_of_cons; right). apply elem_of_cons. left. reflexivity.
  - rewrite LF.
    + reflexivity.
    + change (3%nat ∈ [3; 6; 8; 12]%nat). apply elem_of_cons. left. reflexivity.
Defined.

Lemma active_objects_follow_dimensions_witness :
  let r := mutations example_mutations example_room in
  NoDup (_walls (scene r) ++ _floor (scene r) ++ _cursors (scene r)) /\
  (forall a, a ∈ _cursors (scene r) -> is_Some (cursorHeap (scene r) !! a)).
Proof.
  destruct (active_objects_follow_dimensions example_parseTileMapString
              example_parseTileMap example_getTileMapBounds (TileMapGrid [])
              example_room example_mutations eq_refl) as (H1 & _ & _ & H4).
  split; [exact H1|exact H4].
Defined.

(** A floor texture is loaded, then the walls are hidden. *)
Definition example_textured : Room := floorTextureLoaded (Some 7%nat) example_room.
Definition example_textured_rebuilt : Room := set_hideWalls true example_textured.

Example example_textured_floor :
  floor_texture <$> floorHeap (scene example_textured) !! 3%nat = Some (Some 7%nat) /\
  _floor (scene example_textured_rebuilt) = [19; 22; 24; 28]%nat /\
  _currentFloorTexture (style example_textured_rebuilt) = Some 7%nat.
Proof. repeat split. Qed.


(** The spec's scenario: a 3x3 map of floor tiles without walls. *)
Definition example_floor_grid : list (list ParsedTileType) :=
  [ [PTile 0%Q; PTile 0%Q; PTile 0%Q];
    [PTile 0%Q; PTile 0%Q; PTile 0%Q];
    [PTile 0%Q; PTile 0%Q; PTile 0%Q] ].

Example example_floor_grid_counts :
  gridCount KFloor example_floor_grid = 9%nat /\
  gridCount KWall example_floor_grid = 0%nat /\
  gridCount KCursor example_floor_grid = 9%nat /\
  gridCount KWall example_tiles = 7%nat.
Proof. repeat split. Qed.

End RoomRebuildExamples.

Section RoomObjectLifecycleExamples.
Import RoomObject.


End RoomObjectLifecycleExamples.

(* ===================================================================== *)
(** * More on the look-reload cycle *)
(* ===================================================================== *)

Section AvatarCycle.
Import BaseAvatar.
Context {JN : JsNumber}.
Variable parseInt16 : string -> num.

Ltac frame_modify := apply preserves_modify; intros ? H; exact H.

(** ** Invariants of the id counter and the issued requests *)

Section Counter.
Variable J : Z -> list Request -> Prop.
Hypothesis J_reload :
  forall u rs options,
    J u rs ->
    J (js_increment u)
      (rs ++ [{| requestId := js_increment u; request_lookOptions := options |}]).

Definition counted (s : BaseAvatar) : Prop := J (_updateId s) (requests s).

Lemma counted_of_control {A : Type} (m : M BaseAvatar A) :
  keeps_control m -> preserves counted m.
Proof.
  intros K s H. specialize (K (control s) s eq_refl). cbn beta in K.
  unfold control in K. injection K as Hu Hr _ _ _ _ _ _ _ _.
  unfold counted in *. rewrite Hu, Hr. exact H.
Qed.

Lemma counted_reloadLook : preserves counted _reloadLook.
Proof.
  intros s H. rewrite reloadLook_eq. cbn [snd].
  destruct (_dependencies s); [|exact H].
  destruct (_nextLookOptions s) as [options|]; [|exact H].
  apply J_reload, H.
Qed.

Lemma counted_tickerCallback : preserves counted (tickerCallback parseInt16).
Proof.
  unfold tickerCallback.
  repeat first [ apply counted_reloadLook
               | apply counted_of_control, keeps_control_updateFrame
               | preserves_step | frame_modify ].
Qed.

Lemma counted_handle (e : Event) : preserves counted (handle parseInt16 e).
Proof.
  destruct e; cbn [handle];
    unfold set_dependencies, _handleDependenciesSet, dependencies,
      set_lookOptions, _updateLookOptions, set_currentFrame, tick,
      _reloadLook_then, destroy;
    repeat first [ apply counted_reloadLook
                 | apply counted_tickerCallback
                 | apply counted_of_control, keeps_control_updateSprites
                 | preserves_step | frame_modify ].
Qed.

Lemma counted_run (es : list Event) (s : BaseAvatar) :
  counted s -> counted (run parseInt16 es s).
Proof.
  unfold run. revert s. induction es as [|e es IH]; intros s H; [exact H|].
  cbn [fold_left]. apply IH, counted_handle, H.
Qed.

End Counter.

(** X10. While the id counter is exact, the requests handed to the loader
    carry the ids 1, 2, 3, ... in the order of issue, and [_updateId] is the
    number of requests issued so far. *)
Theorem request_ids_are_consecutive (options : LookOptions) (es : list Event) :
  let s := run parseInt16 es (new options) in
  _updateId s < 2 ^ 53 ->
  _updateId s = Z.of_nat (length (requests s)) /\
  (forall i request, requests s !! i = Some request ->
     requestId request = Z.of_nat i + 1).
Proof.
  cbv zeta.
  pose (J := fun (u : Z) (rs : list Request) =>
    0 <= u /\
    (u < 2 ^ 53 ->
     u = Z.of_nat (length rs) /\
     forall i request, rs !! i = Some request -> requestId request = Z.of_nat i + 1)).
  assert (HJ : counted J (run parseInt16 es (new options))).
  { apply counted_run.
    - intros u rs l [H0 H]. unfold J. 
      assert (Hinc : u <= js_increment u)
        by (unfold js_increment; destruct (u <? 2 ^ 53); lia).
      split; [lia|]. intros Hlt.
      unfold js_increment in *. destruct (Z.ltb_spec u (2 ^ 53)) as [Hu|Hu]; [|lia].
      destruct (H Hu) as [Hlen Hids]. rewrite length_app. cbn [length].
      split; [lia|].
      intros i request Hi. apply lookup_app_Some in Hi as [Hi|[Hge Hi]].
      + apply Hids, Hi.
      + destruct (i - length rs)%nat as [|n] eqn:E; [|destruct n; discriminate Hi].
        injection Hi as <-. cbn. lia.
    - unfold counted, J. cbn. split; [lia|]. intros _. split; [reflexivity|].
      intros i request Hi. destruct i; discriminate Hi. }
  intros Hlt. destruct HJ as [_ H]. apply H, Hlt.
Qed.

(** ** The [lookOptions] getter *)

Definition has_look (s : BaseAvatar) : Prop :=
  is_Some (_nextLookOptions s) \/ is_Some (_lookOptions s).

Lemma has_look_of_control {A : Type} (m : M BaseAvatar A) :
  keeps_control m -> preserves has_look m.
Proof.
  intros K s H. specialize (K (control s) s eq_refl). cbn beta in K.
  unfold control in K. injection K as _ _ _ _ Hn Hl _ _ _ _.
  unfold has_look in *. rewrite Hn, Hl. exact H.
Qed.

Lemma has_look_reloadLook : preserves has_look _reloadLook.
Proof.
  intros s H. rewrite reloadLook_eq. cbn [snd].
  destruct (_dependencies s); [|exact H].
  destruct (_nextLookOptions s); exact H.
Qed.

Lemma has_look_handle (e : Event) : preserves has_look (handle parseInt16 e).
Proof.
  destruct e; cbn [handle].
  - unfold set_dependencies, _handleDependenciesSet, dependencies.
    repeat first [apply has_look_reloadLook | preserves_step | frame_modify].
  - unfold set_lookOptions, _updateLookOptions.
    repeat first [preserves_step | frame_modify].
    apply preserves_modify. intros s _. left. cbn. eauto.
  - unfold set_currentFrame. repeat first [preserves_step | frame_modify].
  - unfold tick, tickerCallback.
    repeat first [ apply has_look_reloadLook
                 | apply has_look_of_control, keeps_control_updateFrame
                 | preserves_step | frame_modify ].
  - intros s H. destruct (Z.eq_dec (requestId request) (_updateId s)) as [E|E].
    + destruct (reloadLook_then_current parseInt16 request result s E) as (_ & Hl & _).
      right. unfold state_after in Hl. rewrite Hl. eauto.
    + rewrite reloadLook_then_stale by exact E. exact H.
  - unfold destroy. frame_modify.
Qed.

(** X11. On an avatar built by the constructor the [lookOptions] getter
    never throws, whatever has happened since: there is always a pending or
    an applied look, and the getter returns the pending one if there is one
    and the applied one otherwise, without changing the state. *)
Theorem lookOptions_getter_never_throws (options : LookOptions) (es : list Event) :
  let s := run parseInt16 es (new options) in
  exists l,
    lookOptions s = (Normal l, s) /\
    (_nextLookOptions s = Some l \/
     (_nextLookOptions s = None /\ _lookOptions s = Some l)).
Proof.
  cbv zeta.
  assert (H : has_look (run parseInt16 es (new options))).
  { unfold run. assert (H0 : has_look (new options)) by (left; cbn; eauto).
    revert H0. generalize (new options) as s.
    induction es as [|e es IH]; intros s H; [exact H|].
    cbn [fold_left]. apply IH, has_look_handle, H. }
  set (s := run parseInt16 es (new options)) in *.
  unfold lookOptions, bind, gets.
  destruct (_nextLookOptions s) as [l|] eqn:En.
  - exists l. split; [reflexivity|]. left. reflexivity.
  - destruct H as [[l Hl]|[l Hl]]; [congruence|].
    exists l. rewrite Hl. split; [reflexivity|]. right. split; reflexivity.
Qed.

End AvatarCycle.

(* ===================================================================== *)
(** * Frames, mounting and the sprite cache *)
(* ===================================================================== *)

Section AvatarFrames.
Import BaseAvatar.
Context {JN : JsNumber}.
Variable parseInt16 : string -> num.

Ltac flag_modify := apply preserves_modify; intros ? H; exact H.

(** ** Frame changes *)

(** The first callback of a tick on a dirty avatar that cannot reload (not
    mounted, or without a pending look) only clears the flag. *)
Lemma tickerCallback_dirty_idle (s : BaseAvatar) :
  _refreshLook s = true ->
  _dependencies s = None \/ _nextLookOptions s = None ->
  let s' := snd (tickerCallback parseInt16 s) in
  requests s' = requests s /\ _refreshLook s' = false.
Proof.
  intros Hl Hno. cbv zeta. unfold tickerCallback.
  cbv beta iota delta [bind gets ret]. rewrite Hl.
  cbv beta iota delta [bind gets ret modify]. rewrite reloadLook_eq.
  cbn [_dependencies _nextLookOptions upd_refreshLook].
  assert (E : match _dependencies s, _nextLookOptions s with
              | Some _, Some options =>
                  upd_requests
                    (requests (upd_refreshLook false s) ++
                       [{| requestId := js_increment (_updateId (upd_refreshLook false s));
                           request_lookOptions := options |}])
                    (upd_updateId (js_increment (_updateId (upd_refreshLook false s)))
                       (upd_refreshLook false s))
              | _, _ => upd_refreshLook false s
              end = upd_refreshLook false s).
  { destruct Hno as [-> | ->]; [reflexivity|]. destruct (_dependencies s); reflexivity. }
  rewrite E. cbn [_refreshFrame upd_refreshLook].
  destruct (_refreshFrame s); [|repeat split].
  cbv beta iota delta [bind gets ret modify].
  match goal with
  | |- context [_updateFrame _ ?s0] => set (st := s0)
  end.
  pose proof (keeps_control_updateFrame parseInt16 (control st) st eq_refl) as K.
  cbn beta in K. unfold control in K. injection K as Hu Hr Hf _ _ _ _ _ _ _.
  rewrite Hr, Hf. subst st. repeat split.
Qed.

(** The request, if any, that the next tick issues. *)
Definition nextRequest (s : BaseAvatar) : list Request :=
  if _refreshLook s && negb (subscriptions s =? 0)%nat
  then match _dependencies s, _nextLookOptions s with
       | Some _, Some options =>
           [{| requestId := js_increment (_updateId s);
               request_lookOptions := options |}]
       | _, _ => []
       end
  else [].

Lemma tick_requests (s : BaseAvatar) :
  requests (state_after (tick parseInt16) s) = requests s ++ nextRequest s.
Proof.
  unfold nextRequest.
  destruct (_refreshLook s) eqn:Hl.
  2:{ cbn [andb]. rewrite app_nil_r. apply tick_idle, Hl. }
  destruct (subscriptions s) as [|k] eqn:Hs.
  { cbn. rewrite app_nil_r. unfold state_after, tick. cbv beta iota delta [bind gets].
    rewrite Hs. reflexivity. }
  cbn [andb negb Nat.eqb].
  destruct (_dependencies s) as [d|] eqn:Hd;
    [destruct (_nextLookOptions s) as [options|] eqn:Hn|].
  - apply tick_dirty; [exact Hl|rewrite Hd; eauto|exact Hn|lia].
  - rewrite app_nil_r. unfold state_after, tick. cbv beta iota delta [bind gets].
    rewrite Hs. cbn [repeatM].
    destruct (tickerCallback_dirty_idle s Hl (or_intror Hn)) as [H1 H2].
    unfold bind.
    destruct (tickerCallback parseInt16 s) as [[[]|msg|] s1]; cbn [snd] in *;
      try assumption.
    assert (K : preserves (fun s' => requests s' = requests s1 /\ _refreshLook s' = false)
                  (repeatM k (tickerCallback parseInt16))).
    { apply preserves_repeatM. intros s0 [Hr Hf].
      destruct (tickerCallback_idle parseInt16 s0 Hf) as (H1' & _ & H3').
      split; congruence. }
    destruct (K s1 (conj eq_refl H2)) as [K1 _]. congruence.
  - rewrite app_nil_r. unfold state_after, tick. cbv beta iota delta [bind gets].
    rewrite Hs. cbn [repeatM].
    destruct (tickerCallback_dirty_idle s Hl (or_introl Hd)) as [H1 H2].
    unfold bind.
    destruct (tickerCallback parseInt16 s) as [[[]|msg|] s1]; cbn [snd] in *;
      try assumption.
    assert (K : preserves (fun s' => requests s' = requests s1 /\ _refreshLook s' = false)
                  (repeatM k (tickerCallback parseInt16))).
    { apply preserves_repeatM. intros s0 [Hr Hf].
      destruct (tickerCallback_idle parseInt16 s0 Hf) as (H1' & _ & H3').
      split; congruence. }
    destruct (K s1 (conj eq_refl H2)) as [K1 _]. congruence.
Qed.

(** X12. The [currentFrame] setter changes nothing when the value is the
    current frame; otherwise it stores the frame and marks it dirty, and
    nothing else. It never causes a look request: the requests after the
    next tick are the same with and without the frame change. *)
Theorem frame_change_requests_nothing (value : Z) (s : BaseAvatar) :
  set_currentFrame value s =
    (Normal tt,
     if value =? _currentFrame s then s
     else upd_refreshFrame true (upd_currentFrame value s)) /\
  requests (state_after (tick parseInt16) (state_after (set_currentFrame value) s)) =
    requests (state_after (tick parseInt16) s).
Proof.
  assert (E : set_currentFrame value s =
    (Normal tt,
     if value =? _currentFrame s then s
     else upd_refreshFrame true (upd_currentFrame value s))).
  { unfold set_currentFrame, bind, gets, ret, modify.
    destruct (value =? _currentFrame s); reflexivity. }
  split; [exact E|].
  rewrite !tick_requests. unfold state_after. rewrite E. cbn [snd].
  destruct (value =? _currentFrame s); reflexivity.
Qed.

(** ** A look assigned while a request is in flight *)

Lemma reloadLook_without_pending (s : BaseAvatar) :
  _nextLookOptions s = None -> _reloadLook s = (Normal tt, s).
Proof.
  intros Hn. rewrite reloadLook_eq, Hn. destruct (_dependencies s); reflexivity.
Qed.

Lemma applied_of_control {A : Type} (m : M BaseAvatar A) (l : LookOptions) :
  keeps_control m ->
  preserves (fun s => _nextLookOptions s = None /\ _lookOptions s = Some l) m.
Proof.
  intros K s H. specialize (K (control s) s eq_refl). cbn beta in K.
  unfold control in K. injection K as _ _ _ _ Hn Hl _ _ _ _.
  rewrite Hn, Hl. exact H.
Qed.

Lemma applied_tick (l : LookOptions) :
  preserves (fun s => _nextLookOptions s = None /\ _lookOptions s = Some l)
    (tick parseInt16).
Proof.
  unfold tick, tickerCallback.
  repeat first [ apply applied_of_control, keeps_control_updateFrame
               | match goal with
                 | |- preserves _ _reloadLook =>
                     let s := fresh "s" in let H := fresh "H" in
                     intros s H;
                     rewrite (reloadLook_without_pending s (proj1 H)); exact H
                 end
               | preserves_step | flag_modify ].
Qed.

(** X13. A look assigned while a request is in flight is dropped when the
    response to that request arrives before the next tick: applying the
    response clears the pending look, so the tick issues no request for the
    assigned look, and the getter returns the look of the response. *)
Theorem pending_look_is_dropped_by_response
    (value : LookOptions) (request : Request) (result : AvatarLoaderResult)
    (s : BaseAvatar) :
  requestId request = _updateId s ->
  let s' := run parseInt16 [SetLookOptions value; Resolved request result; Tick] s in
  requests s' = requests s /\
  _nextLookOptions s' = None /\
  _lookOptions s' = Some (request_lookOptions request) /\
  lookOptions s' = (Normal (request_lookOptions request), s').
Proof.
  intros Hid. cbv zeta. unfold run. cbn [fold_left handle].
  set (s1 := state_after (set_lookOptions value) s).
  assert (H1 : _updateId s1 = _updateId s /\ requests s1 = requests s).
  { unfold s1, state_after, set_lookOptions, _updateLookOptions.
    cbv beta iota delta [bind gets ret modify].
    match goal with |- context [if ?b then _ else _] => destruct b end;
      split; reflexivity. }
  destruct H1 as [Hu1 Hr1].
  set (s2 := state_after (_reloadLook_then parseInt16 request result) s1).
  destruct (reloadLook_then_current parseInt16 request result s1
              ltac:(congruence)) as (_ & Hl2 & Hn2).
  fold s2 in Hl2, Hn2.
  assert (Hr2 : requests s2 = requests s1).
  { assert (K : preserves (fun s' => requests s' = requests s1)
                  (_reloadLook_then parseInt16 request result)).
    { unfold _reloadLook_then.
      repeat first [ match goal with
                     | |- preserves _ (_updateSprites _) =>
                         let s0 := fresh "s" in let H := fresh "H" in
                         intros s0 H;
                         pose proof (keeps_control_updateSprites parseInt16
                                       (control s0) s0 eq_refl) as K;
                         cbn beta in K; unfold control in K;
                         injection K as _ Hr _ _ _ _ _ _ _ _; congruence
                     end
                   | preserves_step | flag_modify ]. }
    exact (K s1 eq_refl). }
  set (s3 := state_after (tick parseInt16) s2).
  destruct (applied_tick (request_lookOptions request) s2 (conj Hn2 Hl2)) as [Hn3 Hl3].
  fold (state_after (tick parseInt16) s2) in Hn3, Hl3. fold s3 in Hn3, Hl3.
  split.
  - unfold s3. rewrite tick_requests. unfold nextRequest. rewrite Hn2.
    rewrite Hr2, Hr1.
    destruct (_refreshLook s2 && negb (subscriptions s2 =? 0)%nat);
      [destruct (_dependencies s2)|]; apply app_nil_r.
  - split; [exact Hn3|]. split; [exact Hl3|].
    unfold lookOptions, bind, gets. rewrite Hn3, Hl3. reflexivity.
Qed.

(** ** Before mounting *)

Definition is_mount (e : Event) : bool :=
  match e with SetDependencies _ => true | _ => false end.

(** Nothing has been requested, subscribed or built. *)
Definition inert (s : BaseAvatar) : Prop :=
  _dependencies s = None /\ requests s = [] /\ _updateId s = 0 /\
  subscriptions s = 0%nat /\ _container s = None /\ _assets s = [] /\
  _sprites s = ∅ /\ spriteHeap s = ∅.

Lemma inert_handle (e : Event) (s : BaseAvatar) :
  is_mount e = false -> inert s ->
  inert (state_after (handle parseInt16 e) s) /\
  exists v, fst (handle parseInt16 e s) = Normal v.
Proof.
  intros He (Hd & Hr & Hu & Hs & Hc & Ha & Hm & Hh).
  unfold state_after. destruct e; try discriminate He; cbn [handle].
  - unfold set_lookOptions, _updateLookOptions.
    cbv beta iota delta [bind gets ret modify].
    match goal with |- context [if ?b then _ else _] => destruct b end;
      cbn [fst snd]; (split; [repeat split; assumption|eauto]).
  - unfold set_currentFrame. cbv beta iota delta [bind gets ret modify].
    destruct (value =? _currentFrame s); cbn [fst snd];
      (split; [repeat split; assumption|eauto]).
  - unfold tick. cbv beta iota delta [bind gets]. rewrite Hs.
    cbn [repeatM ret fst snd]. split; [repeat split; assumption|eauto].
  - unfold _reloadLook_then. cbv beta iota delta [bind gets ret modify].
    destruct (negb (requestId request =? _updateId s));
      [cbn [fst snd]; split; [repeat split; assumption|eauto]|].
    unfold _updateSprites, currentFrame, _updateSpritesWithAvatarDrawDefinition,
      _updatePosition, mounted.
    cbv beta iota delta [bind gets ret modify].
    cbn [_avatarLoaderResult _lookOptions _dependencies _container _currentFrame
         upd_avatarLoaderResult upd_lookOptions upd_nextLookOptions
         upd_avatarDrawDefinition].
    rewrite Hd. cbn [negb].
    cbn [_container upd_avatarDrawDefinition upd_nextLookOptions upd_lookOptions
         upd_avatarLoaderResult].
    rewrite Hc. cbn [fst snd].
    split; [repeat split; assumption|eauto].
  - unfold destroy, modify. cbn [fst snd]. split; [|eauto].
    unfold inert. cbn. rewrite Hc. repeat split; assumption.
Qed.

(** X14. Until its dependencies are set an avatar does nothing outside
    itself: whatever looks and frames are assigned, whatever ticks and
    responses arrive and even if it is destroyed, no call throws, no request
    is issued, no ticker callback is subscribed, and no container or sprite
    is built. *)
Theorem unmounted_avatar_is_inert (options : LookOptions) (es : list Event) :
  forallb (fun e => negb (is_mount e)) es = true ->
  let s := run parseInt16 es (new options) in
  _dependencies s = None /\ requests s = [] /\ subscriptions s = 0%nat /\
  _container s = None /\ _assets s = [] /\ spriteHeap s = ∅ /\
  (forall e, is_mount e = false -> fst (handle parseInt16 e s) = Normal tt).
Proof.
  intros Hes. cbv zeta.
  assert (H : inert (run parseInt16 es (new options))).
  { unfold run. assert (H0 : inert (new options)) by (repeat split).
    revert H0 Hes. generalize (new options) as s.
    induction es as [|e es IH]; intros s H Hes; [exact H|].
    cbn [fold_left forallb] in *. apply andb_prop in Hes as [He Hes].
    apply IH; [|exact Hes].
    apply inert_handle; [|exact H]. apply negb_true_iff, He. }
  assert (Hn : forall e, is_mount e = false ->
            fst (handle parseInt16 e (run parseInt16 es (new options))) = Normal tt).
  { intros e He. destruct (inert_handle e _ He H) as [_ [[] Hv]]. exact Hv. }
  destruct H as (Hd & Hr & _ & Hs & Hc & Ha & _ & Hh).
  repeat (split; [assumption|]). exact Hn.
Qed.

End AvatarFrames.

(* ===================================================================== *)
(** * The sprite cache and the sprite rebuild *)
(* ===================================================================== *)

Section ForEachFacts.
Context {S A : Type}.

(** A loop whose body returns and maintains an invariant indexed by the
    elements done. *)
Lemma forEach_done (I : list A -> S -> Prop) (f : A -> M S unit) (l : list A) :
  (forall done a s, a ∈ l -> I done s ->
     fst (f a s) = Normal tt /\ I (done ++ [a]) (snd (f a s))) ->
  forall done s, I done s ->
    fst (forEach l f s) = Normal tt /\ I (done ++ l) (snd (forEach l f s)).
Proof.
  induction l as [|a l IH]; intros Hstep done s HI.
  - rewrite app_nil_r. split; [reflexivity|exact HI].
  - cbn [forEach]. unfold bind.
    assert (Ha : a ∈ a :: l) by (apply elem_of_cons; left; reflexivity).
    destruct (Hstep done a s Ha HI) as [Hn Hs].
    destruct (f a s) as [[[]|msg|] s1]; cbn [fst snd] in *; try discriminate Hn.
    replace (done ++ a :: l) with ((done ++ [a]) ++ l)
      by (rewrite <- app_assoc; reflexivity).
    apply IH; [|exact Hs].
    intros d b s0 Hb. apply Hstep, elem_of_cons. right. exact Hb.
Qed.

(** A loop with an element on which the body always throws, and whose body
    otherwise returns or throws, throws. *)
Lemma forEach_throws (f : A -> M S unit) (l : list A) (a : A) :
  a ∈ l ->
  (forall s, exists msg, fst (f a s) = Throw msg) ->
  (forall b s, fst (f b s) <> OutOfFuel) ->
  forall s, exists msg, fst (forEach l f s) = Throw msg.
Proof.
  intros Ha Hthrow Hfuel. induction l as [|b l IH]; intros s.
  - apply elem_of_nil in Ha. destruct Ha.
  - cbn [forEach]. unfold bind. apply elem_of_cons in Ha as [<-|Ha].
    + destruct (Hthrow s) as [msg Hm].
      destruct (f a s) as [[[]|msg'|] s1]; cbn [fst] in *; try discriminate Hm; eauto.
    + pose proof (Hfuel b s) as Hb.
      destruct (f b s) as [[[]|msg'|] s1]; cbn [fst] in *; eauto; congruence.
Qed.

End ForEachFacts.

Section AvatarSpriteCache.
Import BaseAvatar.
Context {JN : JsNumber}.
Variable parseInt16 : string -> num.

Ltac sprite_modify := apply preserves_modify; intros ? H; exact H.

(** The sprites in the child container. *)
Definition childrenOf (s : BaseAvatar) : list nat :=
  match _container s with
  | Some c => children c
  | None => []
  end.

(** ** One part of the draw definition *)

(** The sprite that [createAsset] makes. *)
Definition newSprite (part : AvatarDrawPart) (asset : AvatarAsset)
    (texture : HitTexture) : HitSprite :=
  {| hitTexture := texture; sprite_x := asset_x asset; sprite_y := asset_y asset;
     visible := true; mirrored := mirror asset; ignore := false;
     tint := match color part, mode part with
             | Some c, colored => parseInt16 (slice1 c)
             | _, _ => of_Z 16777215
             end |}.

(** The state after [new HitSprite] and [this._assets.push(sprite)]. *)
Definition allocate (sprite : HitSprite) (s : BaseAvatar) : BaseAvatar :=
  upd_assets (_assets s ++ [nextAddress s])
    (upd_nextAddress (S (nextAddress s))
       (upd_spriteHeap (<[nextAddress s := sprite]> (spriteHeap s)) s)).

(** The state after the last seven statements of the callback. *)
Definition place (asset : AvatarAsset) (a : nat) (s : BaseAvatar) : BaseAvatar :=
  upd_container (addChild a <$> _container s)
    (upd_sprites (<[fileId asset := a]> (_sprites s))
       (upd_spriteHeap (alter (showSprite asset) a (spriteHeap s)) s)).

Inductive PartOutcome : Type :=
| NoAsset
| Cached (asset : AvatarAsset) (a : nat)
| NoLoaderResult
| NoTexture (asset : AvatarAsset)
| NoDependencies
| Created (asset : AvatarAsset) (texture : HitTexture).

(** The branch that the callback takes. *)
Definition partOutcome (frame : Z) (part : AvatarDrawPart) (s : BaseAvatar) : PartOutcome :=
  match frameAsset part frame with
  | None => NoAsset
  | Some asset =>
      match _sprites s !! fileId asset with
      | Some a => Cached asset a
      | None =>
          match _avatarLoaderResult s with
          | None => NoLoaderResult
          | Some result =>
              match getTexture result (fileId asset) with
              | None => NoTexture asset
              | Some texture =>
                  match _dependencies s with
                  | None => NoDependencies
                  | Some _ => Created asset texture
                  end
              end
          end
      end
  end.

Lemma updatePart_eq (frame : Z) (part : AvatarDrawPart) (s : BaseAvatar) :
  updatePart parseInt16 frame part s =
    match partOutcome frame part s with
    | NoAsset =>
        (Throw "TypeError: Cannot read properties of undefined (reading 'fileId')", s)
    | Cached asset a => (Normal tt, place asset a s)
    | NoLoaderResult =>
        (Throw "Cant create asset when avatar loader result not present", s)
    | NoTexture _ => (Normal tt, s)
    | NoDependencies => (Throw "Invalid dependencies in BaseAvatar", s)
    | Created asset texture =>
        (Normal tt,
         place asset (nextAddress s) (allocate (newSprite part asset texture) s))
    end.
Proof.
  unfold updatePart, partOutcome.
  destruct (frameAsset part frame) as [asset|]; [|reflexivity].
  unfold bind at 1. unfold gets at 1.
  destruct (_sprites s !! fileId asset) as [a|] eqn:Ec; [reflexivity|].
  unfold createAsset, dependencies. cbv beta iota delta [bind gets ret modify throw].
  destruct (_avatarLoaderResult s) as [result|]; [|reflexivity].
  destruct (getTexture result (fileId asset)) as [texture|]; [|reflexivity].
  destruct (_dependencies s); reflexivity.
Qed.

(** ** Helper facts on the container and the heap *)

Lemma elem_of_addChild (x a : nat) (c : Container) :
  x ∈ children (addChild a c) <-> x ∈ children c \/ x = a.
Proof.
  unfold addChild. cbn [children].
  rewrite elem_of_app, list_elem_of_filter, list_elem_of_singleton.
  destruct (decide (x = a)) as [->|Hne]; tauto.
Qed.

Lemma NoDup_addChild (a : nat) (c : Container) :
  NoDup (children c) -> NoDup (children (addChild a c)).
Proof.
  intros H. unfold addChild. cbn [children]. apply NoDup_app. split; [|split].
  - apply NoDup_filter, H.
  - intros x Hx Hx'. apply list_elem_of_filter in Hx as [Hx _].
    apply list_elem_of_singleton in Hx'. contradiction.
  - apply NoDup_singleton.
Qed.

Lemma lookup_alter_cases (f : HitSprite -> HitSprite) (a x : nat)
    (h : gmap nat HitSprite) :
  alter f a h !! x = (if decide (a = x) then f else id) <$> h !! x.
Proof.
  destruct (decide (a = x)) as [->|Hne].
  - apply lookup_alter_eq.
  - rewrite lookup_alter_ne by exact Hne. destruct (h !! x); reflexivity.
Qed.

(** The heap after [this._assets.forEach(...)]. *)
Lemma lookup_hidden (l : list nat) (h : gmap nat HitSprite) (x : nat) :
  fold_left (fun h a => alter hideSprite a h) l h !! x =
    (if decide (x ∈ l) then hideSprite else id) <$> h !! x.
Proof.
  revert h. induction l as [|a l IH]; intros h; cbn [fold_left].
  - destruct (h !! x); reflexivity.
  - rewrite IH, lookup_alter_cases.
    destruct (decide (x ∈ a :: l)) as [Hin|Hnin];
      destruct (decide (x ∈ l)) as [Hl|Hl];
      destruct (decide (a = x)) as [E|E];
      destruct (h !! x) as [sp|]; try reflexivity; exfalso.
    + apply elem_of_cons in Hin as [Hin|Hin]; [congruence|contradiction].
    + apply Hnin, elem_of_cons. right. exact Hl.
    + apply Hnin, elem_of_cons. right. exact Hl.
    + apply Hnin, elem_of_cons. left. congruence.
Qed.

(** ** The cache invariant *)

(** [_assets] lists every sprite made so far, each once; [_sprites] maps one
    file id to each of them; a sprite is ignored by hit detection exactly
    when it is invisible; the container holds visible sprites, each once. *)
Record cached (s : BaseAvatar) : Prop := {
  cached_NoDup : NoDup (_assets s);
  cached_heap : forall a, a ∈ _assets s <-> is_Some (spriteHeap s !! a);
  cached_below : forall a, a ∈ _assets s -> (a < nextAddress s)%nat;
  cached_keys : forall a, a ∈ _assets s <-> exists k, _sprites s !! k = Some a;
  cached_inj : forall k1 k2 a,
    _sprites s !! k1 = Some a -> _sprites s !! k2 = Some a -> k1 = k2;
  cached_ignore : forall a sp,
    spriteHeap s !! a = Some sp -> ignore sp = negb (visible sp);
  cached_children : NoDup (childrenOf s);
  cached_visible : forall a, a ∈ childrenOf s ->
    exists sp, spriteHeap s !! a = Some sp /\ visible sp = true
}.

Lemma childrenOf_place (asset : AvatarAsset) (a : nat) (s : BaseAvatar) (x : nat) :
  x ∈ childrenOf (place asset a s) <->
  x ∈ childrenOf s \/ (x = a /\ is_Some (_container s)).
Proof.
  unfold childrenOf, place. cbn [_container upd_container].
  destruct (_container s) as [c|]; cbn [fmap option_fmap option_map].
  - rewrite elem_of_addChild. split; (intros [H|H]; [left; exact H|right]).
    + split; [exact H|eauto].
    + exact (proj1 H).
  - split; [intros H; left; exact H|]. intros [H|[_ [c Hc]]]; [exact H|discriminate Hc].
Qed.

Lemma NoDup_childrenOf_place (asset : AvatarAsset) (a : nat) (s : BaseAvatar) :
  NoDup (childrenOf s) -> NoDup (childrenOf (place asset a s)).
Proof.
  unfold childrenOf, place. cbn [_container upd_container].
  destruct (_container s) as [c|]; cbn [fmap option_fmap option_map].
  - apply NoDup_addChild.
  - intros H. exact H.
Qed.

Lemma cached_place_cached (asset : AvatarAsset) (a : nat) (s : BaseAvatar) :
  cached s -> _sprites s !! fileId asset = Some a -> cached (place asset a s).
Proof.
  intros C Hk.
  assert (Ha : a ∈ _assets s) by (apply (cached_keys s C); eauto).
  assert (Hs : _sprites (place asset a s) = _sprites s)
    by (apply insert_id, Hk).
  assert (Hh : forall x, spriteHeap (place asset a s) !! x =
                 (if decide (a = x) then showSprite asset else id) <$> spriteHeap s !! x)
    by (intros x; apply lookup_alter_cases).
  split.
  - exact (cached_NoDup s C).
  - intros x. rewrite Hh, fmap_is_Some. exact (cached_heap s C x).
  - exact (cached_below s C).
  - intros x. rewrite Hs. exact (cached_keys s C x).
  - rewrite Hs. exact (cached_inj s C).
  - intros x sp. rewrite Hh. intros E.
    destruct (spriteHeap s !! x) as [sp0|] eqn:E0; [|discriminate E].
    injection E as <-. destruct (decide (a = x)); [reflexivity|].
    exact (cached_ignore s C x sp0 E0).
  - apply NoDup_childrenOf_place, (cached_children s C).
  - intros x Hx. apply childrenOf_place in Hx. rewrite Hh.
    destruct (decide (a = x)) as [<-|Hne].
    + apply (cached_heap s C) in Ha as [sp0 E0]. rewrite E0.
      exists (showSprite asset sp0). split; reflexivity.
    + destruct Hx as [Hx|[Hx _]]; [|congruence].
      destruct (cached_visible s C x Hx) as (sp0 & E0 & Hv). rewrite E0.
      exists sp0. split; [reflexivity|exact Hv].
Qed.

Lemma cached_place_created (part : AvatarDrawPart) (asset : AvatarAsset)
    (texture : HitTexture) (s : BaseAvatar) :
  cached s -> _sprites s !! fileId asset = None ->
  cached (place asset (nextAddress s) (allocate (newSprite part asset texture) s)).
Proof.
  intros C Hk.
  set (n := nextAddress s).
  set (s' := place asset n (allocate (newSprite part asset texture) s)).
  assert (Hn : n ∉ _assets s)
    by (intros Hin; apply (cached_below s C) in Hin; unfold n in Hin; lia).
  assert (Hnh : spriteHeap s !! n = None).
  { destruct (spriteHeap s !! n) eqn:E; [|reflexivity].
    exfalso. apply Hn, (cached_heap s C). eauto. }
  assert (Ha : _assets s' = _assets s ++ [n]) by reflexivity.
  assert (Hs : _sprites s' = <[fileId asset := n]> (_sprites s)) by reflexivity.
  assert (Hh : forall x, spriteHeap s' !! x =
            if decide (n = x) then Some (showSprite asset (newSprite part asset texture))
            else spriteHeap s !! x).
  { intros x. unfold s', place, allocate. cbn [spriteHeap upd_spriteHeap upd_sprites
      upd_container upd_assets upd_nextAddress]. fold n.
    rewrite lookup_alter_cases. destruct (decide (n = x)) as [<-|Hne].
    - rewrite lookup_insert_eq. reflexivity.
    - rewrite lookup_insert_ne by exact Hne. destruct (spriteHeap s !! x); reflexivity. }
  assert (Hc : forall x, x ∈ childrenOf s' <->
             x ∈ childrenOf s \/ (x = n /\ is_Some (_container s))).
  { intros x. unfold s'. rewrite childrenOf_place. reflexivity. }
  split.
  - rewrite Ha. apply NoDup_app. split; [exact (cached_NoDup s C)|]. split.
    + intros x Hx Hx'. apply list_elem_of_singleton in Hx'. congruence.
    + apply NoDup_singleton.
  - intros x. rewrite Ha, Hh, elem_of_app, list_elem_of_singleton.
    destruct (decide (n = x)) as [<-|Hne].
    + split; [eauto|]. intros _. right. reflexivity.
    + rewrite (cached_heap s C x). split; [intros [H|H]; [exact H|congruence]|eauto].
  - intros x. rewrite Ha, elem_of_app, list_elem_of_singleton.
    change (nextAddress s') with (S n).
    intros [Hx| ->]; [apply (cached_below s C) in Hx; fold n in Hx|]; lia.
  - intros x. rewrite Ha, Hs, elem_of_app, list_elem_of_singleton. split.
    + intros [Hx| ->].
      * apply (cached_keys s C) in Hx as [k Hx]. exists k.
        rewrite lookup_insert_ne by congruence. exact Hx.
      * exists (fileId asset). apply lookup_insert_eq.
    + intros [k Hx]. destruct (decide (fileId asset = k)) as [<-|Hne].
      * rewrite lookup_insert_eq in Hx. right. congruence.
      * rewrite lookup_insert_ne in Hx by exact Hne. left.
        apply (cached_keys s C). eauto.
  - intros k1 k2 x. rewrite Hs.
    destruct (decide (fileId asset = k1)) as [<-|H1];
      destruct (decide (fileId asset = k2)) as [<-|H2];
      rewrite ?lookup_insert_eq, ?lookup_insert_ne by assumption;
      intros E1 E2.
    + reflexivity.
    + exfalso. apply Hn, (cached_keys s C). exists k2. congruence.
    + exfalso. apply Hn, (cached_keys s C). exists k1. congruence.
    + exact (cached_inj s C k1 k2 x E1 E2).
  - intros x sp. rewrite Hh. destruct (decide (n = x)).
    + intros E. injection E as <-. reflexivity.
    + exact (cached_ignore s C x sp).
  - unfold s'. apply NoDup_childrenOf_place. exact (cached_children s C).
  - intros x Hx. apply Hc in Hx. rewrite Hh.
    destruct (decide (n = x)) as [<-|Hne]; [eexists; split; reflexivity|].
    destruct Hx as [Hx|[Hx _]]; [|congruence].
    exact (cached_visible s C x Hx).
Qed.

Lemma cached_updatePart (frame : Z) (part : AvatarDrawPart) :
  preserves cached (updatePart parseInt16 frame part).
Proof.
  intros s C. rewrite updatePart_eq. unfold partOutcome.
  destruct (frameAsset part frame) as [asset|]; [|exact C].
  destruct (_sprites s !! fileId asset) as [a|] eqn:Ek;
    [apply cached_place_cached; assumption|].
  destruct (_avatarLoaderResult s) as [result|]; [|exact C].
  destruct (getTexture result (fileId asset)) as [texture|]; [|exact C].
  destruct (_dependencies s); [|exact C].
  apply cached_place_created; assumption.
Qed.

(** The state at the start of the loop over the parts. *)
Definition cleared (s : BaseAvatar) : BaseAvatar :=
  upd_container
    (Some {| children := []; container_x := of_Z 0; container_y := of_Z 0;
             container_destroyed := false |})
    (upd_spriteHeap
       (fold_left (fun h a => alter hideSprite a h) (_assets s) (spriteHeap s)) s).

Lemma updateSpritesWith_eq (definition : AvatarDrawDefinition) (frame : Z)
    (s : BaseAvatar) :
  _updateSpritesWithAvatarDrawDefinition parseInt16 definition frame s =
    match _dependencies s with
    | None => (Normal tt, s)
    | Some _ =>
        forEach (parts definition) (updatePart parseInt16 frame) (cleared s)
    end.
Proof.
  unfold _updateSpritesWithAvatarDrawDefinition, mounted.
  cbv beta iota delta [bind gets ret modify].
  destruct (_dependencies s); reflexivity.
Qed.

Lemma cached_cleared (s : BaseAvatar) : cached s -> cached (cleared s).
Proof.
  intros C.
  assert (Hh : forall x, spriteHeap (cleared s) !! x =
            (if decide (x ∈ _assets s) then hideSprite else id) <$> spriteHeap s !! x)
    by (intros x; apply lookup_hidden).
  split.
  - exact (cached_NoDup s C).
  - intros x. rewrite Hh, fmap_is_Some. exact (cached_heap s C x).
  - exact (cached_below s C).
  - exact (cached_keys s C).
  - exact (cached_inj s C).
  - intros x sp. rewrite Hh. intros E.
    destruct (spriteHeap s !! x) as [sp0|] eqn:E0; [|discriminate E].
    injection E as <-. destruct (decide (x ∈ _assets s)); [reflexivity|].
    exact (cached_ignore s C x sp0 E0).
  - apply NoDup_nil_2.
  - intros x Hx. apply elem_of_nil in Hx. destruct Hx.
Qed.

Lemma cached_updateSpritesWith (definition : AvatarDrawDefinition) (frame : Z) :
  preserves cached (_updateSpritesWithAvatarDrawDefinition parseInt16 definition frame).
Proof.
  intros s C. rewrite updateSpritesWith_eq.
  destruct (_dependencies s); [|exact C].
  apply preserves_forEach; [intros part; apply cached_updatePart|].
  apply cached_cleared, C.
Qed.

Lemma cached_updatePosition (definition : AvatarDrawDefinition) :
  preserves cached (_updatePosition definition).
Proof.
  intros s C. unfold _updatePosition, bind, gets, modify, ret.
  destruct (_container s) as [c|] eqn:Ec; [|exact C]. cbn [snd].
  assert (Hc : childrenOf s = children c) by (unfold childrenOf; rewrite Ec; reflexivity).
  destruct C as [C1 C2 C3 C4 C5 C6 C7 C8]. rewrite Hc in C7, C8.
  split; assumption.
Qed.

Lemma cached_destroy : preserves cached destroy.
Proof.
  intros s C. unfold destroy, modify. cbn [snd].
  destruct C as [C1 C2 C3 C4 C5 C6 C7 C8].
  split; try assumption.
  - unfold childrenOf. cbn. destruct (_container s); cbn; apply NoDup_nil_2.
  - intros x Hx. unfold childrenOf in Hx. cbn in Hx.
    destruct (_container s); cbn in Hx; apply elem_of_nil in Hx; destruct Hx.
Qed.

Lemma cached_reloadLook : preserves cached _reloadLook.
Proof.
  intros s C. rewrite reloadLook_eq. cbn [snd].
  destruct (_dependencies s); [|exact C].
  destruct (_nextLookOptions s); [|exact C].
  destruct C as [C1 C2 C3 C4 C5 C6 C7 C8]. split; assumption.
Qed.

Ltac cached_modify :=
  apply preserves_modify;
  let s := fresh "s" in let C := fresh "C" in
  intros s C; destruct C as [C1 C2 C3 C4 C5 C6 C7 C8]; split; assumption.

Lemma cached_handle (e : Event) : preserves cached (handle parseInt16 e).
Proof.
  destruct e; cbn [handle];
    unfold set_dependencies, _handleDependenciesSet, dependencies,
      set_lookOptions, _updateLookOptions, set_currentFrame, tick, tickerCallback,
      _reloadLook_then, _updateSprites, _updateFrame, currentFrame;
    repeat first [ apply cached_reloadLook
                 | apply cached_destroy
                 | apply cached_updateSpritesWith
                 | apply cached_updatePosition
                 | preserves_step | cached_modify ].
Qed.

Lemma cached_new (options : LookOptions) : cached (new options).
Proof.
  split; cbn.
  - apply NoDup_nil_2.
  - intros a. rewrite lookup_empty. split; [intros H; apply elem_of_nil in H; destruct H|].
    intros [x H]. discriminate H.
  - intros a H. apply elem_of_nil in H. destruct H.
  - intros a. split; [intros H; apply elem_of_nil in H; destruct H|].
    intros [k H]. rewrite lookup_empty in H. discriminate H.
  - intros k1 k2 a H. rewrite lookup_empty in H. discriminate H.
  - intros a sp H. rewrite lookup_empty in H. discriminate H.
  - apply NoDup_nil_2.
  - intros a H. apply elem_of_nil in H. destruct H.
Qed.

Lemma cached_run (es : list Event) (s : BaseAvatar) :
  cached s -> cached (run parseInt16 es s).
Proof.
  unfold run. revert s. induction es as [|e es IH]; intros s H; [exact H|].
  cbn [fold_left]. apply IH, cached_handle, H.
Qed.

(** ** Sprites are made once and kept *)

(** From [s] to [s'] no sprite was dropped, replaced or given another
    texture or tint. *)
Definition kept (s s' : BaseAvatar) : Prop :=
  _assets s `prefix_of` _assets s' /\
  _sprites s ⊆ _sprites s' /\
  forall a sp, spriteHeap s !! a = Some sp ->
    exists sp', spriteHeap s' !! a = Some sp' /\
      hitTexture sp' = hitTexture sp /\ tint sp' = tint sp.

Lemma kept_refl (s : BaseAvatar) : kept s s.
Proof. split; [reflexivity|]. split; [reflexivity|]. intros a sp H. eauto. Qed.

Lemma kept_trans (s1 s2 s3 : BaseAvatar) : kept s1 s2 -> kept s2 s3 -> kept s1 s3.
Proof.
  intros (A1 & B1 & C1) (A2 & B2 & C2). split; [|split].
  - etransitivity; eassumption.
  - etransitivity; eassumption.
  - intros a sp H. destruct (C1 a sp H) as (sp' & H' & E1 & E2).
    destruct (C2 a sp' H') as (sp'' & H'' & E1' & E2').
    exists sp''. split; [exact H''|]. split; congruence.
Qed.

Lemma kept_place_cached (asset : AvatarAsset) (a : nat) (s : BaseAvatar) :
  _sprites s !! fileId asset = Some a -> kept s (place asset a s).
Proof.
  intros Hk. split; [reflexivity|]. split.
  - change (_sprites s ⊆ <[fileId asset := a]> (_sprites s)).
    rewrite insert_id by exact Hk. reflexivity.
  - intros x sp H. change (spriteHeap (place asset a s))
      with (alter (showSprite asset) a (spriteHeap s)).
    rewrite lookup_alter_cases, H. destruct (decide (a = x)); cbn; eauto.
Qed.

Lemma kept_place_created (part : AvatarDrawPart) (asset : AvatarAsset)
    (texture : HitTexture) (s : BaseAvatar) :
  cached s -> _sprites s !! fileId asset = None ->
  kept s (place asset (nextAddress s) (allocate (newSprite part asset texture) s)).
Proof.
  intros C Hk. split; [|split].
  - exists [nextAddress s]. reflexivity.
  - change (_sprites s ⊆ <[fileId asset := nextAddress s]> (_sprites s)).
    apply insert_subseteq, Hk.
  - intros x sp H.
    assert (Hx : x <> nextAddress s).
    { intros ->. assert (Hin : nextAddress s ∈ _assets s)
        by (apply (cached_heap s C); eauto).
      apply (cached_below s C) in Hin. lia. }
    change (spriteHeap (place asset (nextAddress s)
                          (allocate (newSprite part asset texture) s)))
      with (alter (showSprite asset) (nextAddress s)
              (<[nextAddress s := newSprite part asset texture]> (spriteHeap s))).
    rewrite lookup_alter_ne, lookup_insert_ne by congruence. eauto.
Qed.

Lemma kept_cleared (s : BaseAvatar) : kept s (cleared s).
Proof.
  split; [reflexivity|]. split; [reflexivity|].
  intros x sp H. change (spriteHeap (cleared s))
    with (fold_left (fun h a => alter hideSprite a h) (_assets s) (spriteHeap s)).
  rewrite lookup_hidden, H. destruct (decide (x ∈ _assets s)); cbn; eauto.
Qed.

Section Kept.
Variable s0 : BaseAvatar.

Definition both (s : BaseAvatar) : Prop := cached s /\ kept s0 s.

Lemma both_step {A : Type} (m : M BaseAvatar A) :
  preserves cached m -> (forall s, cached s -> kept s (snd (m s))) ->
  preserves both m.
Proof.
  intros Hc Hk s [C K]. split; [apply Hc, C|].
  apply (kept_trans _ s); [exact K|apply Hk, C].
Qed.

Lemma both_updatePart (frame : Z) (part : AvatarDrawPart) :
  preserves both (updatePart parseInt16 frame part).
Proof.
  apply both_step; [apply cached_updatePart|].
  intros s C. rewrite updatePart_eq. unfold partOutcome.
  destruct (frameAsset part frame) as [asset|]; [|apply kept_refl].
  destruct (_sprites s !! fileId asset) as [a|] eqn:Ek;
    [apply kept_place_cached; assumption|].
  destruct (_avatarLoaderResult s) as [result|]; [|apply kept_refl].
  destruct (getTexture result (fileId asset)) as [texture|]; [|apply kept_refl].
  destruct (_dependencies s); [|apply kept_refl].
  apply kept_place_created; assumption.
Qed.

Lemma both_updateSpritesWith (definition : AvatarDrawDefinition) (frame : Z) :
  preserves both (_updateSpritesWithAvatarDrawDefinition parseInt16 definition frame).
Proof.
  intros s [C K]. rewrite updateSpritesWith_eq.
  destruct (_dependencies s); [|split; assumption].
  apply preserves_forEach; [intros part; apply both_updatePart|].
  split; [apply cached_cleared, C|].
  apply (kept_trans _ s); [exact K|apply kept_cleared].
Qed.

Lemma both_kept {A : Type} (m : M BaseAvatar A) :
  preserves cached m ->
  (forall s, (_assets (snd (m s)), _sprites (snd (m s)), spriteHeap (snd (m s))) =
             (_assets s, _sprites s, spriteHeap s)) ->
  preserves both m.
Proof.
  intros Hc He. apply both_step; [exact Hc|].
  intros s _. specialize (He s). injection He as E1 E2 E3.
  unfold kept. rewrite E1, E2, E3. apply kept_refl.
Qed.

Lemma both_updatePosition (definition : AvatarDrawDefinition) :
  preserves both (_updatePosition definition).
Proof.
  apply both_kept; [apply cached_updatePosition|].
  intros s. unfold _updatePosition, bind, gets, ret, modify.
  destruct (_container s); reflexivity.
Qed.

Lemma both_destroy : preserves both destroy.
Proof. apply both_kept; [apply cached_destroy|]. intros s. reflexivity. Qed.

Lemma both_reloadLook : preserves both _reloadLook.
Proof.
  apply both_kept; [apply cached_reloadLook|].
  intros s. rewrite reloadLook_eq. cbn [snd].
  destruct (_dependencies s); [|reflexivity].
  destruct (_nextLookOptions s); reflexivity.
Qed.

Ltac both_modify :=
  apply preserves_modify;
  let s := fresh "s" in let C := fresh "C" in let K := fresh "K" in
  intros s [C K]; split;
    [destruct C as [C1 C2 C3 C4 C5 C6 C7 C8]; split; assumption|exact K].

Lemma both_handle (e : Event) : preserves both (handle parseInt16 e).
Proof.
  destruct e; cbn [handle];
    unfold set_dependencies, _handleDependenciesSet, dependencies,
      set_lookOptions, _updateLookOptions, set_currentFrame, tick, tickerCallback,
      _reloadLook_then, _updateSprites, _updateFrame, currentFrame;
    repeat first [ apply both_reloadLook
                 | apply both_destroy
                 | apply both_updateSpritesWith
                 | apply both_updatePosition
                 | preserves_step | both_modify ].
Qed.

Lemma both_run (es : list Event) (s : BaseAvatar) :
  both s -> both (run parseInt16 es s).
Proof.
  unfold run. revert s. induction es as [|e es IH]; intros s H; [exact H|].
  cbn [fold_left]. apply IH, both_handle, H.
Qed.

End Kept.

(** X15. The sprite cache of an avatar is consistent whatever has happened
    to it: [_assets] lists the sprites made so far without repetition, they
    are exactly the sprites that [_sprites] maps a file id to, no two file
    ids share a sprite, a sprite is ignored by hit detection exactly when it
    is invisible, and the container holds each of its sprites once, all of
    them visible. *)
Theorem sprite_cache_is_consistent (options : LookOptions) (es : list Event) :
  let s := run parseInt16 es (new options) in
  NoDup (_assets s) /\
  (forall a, a ∈ _assets s <-> exists k, _sprites s !! k = Some a) /\
  (forall k1 k2 a,
     _sprites s !! k1 = Some a -> _sprites s !! k2 = Some a -> k1 = k2) /\
  length (_assets s) = size (_sprites s) /\
  (forall a, a ∈ _assets s <-> is_Some (spriteHeap s !! a)) /\
  (forall a sp, spriteHeap s !! a = Some sp -> ignore sp = negb (visible sp)) /\
  NoDup (childrenOf s) /\
  (forall a, a ∈ childrenOf s ->
     exists sp, spriteHeap s !! a = Some sp /\ visible sp = true /\ ignore sp = false).
Proof.
  cbv zeta.
  pose proof (cached_run es (new options) (cached_new options)) as C.
  set (s := run parseInt16 es (new options)) in *.
  split; [exact (cached_NoDup s C)|].
  split; [exact (cached_keys s C)|].
  split; [exact (cached_inj s C)|].
  split.
  - rewrite <- length_map_to_list, <- (length_fmap snd).
    apply Permutation_length, NoDup_Permutation.
    + exact (cached_NoDup s C).
    + apply NoDup_fmap_2_strong; [|apply NoDup_map_to_list].
      intros [k1 a1] [k2 a2] H1 H2 E. cbn in E. subst a2.
      apply elem_of_map_to_list in H1, H2.
      rewrite (cached_inj s C k1 k2 a1 H1 H2). reflexivity.
    + intros a. rewrite (cached_keys s C a), list_elem_of_fmap. split.
      * intros [k Hk]. exists (k, a). split; [reflexivity|].
        apply elem_of_map_to_list, Hk.
      * intros [[k a'] [E Hk]]. cbn in E. subst a'. exists k.
        apply elem_of_map_to_list, Hk.
  - split; [exact (cached_heap s C)|].
    split; [exact (cached_ignore s C)|].
    split; [exact (cached_children s C)|].
    intros a Ha. destruct (cached_visible s C a Ha) as (sp & Hsp & Hv).
    exists sp. split; [exact Hsp|]. split; [exact Hv|].
    rewrite (cached_ignore s C a sp Hsp), Hv. reflexivity.
Qed.

(** X16. A sprite is made once per file id and then kept for the life of
    the avatar: later events only append to [_assets] and only add keys to
    [_sprites]; a sprite that exists keeps its texture and its tint, also
    when a later look selects the same file id with another color. *)
Theorem sprites_are_made_once (options : LookOptions) (es es' : list Event) :
  let s := run parseInt16 es (new options) in
  let s' := run parseInt16 (es ++ es') (new options) in
  _assets s `prefix_of` _assets s' /\
  _sprites s ⊆ _sprites s' /\
  (forall a sp, spriteHeap s !! a = Some sp ->
     exists sp', spriteHeap s' !! a = Some sp' /\
       hitTexture sp' = hitTexture sp /\ tint sp' = tint sp).
Proof.
  cbv zeta.
  assert (E : run parseInt16 (es ++ es') (new options) =
              run parseInt16 es' (run parseInt16 es (new options)))
    by (unfold run; apply fold_left_app).
  rewrite E. set (s := run parseInt16 es (new options)).
  assert (C : cached s) by (apply cached_run, cached_new).
  destruct (both_run s es' s (conj C (kept_refl s))) as [_ K]. exact K.
Qed.

(** ** What a rebuild puts on screen *)

(** Every visible sprite is in the container. *)
Definition shown (s : BaseAvatar) : Prop :=
  forall a sp, spriteHeap s !! a = Some sp -> visible sp = true -> a ∈ childrenOf s.

(** The container holds the cached sprites of the frame's assets of the
    parts in [done]. *)
Definition onScreen (frame : Z) (done : list AvatarDrawPart) (s : BaseAvatar) : Prop :=
  forall a, a ∈ childrenOf s <->
    exists part asset, part ∈ done /\ frameAsset part frame = Some asset /\
      _sprites s !! fileId asset = Some a.

(** The state of the loop over the parts after the parts in [done]. *)
Definition building (frame : Z) (done : list AvatarDrawPart) (s : BaseAvatar) : Prop :=
  cached s /\ is_Some (_dependencies s) /\ is_Some (_avatarLoaderResult s) /\
  (exists c, _container s = Some c /\ container_destroyed c = false) /\
  shown s /\ onScreen frame done s.

Lemma building_cleared (frame : Z) (s : BaseAvatar) :
  cached s -> is_Some (_dependencies s) -> is_Some (_avatarLoaderResult s) ->
  building frame [] (cleared s).
Proof.
  intros C Hd Hl. split; [apply cached_cleared, C|].
  split; [exact Hd|]. split; [exact Hl|].
  split; [eexists; split; reflexivity|]. split.
  - intros a sp Hsp Hv. exfalso.
    change (spriteHeap (cleared s))
      with (fold_left (fun h a => alter hideSprite a h) (_assets s) (spriteHeap s)) in Hsp.
    rewrite lookup_hidden in Hsp.
    destruct (spriteHeap s !! a) as [sp0|] eqn:E0; [|discriminate Hsp].
    rewrite decide_True in Hsp by (apply (cached_heap s C); eauto).
    injection Hsp as <-. discriminate Hv.
  - intros a. split.
    + intros Ha. apply elem_of_nil in Ha. destruct Ha.
    + intros (part & asset & Hp & _). apply elem_of_nil in Hp. destruct Hp.
Qed.

Lemma building_place_cached (frame : Z) (done : list AvatarDrawPart)
    (part : AvatarDrawPart) (asset : AvatarAsset) (a : nat) (s : BaseAvatar) :
  building frame done s -> frameAsset part frame = Some asset ->
  _sprites s !! fileId asset = Some a ->
  building frame (done ++ [part]) (place asset a s).
Proof.
  intros (C & Hd & Hl & (c & Hc & Hcd) & Hs & Ho) Hf Hk.
  assert (Hcache : _sprites (place asset a s) = _sprites s) by (apply insert_id, Hk).
  assert (Hch : forall x, x ∈ childrenOf (place asset a s) <-> x ∈ childrenOf s \/ x = a).
  { intros x. rewrite childrenOf_place, Hc. split; (intros [H|H]; [left; exact H|right]).
    - exact (proj1 H).
    - split; [exact H|eauto]. }
  split; [apply cached_place_cached; assumption|].
  split; [exact Hd|]. split; [exact Hl|]. split.
  { exists (addChild a c). unfold place. cbn [_container upd_container].
    rewrite Hc. split; [reflexivity|exact Hcd]. }
  split.
  - intros x sp Hsp Hv. apply Hch.
    change (spriteHeap (place asset a s))
      with (alter (showSprite asset) a (spriteHeap s)) in Hsp.
    rewrite lookup_alter_cases in Hsp.
    destruct (decide (a = x)) as [E|E]; [right; congruence|left].
    destruct (spriteHeap s !! x) as [sp0|] eqn:E0; [|discriminate Hsp].
    injection Hsp as <-. exact (Hs x sp0 E0 Hv).
  - intros x. rewrite Hch, Hcache. split.
    + intros [Hx| ->].
      * apply Ho in Hx as (p & q & Hp & Hq & Hx). exists p, q.
        split; [apply elem_of_app; left; exact Hp|]. split; assumption.
      * exists part, asset. split; [|split; assumption].
        apply elem_of_app. right. apply list_elem_of_singleton. reflexivity.
    + intros (p & q & Hp & Hq & Hx). apply elem_of_app in Hp as [Hp|Hp].
      * left. apply Ho. exists p, q. split; [exact Hp|]. split; assumption.
      * apply list_elem_of_singleton in Hp. subst p. right. congruence.
Qed.

Lemma building_place_created (frame : Z) (done : list AvatarDrawPart)
    (part : AvatarDrawPart) (asset : AvatarAsset) (texture : HitTexture)
    (s : BaseAvatar) :
  building frame done s -> frameAsset part frame = Some asset ->
  _sprites s !! fileId asset = None ->
  building frame (done ++ [part])
    (place asset (nextAddress s) (allocate (newSprite part asset texture) s)).
Proof.
  intros (C & Hd & Hl & (c & Hc & Hcd) & Hs & Ho) Hf Hk.
  set (n := nextAddress s).
  set (s' := place asset n (allocate (newSprite part asset texture) s)).
  assert (Hcache : _sprites s' = <[fileId asset := n]> (_sprites s)) by reflexivity.
  assert (Hch : forall x, x ∈ childrenOf s' <-> x ∈ childrenOf s \/ x = n).
  { intros x. unfold s'. rewrite childrenOf_place.
    change (childrenOf (allocate (newSprite part asset texture) s)) with (childrenOf s).
    change (_container (allocate (newSprite part asset texture) s)) with (_container s).
    rewrite Hc. split; (intros [H|H]; [left; exact H|right]).
    - exact (proj1 H).
    - split; [exact H|eauto]. }
  assert (Hh : forall x, n <> x -> spriteHeap s' !! x = spriteHeap s !! x).
  { intros x Hne. unfold s', place, allocate.
    cbn [spriteHeap upd_spriteHeap upd_sprites upd_container upd_assets upd_nextAddress].
    fold n. rewrite lookup_alter_ne, lookup_insert_ne by exact Hne. reflexivity. }
  split; [apply cached_place_created; assumption|].
  split; [exact Hd|]. split; [exact Hl|]. split.
  { exists (addChild n c). unfold s', place, allocate.
    cbn [_container upd_container upd_spriteHeap upd_sprites upd_assets upd_nextAddress].
    rewrite Hc. split; [reflexivity|exact Hcd]. }
  split.
  - intros x sp Hsp Hv. apply Hch.
    destruct (decide (n = x)) as [E|E]; [right; congruence|left].
    rewrite Hh in Hsp by exact E. exact (Hs x sp Hsp Hv).
  - intros x. rewrite Hch, Hcache. split.
    + intros [Hx| ->].
      * apply Ho in Hx as (p & q & Hp & Hq & Hx). exists p, q.
        split; [apply elem_of_app; left; exact Hp|]. split; [exact Hq|].
        rewrite lookup_insert_ne by congruence. exact Hx.
      * exists part, asset.
        split; [apply elem_of_app; right; apply list_elem_of_singleton; reflexivity|].
        split; [exact Hf|apply lookup_insert_eq].
    + intros (p & q & Hp & Hq & Hx).
      destruct (decide (fileId asset = fileId q)) as [E|E].
      * rewrite E, lookup_insert_eq in Hx. right. congruence.
      * rewrite lookup_insert_ne in Hx by exact E.
        apply elem_of_app in Hp as [Hp|Hp].
        -- left. apply Ho. exists p, q. split; [exact Hp|]. split; assumption.
        -- apply list_elem_of_singleton in Hp. subst p. congruence.
Qed.

Lemma building_updatePart (frame : Z) (done : list AvatarDrawPart)
    (part : AvatarDrawPart) (s : BaseAvatar) :
  building frame done s -> is_Some (frameAsset part frame) ->
  fst (updatePart parseInt16 frame part s) = Normal tt /\
  building frame (done ++ [part]) (snd (updatePart parseInt16 frame part s)).
Proof.
  intros B [asset Hf]. rewrite updatePart_eq. unfold partOutcome. rewrite Hf.
  destruct (_sprites s !! fileId asset) as [a|] eqn:Hk.
  { split; [reflexivity|]. apply building_place_cached; assumption. }
  pose proof B as (C & [d Hd] & [result Hl] & Hc & Hs & Ho).
  rewrite Hl. destruct (getTexture result (fileId asset)) as [texture|].
  - rewrite Hd. split; [reflexivity|]. apply building_place_created; assumption.
  - split; [reflexivity|]. cbn [snd].
    split; [exact C|]. split; [eauto|]. split; [eauto|]. split; [exact Hc|].
    split; [exact Hs|]. intros x. rewrite (Ho x). split.
    + intros (p & q & Hp & Hq & Hx). exists p, q.
      split; [apply elem_of_app; left; exact Hp|]. split; assumption.
    + intros (p & q & Hp & Hq & Hx). apply elem_of_app in Hp as [Hp|Hp].
      * exists p, q. split; [exact Hp|]. split; assumption.
      * apply list_elem_of_singleton in Hp. subst p. congruence.
Qed.

(** X17. On a mounted avatar with a loader result, a rebuild for a frame
    that selects an asset in every part returns; afterwards the avatar has a
    new container that is not destroyed, the container holds exactly the
    cached sprites of the assets selected in the parts, and a sprite is
    visible exactly when it is in the container. *)
Theorem rebuild_shows_the_frame (definition : AvatarDrawDefinition) (frame : Z)
    (s : BaseAvatar) :
  cached s -> is_Some (_dependencies s) -> is_Some (_avatarLoaderResult s) ->
  (forall part, part ∈ parts definition -> is_Some (frameAsset part frame)) ->
  let r := _updateSpritesWithAvatarDrawDefinition parseInt16 definition frame s in
  fst r = Normal tt /\
  exists c,
    _container (snd r) = Some c /\ container_destroyed c = false /\
    (forall a, a ∈ children c <->
       exists part asset, part ∈ parts definition /\
         frameAsset part frame = Some asset /\
         _sprites (snd r) !! fileId asset = Some a) /\
    (forall a sp, spriteHeap (snd r) !! a = Some sp ->
       (visible sp = true <-> a ∈ children c)).
Proof.
  intros C Hd Hl Hparts. cbv zeta. rewrite updateSpritesWith_eq.
  destruct (_dependencies s) as [d|] eqn:Ed; [|destruct Hd as [d Hd]; discriminate Hd].
  assert (B0 : building frame [] (cleared s))
    by (apply building_cleared; [exact C|rewrite Ed; eauto|exact Hl]).
  destruct (forEach_done (building frame) (updatePart parseInt16 frame)
              (parts definition)
              (fun done part s0 Hp B => building_updatePart frame done part s0 B
                                          (Hparts part Hp))
              [] (cleared s) B0) as [Hn B].
  split; [exact Hn|]. cbn [app] in B.
  set (s' := snd (forEach (parts definition) (updatePart parseInt16 frame) (cleared s))) in *.
  destruct B as (C' & _ & _ & (c & Hc & Hcd) & Hs & Ho).
  assert (Hch : childrenOf s' = children c) by (unfold childrenOf; rewrite Hc; reflexivity).
  exists c. split; [exact Hc|]. split; [exact Hcd|]. split.
  - intros a. rewrite <- Hch. apply Ho.
  - intros a sp Hsp. rewrite <- Hch. split; [apply (Hs a sp Hsp)|].
    intros Ha. destruct (cached_visible s' C' a Ha) as (sp' & Hsp' & Hv). congruence.
Qed.

(** ** Frames that select no asset *)

Lemma frameAsset_None (part : AvatarDrawPart) (frame : Z) :
  assets part = [] \/
    (frame < 0 /\ ~ (Z.of_nat (length (assets part)) | frame)) ->
  frameAsset part frame = None.
Proof.
  unfold frameAsset. intros [E|[Hneg Hdiv]].
  - rewrite E. reflexivity.
  - destruct (Z.eqb_spec (Z.of_nat (length (assets part))) 0) as [_|Hn]; [reflexivity|].
    assert (Hle : Z.rem frame (Z.of_nat (length (assets part))) <= 0)
      by (apply Z.rem_nonpos; lia).
    pose proof (Z.rem_divide frame _ Hn) as Hd.
    destruct (Z.ltb_spec (Z.rem frame (Z.of_nat (length (assets part)))) 0) as [_|Hge];
      [reflexivity|].
    exfalso. apply Hdiv, Hd. lia.
Qed.

Lemma updatePart_answers (frame : Z) (part : AvatarDrawPart) (s : BaseAvatar) :
  fst (updatePart parseInt16 frame part s) <> OutOfFuel.
Proof.
  rewrite updatePart_eq. destruct (partOutcome frame part s); discriminate.
Qed.

(** X18. The rebuild of a mounted avatar throws when a part of the draw
    definition has no assets, or when the frame index is negative and not a
    multiple of the number of assets of a part: the [currentFrame] setter
    accepts any number, and the rebuild reads a property of [undefined]. *)
Theorem rebuild_throws_without_asset (definition : AvatarDrawDefinition) (frame : Z)
    (part : AvatarDrawPart) (s : BaseAvatar) :
  is_Some (_dependencies s) -> part ∈ parts definition ->
  assets part = [] \/
    (frame < 0 /\ ~ (Z.of_nat (length (assets part)) | frame)) ->
  exists msg,
    fst (_updateSpritesWithAvatarDrawDefinition parseInt16 definition frame s) =
      Throw msg.
Proof.
  intros [d Hd] Hp Hbad. rewrite updateSpritesWith_eq, Hd.
  apply (forEach_throws _ _ part Hp).
  - intros s0. rewrite updatePart_eq. unfold partOutcome.
    rewrite (frameAsset_None part frame Hbad). eauto.
  - intros b s0. apply updatePart_answers.
Qed.

(** ** The ticker subscription *)

Lemma subscribed_of_control {A : Type} (m : M BaseAvatar A) (n : nat) :
  keeps_control m -> preserves (fun s => subscriptions s = n) m.
Proof.
  intros K s H. specialize (K (control s) s eq_refl). cbn beta in K.
  unfold control in K. injection K as _ _ _ _ _ _ _ _ _ Hs. congruence.
Qed.

Lemma subscribed_reloadLook (n : nat) :
  preserves (fun s => subscriptions s = n) _reloadLook.
Proof.
  intros s H. rewrite reloadLook_eq. cbn [snd].
  destruct (_dependencies s); [|exact H].
  destruct (_nextLookOptions s); exact H.
Qed.

Lemma subscriptions_handle (e : Event) (s : BaseAvatar) :
  subscriptions (state_after (handle parseInt16 e) s) =
    ((if is_mount e then 1 else 0) + subscriptions s)%nat.
Proof.
  destruct e; cbn [is_mount handle].
  - unfold state_after, set_dependencies, _handleDependenciesSet, dependencies.
    unfold modify at 1. unfold bind at 1. unfold bind at 1.
    rewrite reloadLook_eq. cbn [_dependencies upd_dependencies _nextLookOptions].
    destruct (_nextLookOptions s); reflexivity.
  - assert (K : preserves (fun s' => subscriptions s' = subscriptions s)
                  (set_lookOptions value)).
    { unfold set_lookOptions, _updateLookOptions.
      repeat first [preserves_step | sprite_modify]. }
    exact (K s eq_refl).
  - assert (K : preserves (fun s' => subscriptions s' = subscriptions s)
                  (set_currentFrame value)).
    { unfold set_currentFrame. repeat first [preserves_step | sprite_modify]. }
    exact (K s eq_refl).
  - assert (K : preserves (fun s' => subscriptions s' = subscriptions s)
                  (tick parseInt16)).
    { unfold tick, tickerCallback.
      repeat first [ apply subscribed_reloadLook
                   | apply subscribed_of_control, keeps_control_updateFrame
                   | preserves_step | sprite_modify ]. }
    exact (K s eq_refl).
  - assert (K : preserves (fun s' => subscriptions s' = subscriptions s)
                  (_reloadLook_then parseInt16 request result)).
    { unfold _reloadLook_then.
      repeat first [ apply subscribed_of_control, keeps_control_updateSprites
                   | preserves_step | sprite_modify ]. }
    exact (K s eq_refl).
  - reflexivity.
Qed.

(** X19. Every assignment of the dependencies subscribes one more callback
    to the animation ticker, and nothing removes one: [destroy] does not
    unsubscribe, and an avatar mounted twice runs its callback twice a
    tick. *)
Theorem ticker_subscriptions_accumulate (es : list Event) (s : BaseAvatar) :
  subscriptions (run parseInt16 es s) =
    (subscriptions s + length (filter (fun e => is_mount e = true) es))%nat.
Proof.
  unfold run. revert s. induction es as [|e es IH]; intros s; cbn [fold_left].
  - cbn. lia.
  - rewrite IH, subscriptions_handle. rewrite filter_cons.
    destruct e; cbn [is_mount];
      [rewrite decide_True by reflexivity|rewrite decide_False by discriminate..];
      cbn [length]; lia.
Qed.

End AvatarSpriteCache.

Section AvatarSpriteExamples.
Import BaseAvatar.
Local Existing Instance Q_JsNumber.

Lemma request_ids_are_consecutive_witness :
  let s := run example_parseInt16 example_two_requests (new example_look) in
  _updateId s = Z.of_nat (length (requests s)) /\
  (forall i request, requests s !! i = Some request ->
     requestId request = Z.of_nat i + 1).
Proof.
  refine (request_ids_are_consecutive example_parseInt16 example_look
            example_two_requests _).
  vm_compute. reflexivity.
Defined.

(** The avatar is mounted with the plain look; the look "wave" is assigned;
    the response to the first request arrives before the tick. *)
Lemma pending_look_is_dropped_by_response_witness :
  let s' := run example_parseInt16
              [SetLookOptions example_look_wave;
               Resolved example_first example_result; Tick] example_avatar in
  requests s' = requests example_avatar /\
  _nextLookOptions s' = None /\
  _lookOptions s' = Some (request_lookOptions example_first) /\
  lookOptions s' = (Normal (request_lookOptions example_first), s').
Proof.
  refine (pending_look_is_dropped_by_response example_parseInt16 example_look_wave
            example_first example_result example_avatar _).
  reflexivity.
Defined.

(** Everything but mounting happens to an avatar. *)
Definition example_unmounted : list Event :=
  [SetLookOptions example_look_wave; SetCurrentFrame 3; Tick;
   Resolved example_first example_result; Destroy].

Lemma unmounted_avatar_is_inert_witness :
  let s := run example_parseInt16 example_unmounted (new example_look) in
  _dependencies s = None /\ requests s = [] /\ subscriptions s = 0%nat /\
  _container s = None /\ _assets s = [] /\ spriteHeap s = ∅ /\
  (forall e, is_mount e = false -> fst (handle example_parseInt16 e s) = Normal tt).
Proof.
  refine (unmounted_avatar_is_inert example_parseInt16 example_look
            example_unmounted _).
  reflexivity.
Defined.

Lemma example_applied_cached : cached example_applied.
Proof. apply cached_run, cached_new. Defined.

Lemma example_part_only (part : AvatarDrawPart) :
  part ∈ parts (getDrawDefinition example_result example_look_wave) ->
  part = example_part.
Proof. intros H. apply list_elem_of_singleton in H. exact H. Defined.

Lemma rebuild_shows_the_frame_witness :
  let r := _updateSpritesWithAvatarDrawDefinition example_parseInt16
             (getDrawDefinition example_result example_look_wave) 4 example_applied in
  fst r = Normal tt /\
  exists c,
    _container (snd r) = Some c /\ container_destroyed c = false /\
    (forall a, a ∈ children c <->
       exists part asset,
         part ∈ parts (getDrawDefinition example_result example_look_wave) /\
         frameAsset part 4 = Some asset /\
         _sprites (snd r) !! fileId asset = Some a) /\
    (forall a sp, spriteHeap (snd r) !! a = Some sp ->
       (visible sp = true <-> a ∈ children c)).
Proof.
  refine (rebuild_shows_the_frame example_parseInt16
            (getDrawDefinition example_result example_look_wave) 4 example_applied
            example_applied_cached _ _ _).
  - exists example_dependencies. reflexivity.
  - exists example_result. reflexivity.
  - intros part Hp. rewrite (example_part_only part Hp).
    exists (example_asset "b"). reflexivity.
Defined.

Lemma rebuild_throws_without_asset_witness :
  exists msg,
    fst (_updateSpritesWithAvatarDrawDefinition example_parseInt16
           (getDrawDefinition example_result example_look_wave) (-1) example_applied) =
      Throw msg.
Proof.
  refine (rebuild_throws_without_asset example_parseInt16
            (getDrawDefinition example_result example_look_wave) (-1) example_part
            example_applied _ _ _).
  - exists example_dependencies. reflexivity.
  - apply list_elem_of_singleton. reflexivity.
  - right. split; [reflexivity|]. intros [k Hk]. cbn in Hk. lia.
Defined.

(** The rebuild at frame 4 of the applied avatar: the sprite made for asset
    "a" is hidden and the one made for asset "b" is on screen. *)
Example example_rebuild_frame_4 :
  let s := snd (_updateSpritesWithAvatarDrawDefinition example_parseInt16
                  (getDrawDefinition example_result example_look_wave) 4
                  example_applied) in
  _assets s = [0; 1]%nat /\ childrenOf s = [1%nat] /\
  visible <$> spriteHeap s !! 0%nat = Some false /\
  visible <$> spriteHeap s !! 1%nat = Some true.
Proof. repeat split. Qed.

End AvatarSpriteExamples.
